(** * HyperMonetIconTheme: the icon-pack build script, embedded and verified

    A shallow embedding of [HyperMonetIconThemeScript.py]:
    - [MappingProcessor]: package extraction, de-duplication, sorting and the
      hand-written pretty-printer of the normalized mapping file;
    - [IconProcessor]: glyph geometry, recolouring and the per-package
      directory layout written by [generate_icons];
    - [ThemePacker]: the two archives built by walking the template trees;
    - [Cleaner]: the removal of what an earlier run left behind.

    Python [str] values are modelled by [string], read as the UTF-8 encoding
    of the text: every character the script inspects is ASCII, and byte-wise
    lexicographic order on UTF-8 coincides with code-point order. *)

From Stdlib Require Import ZArith Lia Ascii SpecFloat.
From Stdlib Require String.
From stdpp Require Import base list sets strings sorting.

Local Open Scope Z_scope.

(** ** Strings *)

Module Str.

Definition eqb_ascii (a b : ascii) : bool := bool_decide (a = b).

Fixpoint mem (c : ascii) (s : string) : bool :=
  match s with
  | EmptyString => false
  | String a s' => eqb_ascii c a || mem c s'
  end.

(** [s.startswith(p)], returning the remainder. *)
Fixpoint strip_prefix (p s : string) : option string :=
  match p, s with
  | EmptyString, _ => Some s
  | String a p', String b s' =>
      if eqb_ascii a b then strip_prefix p' s' else None
  | String _ _, EmptyString => None
  end.

Definition startswith (s p : string) : bool :=
  match strip_prefix p s with Some _ => true | None => false end.

Definition endswith (s p : string) : bool :=
  startswith (String.rev s) (String.rev p).

(** [needle in s] *)
Fixpoint contains (needle s : string) : bool :=
  startswith s needle ||
  match s with
  | EmptyString => false
  | String _ s' => contains needle s'
  end.

(** [s.split(sep)] for a one-character separator. *)
Fixpoint split (sep : ascii) (s : string) : list string :=
  match s with
  | EmptyString => [EmptyString]
  | String a s' =>
      if eqb_ascii a sep then EmptyString :: split sep s'
      else match split sep s' with
           | [] => [String a EmptyString]
           | w :: ws => String a w :: ws
           end
  end.

(** The longest prefix free of [c], and what follows it. *)
Fixpoint break (c : ascii) (s : string) : string * string :=
  match s with
  | EmptyString => (EmptyString, EmptyString)
  | String a s' =>
      if eqb_ascii a c then (EmptyString, s)
      else let '(u, v) := break c s' in (String a u, v)
  end.

Fixpoint concat (l : list string) : string :=
  match l with
  | [] => EmptyString
  | s :: l' => s +:+ concat l'
  end.

(** [sep.join(l)] *)
Fixpoint join (sep : string) (l : list string) : string :=
  match l with
  | [] => EmptyString
  | [s] => s
  | s :: l' => s +:+ sep +:+ join sep l'
  end.

Definition upper_ascii (a : ascii) : ascii :=
  let n := Ascii.N_of_ascii a in
  if ((97 <=? n) && (n <=? 122))%N then Ascii.ascii_of_N (n - 32) else a.

(** [s.upper()], on the ASCII letters. *)
Fixpoint upper (s : string) : string :=
  match s with
  | EmptyString => EmptyString
  | String a s' => String (upper_ascii a) (upper s')
  end.

(** The characters [str.strip()] removes, among the ASCII ones. *)
Definition is_space (a : ascii) : bool :=
  let n := Ascii.N_of_ascii a in
  ((9 <=? n) && (n <=? 13) || (28 <=? n) && (n <=? 32))%N.

(** [bool(s.strip())]: some character of [s] is not white space. *)
Fixpoint nonblank (s : string) : bool :=
  match s with
  | EmptyString => false
  | String a s' => negb (is_space a) || nonblank s'
  end.

Definition nonempty (s : string) : bool :=
  match s with EmptyString => false | _ => true end.

(** The newline and the double quote, as one-character strings. *)
Definition nl : string := String "010"%char EmptyString.
Definition dq : string := String "034"%char EmptyString.

End Str.

(** ** A backtracking matcher for the regular-expression fragment in use

    [re.match] anchors at the start of the subject only.  The fragment covers
    what [parse_component_info]'s pattern is made of: one-character atoms,
    the greedy [+], the lazy [*?] and one capturing group. *)

Module Re.

Inductive atom :=
| Lit (c : ascii)        (* an ordinary or escaped character *)
| NotLit (c : ascii)     (* [^c] *)
| Dot.                   (* .  (no DOTALL: anything but a newline) *)

Definition atom_ok (k : atom) (a : ascii) : bool :=
  match k with
  | Lit c => Str.eqb_ascii c a
  | NotLit c => negb (Str.eqb_ascii c a)
  | Dot => negb (Str.eqb_ascii "010"%char a)
  end.

Inductive piece :=
| One (k : atom)
| PlusGreedy (k : atom)
| StarLazy (k : atom)
| GroupOpen
| GroupClose.

(** The span (start, stop) of group 1, as offsets into the subject. *)
Definition span := (nat * nat)%type.

Section loops.
Context {R : Type} (ok : ascii → bool) (k : string → nat → option R).

(** [x*?]: try the rest of the pattern first, consume one more on
    failure. *)
Fixpoint lazy_star (s : string) (i : nat) : option R :=
  match k s i with
  | Some r => Some r
  | None =>
      match s with
      | String a s' => if ok a then lazy_star s' (S i) else None
      | EmptyString => None
      end
  end.

(** [x*]: consume as much as possible, give back one at a time. *)
Fixpoint greedy_star (s : string) (i : nat) : option R :=
  match
    match s with
    | String a s' => if ok a then greedy_star s' (S i) else None
    | EmptyString => None
    end
  with
  | Some r => Some r
  | None => k s i
  end.
End loops.

(** [run ps s i o g]: match [ps] against [s], the rest of the subject from
    offset [i]; [o] is where the open group started, [g] the closed one. *)
Fixpoint run (ps : list piece)
  : string → nat → option nat → option span → option (option span) :=
  match ps with
  | [] => λ _ _ _ g, Some g
  | p :: ps' =>
      let k := run ps' in
      match p with
      | GroupOpen => λ s i _ g, k s i (Some i) g
      | GroupClose => λ s i o g,
          k s i None (match o with Some a => Some (a, i) | None => g end)
      | One c => λ s i o g,
          match s with
          | String a s' => if atom_ok c a then k s' (S i) o g else None
          | EmptyString => None
          end
      | StarLazy c => λ s i o g,
          lazy_star (atom_ok c) (λ s i, k s i o g) s i
      | PlusGreedy c => λ s i o g,
          match s with
          | String a s' =>
              if atom_ok c a
              then greedy_star (atom_ok c) (λ s i, k s i o g) s' (S i)
              else None
          | EmptyString => None
          end
      end
  end.

Fixpoint lits (s : string) : list piece :=
  match s with
  | EmptyString => []
  | String a s' => One (Lit a) :: lits s'
  end.

(** [re.match(pattern, s)], then [.group(1)] on success. *)
Definition match_group1 (ps : list piece) (s : string) : option string :=
  match run ps s 0%nat None None with
  | Some (Some (a, b)) => Some (String.substring a (b - a) s)
  | Some None => Some EmptyString
  | None => None
  end.

End Re.

(** ** Python dictionaries

    Insertion-ordered: assigning to a key that is present replaces the value
    in place, assigning to a new key appends it. *)

Module PyDict.
Section dict.
Context {V : Type}.

Definition t := list (string * V).

Definition empty : t := [].

(** [d[k] = v] *)
Fixpoint set (k : string) (v : V) (d : t) : t :=
  match d with
  | [] => [(k, v)]
  | (k', v') :: d' =>
      if decide (k = k') then (k, v) :: d' else (k', v') :: set k v d'
  end.

(** [d.get(k)] *)
Fixpoint get (k : string) (d : t) : option V :=
  match d with
  | [] => None
  | (k', v') :: d' => if decide (k = k') then Some v' else get k d'
  end.

(** [d.items()], in iteration order. *)
Definition items (d : t) : list (string * V) := d.

Definition keys (d : t) : list string := d.*1.
End dict.
Global Arguments t : clear implicits.
End PyDict.

(** ** ElementTree, as far as the script uses it *)

Module ET.

(** An element without text or children of its own: a tag and its
    attributes, in document order. *)
Record element := Element {
  tag : string;
  attrib : list (string * string)
}.

(** [item.get(key)] *)
Definition get (e : element) (key : string) : option string :=
  PyDict.get key (attrib e).

(** [item.get(key, '')] *)
Definition get_or_empty (e : element) (key : string) : string :=
  default EmptyString (get e key).

(** [root.findall(tag)]: the direct children carrying that tag. *)
Definition findall (t : string) (kids : list element) : list element :=
  filter (λ e, tag e = t) kids.

(** [_escape_attrib] of [xml.etree.ElementTree]. *)
Definition escape_char (a : ascii) : string :=
  if Str.eqb_ascii a "&" then "&amp;"
  else if Str.eqb_ascii a "<" then "&lt;"
  else if Str.eqb_ascii a ">" then "&gt;"
  else if Str.eqb_ascii a "034" then "&quot;"
  else if Str.eqb_ascii a "013" then "&#13;"
  else if Str.eqb_ascii a "010" then "&#10;"
  else if Str.eqb_ascii a "009" then "&#09;"
  else String a EmptyString.

Fixpoint escape_attrib (s : string) : string :=
  match s with
  | EmptyString => EmptyString
  | String a s' => escape_char a +:+ escape_attrib s'
  end.

Definition serialize_attrib (kv : string * string) : string :=
  " " +:+ kv.1 +:+ "=" +:+ Str.dq +:+ escape_attrib kv.2 +:+ Str.dq.

(** A childless element is written in the short form, [<tag ... />]. *)
Definition serialize_leaf (e : element) : string :=
  "<" +:+ tag e +:+ Str.concat (serialize_attrib <$> attrib e) +:+ " />".

(** [ET.tostring(root, encoding='unicode')] for an attribute-free root
    whose children are leaves. *)
Definition tostring (root_tag : string) (kids : list element) : string :=
  match kids with
  | [] => "<" +:+ root_tag +:+ " />"
  | _ => "<" +:+ root_tag +:+ ">" +:+ Str.concat (serialize_leaf <$> kids)
         +:+ "</" +:+ root_tag +:+ ">"
  end.

End ET.

(** ** MappingProcessor *)

Module MappingProcessor.

(** [r'ComponentInfo\{([^/]+)/.*?\}'] *)
Definition component_pattern : list Re.piece :=
  Re.lits "ComponentInfo{" ++
  [Re.GroupOpen; Re.PlusGreedy (Re.NotLit "/"); Re.GroupClose;
   Re.One (Re.Lit "/"); Re.StarLazy Re.Dot; Re.One (Re.Lit "}")].

Definition parse_component_info (component : string) : string :=
  match Re.match_group1 component_pattern component with
  | Some g => g
  | None => EmptyString
  end.

(** One round of the de-duplication loop. *)
Definition dedup_step (unique_packages : PyDict.t (string * string))
    (item : ET.element) : PyDict.t (string * string) :=
  let component := ET.get_or_empty item "component" in
  let name := ET.get_or_empty item "name" in
  let drawable := ET.get_or_empty item "drawable" in
  if Str.nonempty component && Str.nonempty drawable then
    let package := parse_component_info component in
    if Str.nonempty package
    then PyDict.set package (name, drawable) unique_packages
    else unique_packages
  else unique_packages.

Definition unique_packages (root : list ET.element)
  : PyDict.t (string * string) :=
  foldl dedup_step PyDict.empty (ET.findall "item" root).

(** Python's [<] on strings and on the tuples [(package, (name, drawable))]:
    the first differing component decides. *)
Definition str_lt (a b : string) : Prop := String.compare a b = Lt.

Definition pair_lt (x y : string * string) : Prop :=
  if decide (x.1 = y.1) then str_lt x.2 y.2 else str_lt x.1 y.1.

Definition entry_lt (x y : string * (string * string)) : Prop :=
  if decide (x.1 = y.1) then pair_lt x.2 y.2 else str_lt x.1 y.1.

Global Instance str_lt_dec : RelDecision str_lt.
Proof. intros a b; unfold str_lt; apply _. Defined.
Global Instance pair_lt_dec : RelDecision pair_lt.
Proof. intros x y; unfold pair_lt; destruct (decide _); apply _. Defined.
Global Instance entry_lt_dec : RelDecision entry_lt.
Proof. intros x y; unfold entry_lt; destruct (decide _); apply _. Defined.

(** [sorted(...)] never puts an element after a larger one. *)
Definition entry_le (x y : string * (string * string)) : Prop :=
  ¬ entry_lt y x.

Definition sorted (l : list (string * (string * string)))
  : list (string * (string * string)) :=
  merge_sort entry_le l.

(** The rows of the normalized table, in the order they are added. *)
Definition normalized_rows (root : list ET.element)
  : list (string * (string * string)) :=
  sorted (PyDict.items (unique_packages root)).

Definition new_item (row : string * (string * string)) : ET.element :=
  let '(package, (name, drawable)) := row in
  ET.Element "item"
    [("name", name); ("package", package); ("drawable", drawable)].

Definition new_root (root : list ET.element) : list ET.element :=
  new_item <$> normalized_rows root.

(** One round of the hand-written pretty-printer; the state is
    [(formatted_string, indent)]. *)
Definition format_step (st : string * string) (line : string)
  : string * string :=
  let '(formatted_string, indent) := st in
  if Str.nonblank line then
    if negb (Str.startswith line "</") then
      let formatted_string :=
        formatted_string +:+ (indent +:+ line +:+ ">" +:+ Str.nl) in
      if negb (Str.startswith line "<resources")
         && negb (Str.endswith line "/>")
      then (formatted_string, "    ")
      else (formatted_string, indent)
    else (formatted_string +:+ (line +:+ ">" +:+ Str.nl), EmptyString)
  else (formatted_string, indent).

Definition format (rough_string : string) : string :=
  (foldl format_step (EmptyString, EmptyString)
     (Str.split ">" rough_string)).1.

Definition xml_declaration : string :=
  "<?xml version=" +:+ Str.dq +:+ "1.0" +:+ Str.dq +:+
  " encoding=" +:+ Str.dq +:+ "utf-8" +:+ Str.dq +:+ "?>" +:+ Str.nl.

(** What is written to the output file, given the rows. *)
Definition write_rows (rows : list (string * (string * string))) : string :=
  xml_declaration +:+ format (ET.tostring "resources" (new_item <$> rows)).

(** [convert_icon_mapper], from the parsed source table to the text of the
    normalized mapping file. *)
Definition convert_icon_mapper (root : list ET.element) : string :=
  write_rows (normalized_rows root).

(** The source items that reach the dictionary, with the package extracted
    from each. *)
Definition extracted (item : ET.element) : option (string * (string * string)) :=
  let component := ET.get_or_empty item "component" in
  let name := ET.get_or_empty item "name" in
  let drawable := ET.get_or_empty item "drawable" in
  if Str.nonempty component && Str.nonempty drawable then
    let package := parse_component_info component in
    if Str.nonempty package then Some (package, (name, drawable)) else None
  else None.

End MappingProcessor.

(** ** The package grammar, stated directly

    What the pattern accepts, without the matcher: the fixed prefix, a
    non-empty package free of [/], the [/], and a closing brace later on the
    same line. *)

Module ComponentSyntax.

(** Some [}] occurs in [t] before any newline. *)
Fixpoint has_close (t : string) : bool :=
  match t with
  | EmptyString => false
  | String a t' =>
      if Str.eqb_ascii a "}" then true
      else if Str.eqb_ascii a "010" then false
      else has_close t'
  end.

Definition package_of (component : string) : option string :=
  match Str.strip_prefix "ComponentInfo{" component with
  | None => None
  | Some s =>
      match Str.break "/" s with
      | (String a u, String _ t) =>
          if has_close t then Some (String a u) else None
      | _ => None
      end
  end.

(** [component] reads [ComponentInfo{<package>/<mid>}<rest>]. *)
Definition parses_as (component package : string) : Prop :=
  ∃ mid rest,
    component = "ComponentInfo{" +:+ package +:+ "/" +:+ mid +:+ "}" +:+ rest
    ∧ package ≠ EmptyString
    ∧ Str.mem "/" package = false
    ∧ Str.mem "010" mid = false.

Definition parseable (component : string) : Prop :=
  ∃ package, parses_as component package.

End ComponentSyntax.

(** ** The layout of the normalized mapping file, stated directly *)

Module MappingLayout.
Import MappingProcessor.

(** One item row, on a line of its own, behind [indent]. *)
Definition item_line (indent : string) (row : string * (string * string))
  : string :=
  indent +:+ ET.serialize_leaf (new_item row) +:+ Str.nl.

Definition layout (rows : list (string * (string * string))) : string :=
  match rows with
  | [] => xml_declaration +:+ "<resources />" +:+ Str.nl
  | row :: rest =>
      xml_declaration +:+ "<resources>" +:+ Str.nl +:+
      item_line EmptyString row +:+
      Str.concat (item_line "    " <$> rest) +:+
      "</resources>" +:+ Str.nl
  end.

(** An item row without its closing [>]: one piece of the split. *)
Definition item_body (row : string * (string * string)) : string :=
  "<item" +:+
  Str.concat (ET.serialize_attrib <$> ET.attrib (new_item row)) +:+ " /".

(** Reading a file back: its lines, and for each line that holds an item
    row the number of spaces in front of it. *)
Fixpoint leading_spaces (s : string) : nat :=
  match s with
  | String a s' => if Str.eqb_ascii a " " then S (leading_spaces s') else 0
  | EmptyString => 0
  end.

Fixpoint lstrip_spaces (s : string) : string :=
  match s with
  | String a s' => if Str.eqb_ascii a " " then lstrip_spaces s' else s
  | EmptyString => EmptyString
  end.

Definition item_row_indents (text : string) : list nat :=
  leading_spaces <$>
    filter (λ l, Str.startswith (lstrip_spaces l) "<item" = true)
           (Str.split "010" text).

End MappingLayout.

(** ** Exceptions *)

Inductive exn :=
| FileNotFoundError
| FileExistsError
| NotADirectoryError
| IsADirectoryError
| ValueError
| OverflowError
| TypeError
| MemoryError.

Inductive result (A : Type) :=
| Ok (a : A)
| Raise (e : exn).
Global Arguments Ok {A} a.
Global Arguments Raise {A} e.

Definition result_bind {A B} (r : result A) (f : A → result B) : result B :=
  match r with
  | Ok a => f a
  | Raise e => Raise e
  end.

Notation "'try' x ':=' r 'in' k" := (result_bind r (λ x, k))
  (at level 10, x name, r at level 100, k at level 200,
   format "'try'  x  ':='  r  'in' '//' k").

(** ** Python floats: IEEE 754 binary64, round to nearest even *)

Module PyFloat.

Definition prec : Z := 53.
Definition emax : Z := 1024.

Definition float := spec_float.

(** [float(n)], as done implicitly by [n * x]. *)
Definition of_int (n : Z) : result float :=
  match binary_normalize prec emax n 0 false with
  | S754_infinity _ => Raise OverflowError
  | f => Ok f
  end.

Definition mul (x y : float) : float := SFmul prec emax x y.

(** [int(x)]: truncation towards zero. *)
Definition to_int (x : float) : result Z :=
  match x with
  | S754_zero _ => Ok 0
  | S754_finite s m e =>
      let a := if 0 <=? e then Z.pos m * 2 ^ e else Z.pos m `div` 2 ^ (- e) in
      Ok (if s then - a else a)
  | S754_infinity _ => Raise OverflowError
  | S754_nan => Raise ValueError
  end.

(** [int(n * x)] for an [int] [n] and a [float] [x]. *)
Definition int_of_product (n : Z) (x : float) : result Z :=
  try f := of_int n in
  to_int (mul f x).

(** The literal [0.4]: the double nearest to 2/5. *)
Definition lit_0_4 : float := S754_finite false 7205759403792794 (-54).

End PyFloat.

(** ** Images, as far as PIL is used *)

Module Img.

Definition pixel := (Z * Z * Z * Z)%type.

Definition alpha (p : pixel) : Z := p.2.

(** The modes of the images the script meets.  The canvases it makes are
    [RGBA].  A rendering comes back from [Image.open] as [RGBA] when the
    PNG has an alpha channel and as [RGB] when it has none: cairo writes a
    surface whose every pixel is opaque as a PNG without alpha. *)
Inductive mode_name := RGBA | RGB.

(** The mode, the size and the row-major pixel data, [width * height]
    pixels; the pixels of an [RGB] image are read with alpha 255. *)
Record image := Image {
  mode : mode_name;
  width : Z;
  height : Z;
  data : list pixel
}.

(** The largest C [int]: sizes are handed to the C core as such. *)
Definition c_int_max : Z := 2147483647.

(** [_check_size] of [Image.new]. *)
Definition check_size (w h : Z) : result unit :=
  if (w <? 0) || (h <? 0) then Raise ValueError else Ok ().

(** [core.fill('RGBA', (w, h), color)]: a size beyond a C [int] is not
    converted, a line longer than the core allows is not allocated;
    below these bounds the image is made, the memory for it being taken
    for granted. *)
Definition fill (w h : Z) (color : pixel) : result image :=
  if (c_int_max <? w) || (c_int_max <? h) then Raise OverflowError
  else if c_int_max `div` 4 - 1 <? w then Raise MemoryError
  else Ok (Image RGBA w h (replicate (Z.to_nat (w * h)) color)).

(** [Image.new('RGBA', (w, h), color)] for a colour given as a tuple. *)
Definition new (w h : Z) (color : pixel) : result image :=
  try _ := check_size w h in
  fill w h color.

Definition getpixel (im : image) (x y : Z) : option pixel :=
  if (0 <=? x) && (x <? width im) && (0 <=? y) && (y <? height im)
  then data im !! Z.to_nat (y * width im + x)
  else None.

(** Whether the box of [src], put at [(px, py)], meets the canvas
    [dst]. *)
Definition overlaps (dst src : image) (px py : Z) : bool :=
  (Z.max 0 px <? Z.min (width dst) (px + width src))
  && (Z.max 0 py <? Z.min (height dst) (py + height src)).

(** [dst.paste(src, (px, py), src)]: the box is clipped to the canvas;
    when nothing of it is left nothing happens.  Otherwise [src] serves
    as its own mask, which needs its alpha band: an [RGB] image is
    refused as a bad transparency mask.  Inside the box the source is
    laid over the destination through its alpha band ([blend dst src]);
    outside nothing changes. *)
Definition paste (blend : pixel → pixel → pixel)
    (dst src : image) (px py : Z) : result image :=
  if overlaps dst src px py then
    match mode src with
    | RGBA =>
        Ok (Image (mode dst) (width dst) (height dst)
              (imap (λ k d,
                 let x := Z.of_nat k `mod` width dst in
                 let y := Z.of_nat k `div` width dst in
                 match getpixel src (x - px) (y - py) with
                 | Some s => blend d s
                 | None => d
                 end) (data dst)))
    | RGB => Raise ValueError
    end
  else Ok dst.

(** [im.getdata()] *)
Definition getdata (im : image) : list pixel := data im.

(** A colour tuple as PIL reads it for an RGBA image: three or four
    components, anything else is refused. *)
Definition ink_of_tuple (t : list Z) : result pixel :=
  match t with
  | [r; g; b] => Ok (r, g, b, 255)
  | [r; g; b; a] => Ok (r, g, b, a)
  | _ => Raise TypeError
  end.

Fixpoint inks (ts : list (list Z)) : result (list pixel) :=
  match ts with
  | [] => Ok []
  | t :: ts' =>
      try p := ink_of_tuple t in
      try ps := inks ts' in
      Ok (p :: ps)
  end.

(** [im.putdata(new_data)], for as many tuples as the image has pixels. *)
Definition putdata (im : image) (new_data : list (list Z)) : result image :=
  try ps := inks new_data in
  Ok (Image (mode im) (width im) (height im) ps).

Definition tuple_of_pixel (p : pixel) : list Z :=
  let '(r, g, b, a) := p in [r; g; b; a].

End Img.

(** ** The file system

    A tree of directories and files.  A path is the list of its components
    from the root; all paths of the script are absolute, built from the
    working directory.  A component is any name: the model does not
    interpret [.], [..] or a [/] inside a name, so statements about names
    taken from the mapping are made for plain names.  There are plain
    files and directories only, no symbolic links: what is said of a
    removal is said of a run that returns, since [shutil.rmtree] refuses
    a link to a directory. *)

Module FS.

Definition bytes := list Byte.byte.
Definition path := list string.

Inductive node :=
| File (content : bytes)
| Dir (entries : list (string * node)).

Fixpoint find (name : string) (es : list (string * node)) : option node :=
  match es with
  | [] => None
  | (k, v) :: es' => if decide (name = k) then Some v else find name es'
  end.

Fixpoint put (name : string) (v : node) (es : list (string * node))
  : list (string * node) :=
  match es with
  | [] => [(name, v)]
  | (k, w) :: es' =>
      if decide (name = k) then (name, v) :: es' else (k, w) :: put name v es'
  end.

Definition remove (name : string) (es : list (string * node))
  : list (string * node) :=
  filter (λ e, e.1 ≠ name) es.

Fixpoint lookup (p : path) (n : node) : option node :=
  match p with
  | [] => Some n
  | c :: p' =>
      match n with
      | Dir es => match find c es with
                  | Some child => lookup p' child
                  | None => None
                  end
      | File _ => None
      end
  end.

Definition exists_ (p : path) (n : node) : bool :=
  match lookup p n with Some _ => true | None => false end.

Definition is_dir (p : path) (n : node) : bool :=
  match lookup p n with Some (Dir _) => true | _ => false end.

Definition is_plain_file (n : node) : bool :=
  match n with File _ => true | Dir _ => false end.

(** Rewrite the entries of the directory at [p]. *)
Fixpoint alter_dir (p : path)
    (f : list (string * node) → list (string * node)) (n : node)
  : result node :=
  match n with
  | File _ => Raise NotADirectoryError
  | Dir es =>
      match p with
      | [] => Ok (Dir (f es))
      | c :: p' =>
          match find c es with
          | None => Raise FileNotFoundError
          | Some child =>
              try child' := alter_dir p' f child in
              Ok (Dir (put c child' es))
          end
      end
  end.

(** The parent directory and the last component. *)
Definition split_last (p : path) : option (path * string) :=
  match reverse p with
  | [] => None
  | c :: rp => Some (reverse rp, c)
  end.

(** [open(p, 'wb')] followed by writing [b] and closing. *)
Definition write_file (p : path) (b : bytes) (n : node) : result node :=
  match split_last p with
  | None => Raise IsADirectoryError
  | Some (parent, name) =>
      match lookup p n with
      | Some (Dir _) => Raise IsADirectoryError
      | _ => alter_dir parent (put name (File b)) n
      end
  end.

(** [open(p, 'rb').read()] *)
Definition read_file (p : path) (n : node) : result bytes :=
  match lookup p n with
  | Some (File b) => Ok b
  | Some (Dir _) => Raise IsADirectoryError
  | None => Raise FileNotFoundError
  end.

(** [Path(p).mkdir(exist_ok=True)] *)
Definition mkdir_exist_ok (p : path) (n : node) : result node :=
  match lookup p n with
  | Some (Dir _) => Ok n
  | Some (File _) => Raise FileExistsError
  | None =>
      match split_last p with
      | None => Ok n
      | Some (parent, name) => alter_dir parent (put name (Dir [])) n
      end
  end.

(** The tree [n] with the chain of directories [p] below it, created where
    missing. *)
Fixpoint makedirs_in (p : path) (n : node) : result node :=
  match n with
  | File _ =>
      Raise (match p with [] => FileExistsError | _ => NotADirectoryError end)
  | Dir es =>
      match p with
      | [] => Ok n
      | c :: p' =>
          try child' := makedirs_in p' (default (Dir []) (find c es)) in
          Ok (Dir (put c child' es))
      end
  end.

(** [Path(p).mkdir(parents=True, exist_ok=True)] *)
Definition mkdir_parents_exist_ok (p : path) (n : node) : result node :=
  makedirs_in p n.

(** [Path(p).mkdir(parents=True)] *)
Definition mkdir_parents (p : path) (n : node) : result node :=
  match lookup p n with
  | Some _ => Raise FileExistsError
  | None => makedirs_in p n
  end.

(** [shutil.rmtree(p)] *)
Definition rmtree (p : path) (n : node) : result node :=
  match lookup p n, split_last p with
  | Some (Dir _), Some (parent, name) => alter_dir parent (remove name) n
  | Some (File _), _ => Raise NotADirectoryError
  | _, _ => Raise FileNotFoundError
  end.

(** [shutil.copytree(src, dst)]: [dst] must not exist; it is created with
    its missing parents and receives a copy of the tree at [src]. *)
Definition copytree (src dst : path) (n : node) : result node :=
  match lookup src n with
  | Some (Dir es) =>
      match lookup dst n, split_last dst with
      | None, Some (parent, name) =>
          try n' := makedirs_in parent n in
          alter_dir parent (put name (Dir es)) n'
      | _, _ => Raise FileExistsError
      end
  | Some (File _) => Raise NotADirectoryError
  | None => Raise FileNotFoundError
  end.

(** [os.rename(src, dst)] for a file [src]. *)
Definition rename_file (src dst : path) (n : node) : result node :=
  match lookup src n, split_last src with
  | Some (File b), Some (sparent, sname) =>
      try n' := write_file dst b n in
      alter_dir sparent (remove sname) n'
  | Some (Dir _), _ => Raise IsADirectoryError
  | _, _ => Raise FileNotFoundError
  end.

(** [shutil.copy(src, dst)]: into [dst] when it is a directory, onto it
    otherwise. *)
Definition copy (src dst : path) (n : node) : result node :=
  try b := read_file src n in
  match lookup dst n, split_last src with
  | Some (Dir _), Some (_, name) => write_file (dst ++ [name]) b n
  | _, _ => write_file dst b n
  end.

(** [Path(p).iterdir()]: the names in the directory. *)
Definition iterdir (p : path) (n : node) : result (list string) :=
  match lookup p n with
  | Some (Dir es) => Ok es.*1
  | Some (File _) => Raise NotADirectoryError
  | None => Raise FileNotFoundError
  end.

Definition subdirs (es : list (string * node)) : list string :=
  (filter (λ e, is_plain_file e.2 = false) es).*1.

Definition files (es : list (string * node)) : list string :=
  (filter (λ e, is_plain_file e.2 = true) es).*1.

(** [os.walk(top)], top-down: for every directory reached, its path
    relative to [top], its sub-directories and its files; then the same
    for each sub-directory, in listing order. *)
Fixpoint walk_from (rel : path) (n : node)
  : list (path * list string * list string) :=
  match n with
  | File _ => []
  | Dir es =>
      (rel, subdirs es, files es) ::
      (fix below (l : list (string * node)) :=
         match l with
         | [] => []
         | (name, child) :: l' =>
             walk_from (rel ++ [name]) child ++ below l'
         end) es
  end.

Definition walk (top : path) (n : node)
  : list (path * list string * list string) :=
  match lookup top n with
  | Some d => walk_from [] d
  | None => []
  end.

(** The text of an absolute path, [/a/b/c]. *)
Definition path_str (p : path) : string :=
  match p with
  | [] => "/"
  | _ => Str.concat ((λ c, "/" +:+ c) <$> p)
  end.

(** [os.path.relpath] of a walked file, relative to the top of the walk. *)
Definition relpath (rel : path) (file : string) : string :=
  Str.join "/" (rel ++ [file]).

End FS.

(** ** Running the script: the file system and what is printed

    A computation reads and updates the world and either returns or raises;
    what was done before an exception stays done. *)

Module Run.

(** What the script prints per item, and the file-system and rasterizer
    calls it makes, in the order they happen. *)
Inductive event :=
| MsgMissing (drawable package : string)      (* svg file not found *)
| MsgFailed (drawable package : string)       (* no foreground produced *)
| MsgProgress (processed total : nat) (drawable package : string)
| MsgSvgError (svg_path : FS.path)            (* "Error processing SVG" *)
| MsgDone (processed total : nat)
| DidMkdir (p : FS.path)
| DidWrite (p : FS.path)
| DidRasterize (svg_path : FS.path).

Record world := World {
  fs : FS.node;
  log : list event
}.

Definition M (A : Type) : Type := world → result A * world.

Definition ret {A} (a : A) : M A := λ w, (Ok a, w).

Definition bind {A B} (m : M A) (k : A → M B) : M B :=
  λ w, match m w with
       | (Ok a, w') => k a w'
       | (Raise e, w') => (Raise e, w')
       end.

Definition lift {A} (r : result A) : M A := λ w, (r, w).

Definition emit (e : event) : M unit :=
  λ w, (Ok (), World (fs w) (log w ++ [e])).

(** Read the file system. *)
Definition ask {A} (f : FS.node → A) : M A := λ w, (Ok (f (fs w)), w).

(** Update the file system, or raise and leave it as it is. *)
Definition update (f : FS.node → result FS.node) : M unit :=
  λ w, match f (fs w) with
       | Ok n => (Ok (), World n (log w))
       | Raise e => (Raise e, w)
       end.

(** [for x in l: acc = body(acc, x)] *)
Fixpoint for_each {A S} (l : list A) (body : S → A → M S) (acc : S) : M S :=
  match l with
  | [] => ret acc
  | x :: l' => bind (body acc x) (for_each l' body)
  end.

End Run.

Notation "'let!' x ':=' m 'in' k" := (Run.bind m (λ x, k))
  (at level 10, x name, m at level 100, k at level 200,
   format "'let!'  x  ':='  m  'in' '//' k").
Notation "'do!' m 'in' k" := (Run.bind m (λ _, k))
  (at level 10, m at level 100, k at level 200,
   format "'do!'  m  'in' '//' k").

(** ** IconProcessor *)

Module IconProcessor.
Import Run.

(** [parse_icon_mapper], on the parsed mapping file: a dictionary from
    package to drawable, over the items that carry both. *)
Definition parse_icon_mapper (root : list ET.element) : PyDict.t string :=
  foldl (λ d item,
           match ET.get item "package", ET.get item "drawable" with
           | Some package, Some drawable =>
               if Str.nonempty package && Str.nonempty drawable
               then PyDict.set package drawable d
               else d
           | _, _ => d
           end)
        PyDict.empty (ET.findall "item" root).

(** One round of the recolouring loop: the tuple appended to [new_data]. *)
Definition recolor_item (fg_color_rgb : list Z) (item : Img.pixel)
  : list Z :=
  if negb (Img.alpha item =? 0)
  then fg_color_rgb ++ [Img.alpha item]
  else Img.tuple_of_pixel item.

Section externals.
(** [cairosvg.svg2png] followed by [Image.open]: the glyph with the
    mode of its PNG, or nothing when the renderer raises. *)
Variable svg2png : FS.bytes → Z → Z → option Img.image.
(** [ImageColor.getrgb]: three components, or four with an alpha. *)
Variable getrgb : string → result (list Z).
(** What [paste] leaves where a glyph pixel lands on a canvas pixel. *)
Variable blend : Img.pixel → Img.pixel → Img.pixel.
(** The PNG encoder behind [Image.save]. *)
Variable png_encode : Img.image → FS.bytes.

(** [Image.new('RGBA', (icon_size, icon_size), color)] for a colour
    given by name: the size is checked, then the colour is read, then the
    image is made. *)
Definition create_background (icon_size : Z) (color : string)
  : result Img.image :=
  try _ := Img.check_size icon_size icon_size in
  try rgb := getrgb color in
  try ink := Img.ink_of_tuple rgb in
  Img.fill icon_size icon_size ink.

(** The [try: svg2png(file_obj=open(svg_path, 'rb'), ...)] block:
    nothing when the file cannot be opened or the renderer raises. *)
Definition rasterize (svg_path : FS.path) (side : Z)
  : M (option Img.image) :=
  λ w,
    (Ok match FS.read_file svg_path (fs w) with
        | Ok b => svg2png b side side
        | Raise _ => None
        end,
     World (fs w) (log w ++ [DidRasterize svg_path])).

(** The recolouring branch of [process_svg]. *)
Definition recolor (fg_color : string) (final_icon : Img.image)
  : result Img.image :=
  if decide (Str.upper fg_color ≠ "#000000") then
    let data := Img.getdata final_icon in
    try fg_color_rgb := getrgb fg_color in
    Img.putdata final_icon (recolor_item fg_color_rgb <$> data)
  else Ok final_icon.

Definition process_svg (svg_path : FS.path) (fg_color : string)
    (icon_size : Z) (icon_scale : PyFloat.float) : M (option Img.image) :=
  let! icon_actual_size := lift (PyFloat.int_of_product icon_size icon_scale) in
  let! png := rasterize svg_path icon_actual_size in
  match png with
  | None =>
      do! emit (MsgSvgError svg_path) in
      ret None
  | Some icon =>
      let! final_icon := lift (Img.new icon_size icon_size (0, 0, 0, 0)) in
      let paste_x := (icon_size - icon_actual_size) `div` 2 in
      let paste_y := (icon_size - icon_actual_size) `div` 2 in
      let! final_icon :=
        lift (Img.paste blend final_icon icon paste_x paste_y) in
      let! final_icon := lift (recolor fg_color final_icon) in
      ret (Some final_icon)
  end.

(** [image.save(p, 'PNG')].  The encoder is taken to accept the image:
    an image without pixels (a canvas of size 0), which the PNG writer
    of Pillow does not encode, is outside what is modelled. *)
Definition save (im : Img.image) (p : FS.path) : M unit :=
  do! update (FS.write_file p (png_encode im)) in
  emit (DidWrite p).

Definition mkdir_exist_ok (p : FS.path) : M unit :=
  do! update (FS.mkdir_exist_ok p) in
  emit (DidMkdir p).

(** The body of the loop over [mapper.items()]. *)
Definition process_entry (svg_dir output_path : FS.path)
    (fg_color : string) (icon_size : Z) (icon_scale : PyFloat.float)
    (background : Img.image) (total_icons : nat)
    (processed_count : nat) (entry : string * string) : M nat :=
  let '(package_name, drawable_name) := entry in
  let svg_path := svg_dir ++ [drawable_name +:+ ".svg"] in
  let! found := ask (FS.exists_ svg_path) in
  if negb found then
    do! emit (MsgMissing drawable_name package_name) in
    ret processed_count
  else
    let icon_dir := output_path ++ [package_name] in
    do! mkdir_exist_ok icon_dir in
    do! save background (icon_dir ++ ["0.png"]) in
    let! icon := process_svg svg_path fg_color icon_size icon_scale in
    match icon with
    | Some icon =>
        do! save icon (icon_dir ++ ["1.png"]) in
        let processed_count := S processed_count in
        do! emit (MsgProgress processed_count total_icons
                    drawable_name package_name) in
        ret processed_count
    | None =>
        do! emit (MsgFailed drawable_name package_name) in
        ret processed_count
    end.

(** [generate_icons], on the parsed mapping file. *)
Definition generate_icons (icon_mapper : list ET.element)
    (svg_dir output_dir : FS.path) (fg_color bg_color : string)
    (icon_size : Z) (icon_scale : PyFloat.float) : M unit :=
  let output_path := output_dir in
  do! update (FS.mkdir_parents_exist_ok output_path) in
  let mapper := parse_icon_mapper icon_mapper in
  let! background := lift (create_background icon_size bg_color) in
  let total_icons := length mapper in
  let! processed_count :=
    for_each (PyDict.items mapper)
      (process_entry svg_dir output_path fg_color icon_size icon_scale
         background total_icons) 0%nat in
  emit (MsgDone processed_count total_icons).

End externals.

End IconProcessor.

(** ** Recolouring, stated directly *)

Module Recolour.

(** What the recolouring loop does to one pixel, for an RGB foreground:
    the colour is replaced and the alpha kept, unless the pixel is fully
    transparent. *)
Definition tint (r g b : Z) (px : Img.pixel) : Img.pixel :=
  if Img.alpha px =? 0 then px else (r, g, b, Img.alpha px).

End Recolour.

(** ** Vocabulary for statements about a run *)

Module RunSpec.
Import Run.

(** A name that is one path component and nothing else. *)
Definition plain_name (s : string) : Prop :=
  s ≠ EmptyString ∧ Str.mem "/" s = false ∧ s ≠ "." ∧ s ≠ "..".

(** Neither directory lies inside the other. *)
Definition unrelated (p q : FS.path) : Prop :=
  ¬ p `prefix_of` q ∧ ¬ q `prefix_of` p.

(** The path an event creates or writes, if any. *)
Definition effect_path (e : event) : option FS.path :=
  match e with
  | DidMkdir p | DidWrite p => Some p
  | _ => None
  end.

(** The event does not create or write anything at or below [dir]. *)
Definition spares (dir : FS.path) (e : event) : Prop :=
  ∀ q, effect_path e = Some q → ¬ dir `prefix_of` q.

(** The event creates or writes, if anything, at or below [dir]. *)
Definition within (dir : FS.path) (e : event) : Prop :=
  ∀ q, effect_path e = Some q → dir `prefix_of` q.

(** From [w] to [w'] the file system changed only at or below [dir] and
    at its ancestors, and only events within [dir] were added. *)
Definition frame (dir : FS.path) (w w' : world) : Prop :=
  (∀ q, ¬ q `prefix_of` dir → ¬ dir `prefix_of` q →
        FS.lookup q (fs w') = FS.lookup q (fs w))
  ∧ ∃ l, log w' = log w ++ l ∧ Forall (within dir) l.

(** Every run of [m] stays within [dir], whether it returns or raises. *)
Definition frames {A} (dir : FS.path) (m : M A) : Prop :=
  ∀ w r w', m w = (r, w') → frame dir w w'.

(** From [w0] to [w] nothing happened to the directory [dir] or to the
    files of [svg_dir], and no event created or wrote at or below [dir]. *)
Definition keeps (dir svg_dir : FS.path) (w0 w : world) : Prop :=
  FS.lookup dir (fs w) = FS.lookup dir (fs w0)
  ∧ (∀ x, FS.lookup (svg_dir ++ [x]) (fs w)
          = FS.lookup (svg_dir ++ [x]) (fs w0))
  ∧ ∃ l, log w = log w0 ++ l ∧ Forall (spares dir) l.

(** Every package and every asset file name of the mapping is a plain
    name. *)
Definition plain_mapper (mapper : PyDict.t string) : Prop :=
  Forall (λ e, plain_name e.1 ∧ plain_name (e.2 +:+ ".svg"))
         (PyDict.items mapper).

(** What the rasterizer returns for the file at [svg_path]. *)
Definition glyph_at (svg2png : FS.bytes → Z → Z → option Img.image)
    (n : FS.node) (svg_path : FS.path) (side : Z) : option Img.image :=
  match FS.read_file svg_path n with
  | Ok b => svg2png b side side
  | Raise _ => None
  end.

End RunSpec.

(** ** ThemePacker *)

Module ThemePacker.
Import Run.

(** The members of an archive, in the order they are written: the name
    inside the archive and the bytes stored under it. *)
Definition archive := list (string * FS.bytes).

Section externals.
(** The bytes of a closed, stored (uncompressed) archive. *)
Variable zip_encode : archive → FS.bytes.
(** What is found on disk in an archive that is still being written,
    after the given members. *)
Variable zip_partial : archive → FS.bytes.

(** [zf.write(file_path, arcname)]: the file is read when it is added;
    the archive itself, if the walk meets it, is read as it stands. *)
Definition zip_write (self top : FS.path) (n : FS.node)
    (rel : FS.path) (zf : archive) (file : string) : archive :=
  let file_path := top ++ rel ++ [file] in
  let content :=
    if decide (file_path = self) then zip_partial zf
    else match FS.lookup file_path n with
         | Some (FS.File b) => b
         | _ => []
         end in
  zf ++ [(FS.relpath rel file, content)].

(** [for root, _, files in os.walk(top): ...], skipping the directories
    whose path text satisfies [skip]. *)
Definition zip_walk (self top : FS.path) (skip : string → bool)
    (n : FS.node) : archive :=
  foldl (λ zf '(rel, _, files),
           if skip (FS.path_str (top ++ rel)) then zf
           else foldl (zip_write self top n rel) zf files)
        [] (FS.walk top n).

(** [with zipfile.ZipFile(target, 'w', ZIP_STORED) as zf: ...]: the file
    is created empty, filled by the walk, and completed on exit. *)
Definition zip_tree (target top : FS.path) (skip : string → bool)
  : M unit :=
  do! update (FS.write_file target []) in
  let! zf := ask (zip_walk target top skip) in
  update (FS.write_file target (zip_encode zf)).

Definition copy_package_dirs (output_dir drawable_dir : FS.path)
  : M unit :=
  let! names := λ w, (FS.iterdir output_dir (fs w), w) in
  for_each names
    (λ _ name,
       let item := output_dir ++ [name] in
       let! d := ask (FS.is_dir item) in
       if d then update (FS.copytree item (drawable_dir ++ [name]))
       else ret ())
    ().

Definition pack_icons_zip
    (output_dir icons_template_dir magisk_template_dir : FS.path)
  : M unit :=
  let icons_template_drawable_dir :=
    icons_template_dir ++ ["res"; "drawable-xxhdpi"] in
  let! present := ask (FS.exists_ icons_template_drawable_dir) in
  do! (if present then update (FS.rmtree icons_template_drawable_dir)
       else ret ()) in
  do! update (FS.mkdir_parents icons_template_drawable_dir) in
  do! copy_package_dirs output_dir icons_template_drawable_dir in
  let temp_icons_zip := icons_template_dir ++ ["icons.zip"] in
  do! zip_tree temp_icons_zip icons_template_dir (λ _, false) in
  let final_icons := icons_template_dir ++ ["icons"] in
  do! update (FS.rename_file temp_icons_zip final_icons) in
  update (FS.copy final_icons magisk_template_dir).

(** [pack_magisk_module]; [target_magisk] is the output name with the
    time stamp filled in. *)
Definition pack_magisk_module (magisk_template_dir target_magisk : FS.path)
  : M unit :=
  zip_tree target_magisk magisk_template_dir
    (λ root, Str.contains "icons" root).

(** The members of the final archive, for a template tree as it stands
    when the walk starts. *)
Definition module_members (magisk_template_dir target_magisk : FS.path)
    (n : FS.node) : archive :=
  zip_walk target_magisk magisk_template_dir
    (λ root, Str.contains "icons" root) n.

End externals.

End ThemePacker.

(** A file named [file] sits in the directory reached from [n] along
    [rel]. *)
Module Tree.

Inductive reaches : FS.node → FS.path → FS.node → Prop :=
| reaches_here n : reaches n [] n
| reaches_down es name child rel m :
    (name, child) ∈ es → reaches child rel m →
    reaches (FS.Dir es) (name :: rel) m.

Definition has_file (n : FS.node) (rel : FS.path) (file : string) : Prop :=
  ∃ es b, reaches n rel (FS.Dir es) ∧ (file, FS.File b) ∈ es.

End Tree.

(** ** The final archive, stated directly *)

Module PackerSpec.

(** The bytes of the file at [p]. *)
Definition content_at (n : FS.node) (p : FS.path) : FS.bytes :=
  match FS.lookup p n with
  | Some (FS.File b) => b
  | _ => []
  end.

(** No directory name along [rel] contains [icons]. *)
Definition clear_of_icons (rel : FS.path) : Prop :=
  ∀ c, c ∈ rel → Str.contains "icons" c = false.

(** The members of the archive when nothing is skipped on account of the
    template's own location: one per file whose directory path, below the
    template, is clear of [icons]. *)
Definition selected (top : FS.path) (n : FS.node)
    (skip : string → bool) : list (string * FS.bytes) :=
  '(rel, _, files) ← FS.walk top n;
  if skip (FS.path_str (top ++ rel)) then []
  else (λ file, (FS.relpath rel file, content_at n (top ++ rel ++ [file])))
         <$> files.

End PackerSpec.

(** ** A small installation to run the script on *)

Module Sample.
Import Img FS Run.

(** The source table: two items for [com.b], one item without drawable,
    one whose component does not parse. *)
Definition appfilter : list ET.element :=
  [ET.Element "item" [("component", "ComponentInfo{com.c/com.c.Main}");
                      ("drawable", "clock"); ("name", "Clock")];
   ET.Element "item" [("component", "ComponentInfo{com.b/com.b.Old}");
                      ("drawable", "mail"); ("name", "Mail")];
   ET.Element "item" [("component", "ComponentInfo{com.a/com.a.Main}");
                      ("drawable", "maps"); ("name", "Maps")];
   ET.Element "item" [("component", "ComponentInfo{com.d/com.d.Main}");
                      ("drawable", EmptyString); ("name", "Notes")];
   ET.Element "item" [("component", "com.e/com.e.Main");
                      ("drawable", "radio"); ("name", "Radio")];
   ET.Element "item" [("component", "ComponentInfo{com.b/com.b.Main}");
                      ("drawable", "broken"); ("name", "Mail 2")]].

(** The normalized table, as read back by [generate_icons]. *)
Definition icon_mapper : list ET.element :=
  MappingProcessor.new_root appfilter.

Definition byte_of (z : Z) : Byte.byte :=
  default Byte.x00 (Byte.of_N (Z.to_N (z `mod` 256))).

(** A renderer that refuses an empty file and otherwise fills the
    requested square with black, as opaque as the first byte of the file
    says; a rendering that is opaque throughout comes back without alpha
    channel. *)
Definition svg2png (b : bytes) (w h : Z) : option image :=
  match b with
  | [] => None
  | c :: _ =>
      let a := Z.of_N (Byte.to_N c) in
      Some (Image (if a =? 255 then RGB else RGBA) w h
              (replicate (Z.to_nat (w * h)) (0, 0, 0, a)))
  end.

Definition hex_digit (a : ascii) : option Z :=
  let n := Z.of_N (N_of_ascii a) in
  if (48 <=? n) && (n <=? 57) then Some (n - 48)
  else if (97 <=? n) && (n <=? 102) then Some (n - 87)
  else if (65 <=? n) && (n <=? 70) then Some (n - 55)
  else None.

Definition hex_pair (a b : ascii) : option Z :=
  match hex_digit a, hex_digit b with
  | Some x, Some y => Some (16 * x + y)
  | _, _ => None
  end.

(** [#rrggbb] and [#rrggbbaa]. *)
Definition getrgb (s : string) : result (list Z) :=
  match s with
  | String "#" (String r1 (String r2 (String g1 (String g2
      (String b1 (String b2 rest)))))) =>
      match hex_pair r1 r2, hex_pair g1 g2, hex_pair b1 b2, rest with
      | Some r, Some g, Some b, EmptyString => Ok [r; g; b]
      | Some r, Some g, Some b, String a1 (String a2 EmptyString) =>
          match hex_pair a1 a2 with
          | Some a => Ok [r; g; b; a]
          | None => Raise ValueError
          end
      | _, _, _, _ => Raise ValueError
      end
  | _ => Raise ValueError
  end.

(** Alpha compositing in 8-bit arithmetic. *)
Definition muldiv255 (a b : Z) : Z :=
  let t := a * b + 128 in Z.shiftr (Z.shiftr t 8 + t) 8.

Definition blend (d s : pixel) : pixel :=
  let '(dr, dg, db, da) := d in
  let '(sr, sg, sb, sa) := s in
  let mix x y := muldiv255 x (255 - sa) + muldiv255 y sa in
  (mix dr sr, mix dg sg, mix db sb, mix da sa).

Definition png_encode (im : image) : bytes :=
  byte_of (width im) :: byte_of (height im) ::
  (data im ≫= λ '(r, g, b, a), [byte_of r; byte_of g; byte_of b; byte_of a]).

Definition zip_encode (zf : ThemePacker.archive) : bytes :=
  zf ≫= λ '(name, content),
    String.list_byte_of_string name ++ [Byte.x00] ++ content ++ [Byte.x00].

Definition zip_partial (zf : ThemePacker.archive) : bytes := [].

Definition some_bytes : bytes := [Byte.x3c; Byte.x73; Byte.x76; Byte.x67].

(** The working directory: the assets and the two templates. *)
Definition tree (home : string) : node :=
  Dir [("home",
    Dir [(home,
      Dir [("svgs", Dir [("maps.svg", File some_bytes);
                         ("broken.svg", File [])]);
           ("icons_template",
              Dir [("res", Dir [("drawable-xxhdpi",
                                   Dir [("stale", Dir [])])]);
                   ("transform_config.xml", File some_bytes)]);
           ("magisk_template_HyperOS2",
              Dir [("module.prop", File some_bytes);
                   ("icons", File []);
                   ("system", Dir [("media", Dir [("theme",
                      Dir [("default", Dir [("icons", Dir [
                        ("readme", File some_bytes)])])])])])])])])].

Definition current_dir (home : string) : path := ["home"; home].
Definition svg_dir (home : string) : path := current_dir home ++ ["svgs"].
Definition output_dir (home : string) : path :=
  current_dir home ++ ["output"].
Definition icons_template_dir (home : string) : path :=
  current_dir home ++ ["icons_template"].
Definition magisk_template_dir (home : string) : path :=
  current_dir home ++ ["magisk_template_HyperOS2"].
Definition target_magisk (home : string) : path :=
  current_dir home ++
    ["magisk_module_Lawnicon_HyperMonetTheme_20250101_120000.zip"].

Definition world0 (home : string) : world := World (tree home) [].

(** The scale 0.5, and a canvas of 4 by 4. *)
Definition half : PyFloat.float := S754_finite false 4503599627370496 (-53).

Definition glyph : image := Image RGBA 2 2 (replicate 4 (0, 0, 0, 60)).
Definition canvas : image :=
  Image RGBA 4 4 (replicate 16 (0, 0, 0, 0)).

Definition generate (home : string) : result () * world :=
  IconProcessor.generate_icons svg2png getrgb blend png_encode
    icon_mapper (svg_dir home) (output_dir home)
    "#d1e2fc" "#1c232b" 4 half (world0 home).

(** Rendering, then [pack_icons_zip], then [pack_magisk_module]. *)
Definition packed_icons (home : string) : result () * world :=
  (do! IconProcessor.generate_icons svg2png getrgb blend png_encode
         icon_mapper (svg_dir home) (output_dir home)
         "#d1e2fc" "#1c232b" 4 half in
   ThemePacker.pack_icons_zip zip_encode zip_partial
     (output_dir home) (icons_template_dir home)
     (magisk_template_dir home))
    (world0 home).

Definition pack (home : string) : result () * world :=
  ThemePacker.pack_magisk_module zip_encode zip_partial
    (magisk_template_dir home) (target_magisk home)
    (packed_icons home).2.

(** [pack_magisk_module] on the sample tree as it is before any run. *)
Definition pack_template (home : string) : result () * world :=
  ThemePacker.pack_magisk_module zip_encode zip_partial
    (magisk_template_dir home) (target_magisk home) (world0 home).




(** Template B of the sample tree, as it is before any run. *)
Definition template_b : node :=
  Dir [("module.prop", File some_bytes);
       ("icons", File []);
       ("system", Dir [("media", Dir [("theme",
          Dir [("default", Dir [("icons", Dir [
            ("readme", File some_bytes)])])])])])].

End Sample.
(** ** Cleaner *)

Module Os.

(** [os.path.isfile(p)] *)
Definition isfile (p : FS.path) (n : FS.node) : bool :=
  match FS.lookup p n with
  | Some (FS.File _) => true
  | _ => false
  end.

(** [os.remove(p)] *)
Definition remove (p : FS.path) (n : FS.node) : result FS.node :=
  match FS.lookup p n, FS.split_last p with
  | Some (FS.File _), Some (parent, name) =>
      FS.alter_dir parent (FS.remove name) n
  | Some (FS.Dir _), _ => Raise IsADirectoryError
  | _, _ => Raise FileNotFoundError
  end.

End Os.

Module Cleaner.

(** What [cleanup] prints for a path it removed. *)
Inductive message :=
| MsgRemovedFile (file : FS.path)
| MsgRemovedDir (file : FS.path).

(** The file system and what has been printed so far. *)
Record state := State {
  fs : FS.node;
  printed : list message
}.

Definition clean_up (current_dir : FS.path) : list FS.path :=
  [current_dir ++ ["output"];
   current_dir ++ ["icons_template"; "res"; "drawable-xxhdpi"];
   current_dir ++ ["icons_template"; "icons.zip"];
   current_dir ++ ["icons_template"; "icons"];
   current_dir ++ ["mtz_template_HyperOS2"; "icons"];
   current_dir ++ ["magisk_template_HyperOS2"; "icons"];
   current_dir ++ ["icon_mapper.xml"]].

(** The body of the loop over [clean_up]; an exception of a removal
    primitive would end the script (as [shutil.rmtree] does on a listed
    path that is a symbolic link to a directory, which the tree of the
    model cannot hold). *)
Definition remove_listed (st : state) (file : FS.path) : result state :=
  if FS.exists_ file (fs st) then
    if Os.isfile file (fs st) then
      try n := Os.remove file (fs st) in
      Ok (State n (printed st ++ [MsgRemovedFile file]))
    else
      try n := FS.rmtree file (fs st) in
      Ok (State n (printed st ++ [MsgRemovedDir file]))
  else Ok st.

(** [for file in l: ...] *)
Fixpoint remove_all (l : list FS.path) (st : state) : result state :=
  match l with
  | [] => Ok st
  | file :: l' =>
      try st' := remove_listed st file in
      remove_all l' st'
  end.

Definition cleanup (current_dir : FS.path) (n : FS.node) : result state :=
  remove_all (clean_up current_dir) (State n []).

(** What [cleanup] is to print for a listed path, by what the path is
    before the run. *)
Definition report (n : FS.node) (file : FS.path) : option message :=
  match FS.lookup file n with
  | Some (FS.File _) => Some (MsgRemovedFile file)
  | Some (FS.Dir _) => Some (MsgRemovedDir file)
  | None => None
  end.

End Cleaner.
(** ** Reading the mapping file back, stated directly *)

Module MapperSpec.

(** The entry an item of the mapping file contributes to the dictionary of
    [parse_icon_mapper], if any. *)
Definition entry_of (item : ET.element) : option (string * string) :=
  match ET.get item "package", ET.get item "drawable" with
  | Some package, Some drawable =>
      if Str.nonempty package && Str.nonempty drawable
      then Some (package, drawable)
      else None
  | _, _ => None
  end.

(** The package and the drawable of a row of the normalized table. *)
Definition entry_of_row (row : string * (string * string))
  : string * string :=
  (row.1, row.2.2).

End MapperSpec.
(** ** The lines of the normalized mapping file, stated directly *)

Module MappingLines.
Import MappingProcessor.

(** The XML declaration, without its newline. *)
Definition declaration_line : string :=
  "<?xml version=" +:+ Str.dq +:+ "1.0" +:+ Str.dq +:+
  " encoding=" +:+ Str.dq +:+ "utf-8" +:+ Str.dq +:+ "?>".

(** The text of one item row. *)
Definition row_text (row : string * (string * string)) : string :=
  ET.serialize_leaf (new_item row).

(** What splitting the file at its newlines gives; the empty string at
    the end stands for the newline that ends the file. *)
Definition lines (rows : list (string * (string * string)))
  : list string :=
  match rows with
  | [] => [declaration_line; "<resources />"; EmptyString]
  | row :: rest =>
      [declaration_line; "<resources>"; row_text row] ++
      ((λ r, "    " +:+ row_text r) <$> rest) ++
      ["</resources>"; EmptyString]
  end.

End MappingLines.
(** ** The progress report, stated directly *)

Module ProgressSpec.
Import Run.

(** The count and the total a progress line shows. *)
Definition progress_of (e : event) : option (nat * nat) :=
  match e with
  | MsgProgress processed total _ _ => Some (processed, total)
  | _ => None
  end.

(** The progress lines of a log, in the order they were printed. *)
Definition progress_lines (l : list event) : list (nat * nat) :=
  omap progress_of l.

End ProgressSpec.
(** ** More of the sample installation *)

Module MoreSamples.
Import Img FS Run Sample.

(** The sample tree after [Cleaner.cleanup]. *)
Definition cleaned (home : string) : Cleaner.state :=
  match Cleaner.cleanup (current_dir home) (tree home) with
  | Ok st => st
  | Raise _ => Cleaner.State (tree home) []
  end.

(** Two items for different packages, in both orders. *)
Definition maps_item : ET.element :=
  ET.Element "item" [("component", "ComponentInfo{com.a/com.a.Main}");
                     ("drawable", "maps"); ("name", "Maps")].

Definition clock_item : ET.element :=
  ET.Element "item" [("component", "ComponentInfo{com.c/com.c.Main}");
                     ("drawable", "clock"); ("name", "Clock")].

Definition two_apps : list ET.element := [clock_item; maps_item].
Definition two_apps_swapped : list ET.element := [maps_item; clock_item].

(** The source table without the first of the two items for [com.b]. *)
Definition appfilter_without_old_mail : list ET.element :=
  match appfilter with
  | first :: _ :: rest => first :: rest
  | l => l
  end.

(** The worlds of the sample run: rendered, packed into template A and
    copied into template B, packed into the module archive. *)
Definition rendered : world := (Sample.generate "theme").2.
Definition packed : world := (packed_icons "theme").2.
Definition finished : world := (pack "theme").2.

(** The background of [com.a] as it lies in the output directory. *)
Definition background_bytes : bytes :=
  PackerSpec.content_at (fs rendered)
    (output_dir "theme" ++ ["com.a"; "0.png"]).

(** The sample tree with a foreground of [com.b] left over from an
    earlier run. *)
Definition stale_tree : node :=
  match tree "theme" with
  | Dir [(h, Dir [(t, Dir es)])] =>
      Dir [(h, Dir [(t, Dir (es ++
        [("output", Dir [("com.b", Dir [("1.png", File some_bytes)])])]))])]
  | n => n
  end.

Definition rendered_over_stale : world :=
  (IconProcessor.generate_icons svg2png getrgb blend png_encode
     icon_mapper (svg_dir "theme") (output_dir "theme")
     "#d1e2fc" "#1c232b" 4 half (World stale_tree [])).2.

End MoreSamples.
(** ** Vocabulary for what a run leaves in place *)

Module Survival.
Import Run.

(** Every path that exists in [w] exists in [w']. *)
Definition survives (w w' : world) : Prop :=
  ∀ q, FS.exists_ q (fs w) = true → FS.exists_ q (fs w') = true.

(** No run of [m] removes a path, whether it returns or raises. *)
Definition never_deletes {A} (m : M A) : Prop :=
  ∀ w r w', m w = (r, w') → survives w w'.

End Survival.
(** ** Skipped items, stated directly *)

Module SkipSpec.
Import ComponentSyntax.

(** The item's component is empty, its drawable is empty, or its
    component does not read [ComponentInfo{<package>/...}...]. *)
Definition skipped (item : ET.element) : Prop :=
  ET.get_or_empty item "component" = EmptyString
  ∨ ET.get_or_empty item "drawable" = EmptyString
  ∨ ¬ parseable (ET.get_or_empty item "component").

End SkipSpec.

(** * Proofs *)

(** ** Facts about strings *)

Module StrFacts.
Import Str.

#[local] Arguments String.append : simpl nomatch.

Lemma eqb_ascii_true a b : eqb_ascii a b = true ↔ a = b.
Proof. unfold eqb_ascii. apply bool_decide_eq_true. Qed.

Lemma eqb_ascii_false a b : eqb_ascii a b = false ↔ a ≠ b.
Proof. unfold eqb_ascii. apply bool_decide_eq_false. Qed.

Lemma eqb_ascii_refl a : eqb_ascii a a = true.
Proof. by apply eqb_ascii_true. Qed.

Lemma eqb_ascii_sym a b : eqb_ascii a b = eqb_ascii b a.
Proof. unfold eqb_ascii. apply bool_decide_ext. naive_solver. Qed.

Lemma app_cons a s t : String a s +:+ t = String a (s +:+ t).
Proof. reflexivity. Qed.

Lemma app_empty_l s : EmptyString +:+ s = s.
Proof. reflexivity. Qed.

Lemma app_empty_r s : s +:+ EmptyString = s.
Proof. induction s as [|a s IH]; simpl; [done|by rewrite IH]. Qed.

Lemma app_assoc s t u : (s +:+ t) +:+ u = s +:+ (t +:+ u).
Proof. induction s as [|a s IH]; simpl; [done|by rewrite IH]. Qed.

Lemma app_length s t :
  String.length (s +:+ t) = (String.length s + String.length t)%nat.
Proof. induction s as [|a s IH]; simpl; [done|by rewrite IH]. Qed.

Lemma mem_app c s t : mem c (s +:+ t) = mem c s || mem c t.
Proof.
  induction s as [|a s IH]; simpl; [done|].
  by rewrite IH, orb_assoc.
Qed.

Lemma strip_prefix_app p s : strip_prefix p (p +:+ s) = Some s.
Proof.
  induction p as [|a p IH]; simpl; [done|].
  by rewrite eqb_ascii_refl.
Qed.

Lemma strip_prefix_Some p s r : strip_prefix p s = Some r ↔ s = p +:+ r.
Proof.
  split; [|intros ->; apply strip_prefix_app].
  revert s; induction p as [|a p IH]; intros [|b s]; simpl; try congruence.
  destruct (eqb_ascii a b) eqn:E; [|done].
  apply eqb_ascii_true in E as ->. intros H. by rewrite (IH _ H).
Qed.

Lemma startswith_app s p : startswith (p +:+ s) p = true.
Proof. unfold startswith. by rewrite strip_prefix_app. Qed.

Lemma break_spec c s u v :
  break c s = (u, v) →
  s = u +:+ v ∧ mem c u = false ∧
  (v = EmptyString ∨ ∃ v', v = String c v').
Proof.
  revert u v; induction s as [|a s IH]; intros u v; simpl.
  - intros [= <- <-]; auto.
  - destruct (eqb_ascii a c) eqn:E.
    + apply eqb_ascii_true in E as ->. intros [= <- <-]; eauto.
    + destruct (break c s) as [u' v'] eqn:B. intros [= <- <-].
      destruct (IH _ _ eq_refl) as (-> & Hm & Hv). simpl.
      split; [done|]. split; [|done].
      apply eqb_ascii_false in E.
      rewrite Hm, orb_false_r. apply eqb_ascii_false. congruence.
Qed.

Lemma break_app c u v :
  mem c u = false → break c (u +:+ String c v) = (u, String c v).
Proof.
  induction u as [|a u IH]; simpl.
  - by rewrite eqb_ascii_refl.
  - intros [Ha Hu]%orb_false_elim.
    apply eqb_ascii_false in Ha.
    destruct (eqb_ascii a c) eqn:E.
    + apply eqb_ascii_true in E. congruence.
    + by rewrite (IH Hu).
Qed.

Lemma substring_prefix u v :
  String.substring 0 (String.length u) (u +:+ v) = u.
Proof. induction u as [|a u IH]; simpl; [by destruct v|by rewrite IH]. Qed.

Lemma substring_skip p n s :
  String.substring (String.length p) n (p +:+ s) = String.substring 0 n s.
Proof. induction p as [|a p IH]; simpl; [done|by rewrite IH]. Qed.

Lemma nonempty_true s : nonempty s = true ↔ s ≠ EmptyString.
Proof. by destruct s. Qed.

Lemma nonempty_false s : nonempty s = false ↔ s = EmptyString.
Proof. by destruct s. Qed.

End StrFacts.

(** ** The matcher on the component pattern *)

Module ReFacts.
Import Str StrFacts Re.

#[local] Arguments String.append : simpl nomatch.

Lemma run_lits pre ps s i o g :
  run (lits pre ++ ps) s i o g =
  match strip_prefix pre s with
  | Some s' => run ps s' (i + String.length pre) o g
  | None => None
  end.
Proof.
  revert s i; induction pre as [|a pre IH]; intros s i; simpl.
  - by rewrite Nat.add_0_r.
  - destruct s as [|b s]; [done|].
    destruct (eqb_ascii a b); [|done].
    rewrite IH. by rewrite Nat.add_succ_r.
Qed.

(** A greedy run of [[^c]] followed by something that must start with [c]
    ends exactly at the first [c]. *)
Lemma greedy_break {R} c (k : string → nat → option R) s i :
  (∀ a s' j, a ≠ c → k (String a s') j = None) →
  greedy_star (atom_ok (NotLit c)) k s i =
  k (break c s).2 (i + String.length (break c s).1)%nat.
Proof.
  intros Hk. revert i; induction s as [|a s IH]; intros i; simpl.
  - by rewrite Nat.add_0_r.
  - unfold atom_ok. rewrite (eqb_ascii_sym c a).
    destruct (eqb_ascii a c) eqn:E; simpl.
    + by rewrite Nat.add_0_r.
    + apply eqb_ascii_false in E.
      destruct (break c s) as [u v] eqn:B; simpl in *.
      rewrite IH, Nat.add_succ_r. simpl.
      destruct (k v _); [done|]. by apply Hk.
Qed.

Lemma lazy_close {R} (r : R) s i :
  lazy_star (atom_ok Dot)
    (λ s _, match s with
            | String a _ => if atom_ok (Lit "}") a then Some r else None
            | EmptyString => None
            end) s i =
  if ComponentSyntax.has_close s then Some r else None.
Proof.
  revert i; induction s as [|a s IH]; intros i; simpl; [done|].
  unfold atom_ok.
  rewrite (eqb_ascii_sym "}" a), (eqb_ascii_sym "010" a).
  destruct (eqb_ascii a "}"); [done|].
  destruct (eqb_ascii a "010"); simpl; [done|]. apply IH.
Qed.

End ReFacts.

Module MappingFacts.
Import Str StrFacts Re ReFacts MappingProcessor ComponentSyntax.

#[local] Arguments String.append : simpl nomatch.

(** The matcher and the grammar agree on every subject. *)
Lemma parse_component_info_package_of component :
  parse_component_info component =
  default EmptyString (package_of component).
Proof.
  unfold parse_component_info, match_group1, component_pattern, package_of.
  rewrite run_lits.
  destruct (strip_prefix _ component) as [s|] eqn:Hp; [|done].
  apply strip_prefix_Some in Hp as ->.
  destruct s as [|a s]; [done|].
  cbn [run]. unfold atom_ok at 1. simpl break.
  rewrite (eqb_ascii_sym "/" a).
  destruct (eqb_ascii a "/") eqn:E; simpl negb; cbv iota; [done|].
  rewrite greedy_break.
  2:{ intros b s' j Hb. simpl.
      rewrite (proj2 (eqb_ascii_false "/" b)); [done|congruence]. }
  destruct (break "/" s) as [u v] eqn:B. simpl fst; simpl snd.
  destruct (break_spec _ _ _ _ B) as (-> & Hu & Hv).
  destruct Hv as [->|[t ->]]; [done|].
  cbn [run]. simpl atom_ok at 1. rewrite eqb_ascii_refl.
  rewrite (lazy_close (Some (0 + 14, S (0 + 14) + String.length u)%nat)).
  destruct (has_close t); [|done].
  simpl default.
  change (String.length "ComponentInfo{") with 14%nat.
  replace (S (0 + 14) + String.length u - (0 + 14))%nat
    with (String.length (String a u)) by (simpl; lia).
  change (0 + 14)%nat with (String.length "ComponentInfo{").
  rewrite substring_skip.
  rewrite <- app_cons. by rewrite substring_prefix.
Qed.

Lemma has_close_iff t :
  has_close t = true ↔
  ∃ mid rest, t = mid +:+ "}" +:+ rest ∧ mem "010" mid = false.
Proof.
  split.
  - induction t as [|a t IH]; simpl; [done|].
    destruct (eqb_ascii a "}") eqn:E.
    + apply eqb_ascii_true in E as ->. intros _.
      by exists EmptyString, t.
    + destruct (eqb_ascii a "010") eqn:E'; [done|].
      intros (mid & rest & -> & Hm)%IH.
      exists (String a mid), rest. split; [done|]. simpl.
      by rewrite eqb_ascii_sym, E', Hm.
  - intros (mid & rest & -> & Hm).
    induction mid as [|a mid IH]; simpl.
    + done.
    + simpl in Hm. apply orb_false_elim in Hm as [Ha Hm].
      rewrite eqb_ascii_sym in Ha. rewrite Ha.
      destruct (eqb_ascii a "}"); [done|]. by apply IH.
Qed.

Lemma package_of_Some component package :
  package_of component = Some package ↔ parses_as component package.
Proof.
  unfold package_of, parses_as. split.
  - destruct (strip_prefix _ component) as [s|] eqn:Hp; [|done].
    apply strip_prefix_Some in Hp as ->.
    destruct (break "/" s) as [u v] eqn:B.
    destruct (break_spec _ _ _ _ B) as (-> & Hu & Hv).
    destruct u as [|a u]; [done|].
    destruct Hv as [->|[t ->]]; [done|].
    destruct (has_close t) eqn:Hc; [|done].
    intros [= <-]. apply has_close_iff in Hc as (mid & rest & -> & Hm).
    by exists mid, rest.
  - intros (mid & rest & -> & Hne & Hp & Hm).
    rewrite strip_prefix_app.
    change ("/" +:+ mid +:+ "}" +:+ rest)
      with (String "/" (mid +:+ "}" +:+ rest)).
    rewrite (break_app _ _ _ Hp).
    destruct package as [|a u]; [done|].
    by rewrite (proj2 (has_close_iff _)) by eauto.
Qed.

Lemma package_of_None component :
  package_of component = None ↔ ¬ parseable component.
Proof.
  unfold parseable. split.
  - intros H [p Hp%package_of_Some]. congruence.
  - intros H. destruct (package_of component) as [p|] eqn:E; [|done].
    destruct H. exists p. by apply package_of_Some.
Qed.

Lemma package_of_nonempty component package :
  package_of component = Some package → package ≠ EmptyString.
Proof. intros (?&?&?&?&?)%package_of_Some. done. Qed.

(** [parse_component_info] returns the empty string exactly on the
    components that do not parse. *)
Lemma parse_component_info_empty component :
  parse_component_info component = EmptyString ↔ ¬ parseable component.
Proof.
  rewrite parse_component_info_package_of, <- package_of_None.
  destruct (package_of component) as [p|] eqn:E; simpl; [|done].
  apply package_of_nonempty in E. naive_solver.
Qed.

Lemma extracted_spec item :
  extracted item =
  let component := ET.get_or_empty item "component" in
  let drawable := ET.get_or_empty item "drawable" in
  if nonempty component && nonempty drawable then
    (λ p, (p, (ET.get_or_empty item "name", drawable)))
      <$> package_of component
  else None.
Proof.
  unfold extracted. cbv zeta.
  destruct (_ && _); [|done].
  rewrite parse_component_info_package_of.
  destruct (package_of _) as [p|] eqn:E; simpl; [|done].
  apply package_of_nonempty in E. by destruct p.
Qed.

Lemma dedup_step_extracted d item :
  dedup_step d item =
  match extracted item with
  | Some (package, v) => PyDict.set package v d
  | None => d
  end.
Proof.
  unfold dedup_step, extracted. cbv zeta.
  destruct (_ && _); [|done]. by destruct (nonempty _).
Qed.

End MappingFacts.

(** ** Facts about dictionaries *)

Module PyDictFacts.
Section facts.
Context {V : Type}.
Implicit Types (d : PyDict.t V) (k : string) (v : V).

Lemma get_set_eq k v d : PyDict.get k (PyDict.set k v d) = Some v.
Proof.
  induction d as [|[k' v'] d IH]; simpl.
  - by rewrite decide_True.
  - destruct (decide (k = k')) as [->|Hne]; simpl.
    + by rewrite decide_True.
    + by rewrite decide_False.
Qed.

Lemma get_set_ne k k' v d :
  k ≠ k' → PyDict.get k' (PyDict.set k v d) = PyDict.get k' d.
Proof.
  intros Hne. induction d as [|[k0 v0] d IH]; simpl.
  - by rewrite decide_False.
  - destruct (decide (k = k0)) as [->|Hne0]; simpl.
    + by rewrite !decide_False.
    + by rewrite IH.
Qed.

Lemma keys_set k v d k' :
  k' ∈ PyDict.keys (PyDict.set k v d) ↔ k' = k ∨ k' ∈ PyDict.keys d.
Proof.
  unfold PyDict.keys. induction d as [|[k0 v0] d IH]; simpl.
  - set_solver.
  - destruct (decide (k = k0)) as [->|Hne]; simpl; set_solver.
Qed.

Lemma keys_set_NoDup k v d :
  NoDup (PyDict.keys d) → NoDup (PyDict.keys (PyDict.set k v d)).
Proof.
  unfold PyDict.keys. induction d as [|[k0 v0] d IH]; simpl.
  - intros _. apply NoDup_singleton.
  - intros [Hk0 Hd]%NoDup_cons.
    destruct (decide (k = k0)) as [->|Hne]; simpl.
    + by apply NoDup_cons.
    + apply NoDup_cons. split; [|by apply IH].
      intros [?|?]%(keys_set k v d k0); done.
Qed.

Lemma get_None k d : PyDict.get k d = None ↔ k ∉ PyDict.keys d.
Proof.
  unfold PyDict.keys. induction d as [|[k0 v0] d IH]; simpl.
  - set_solver.
  - destruct (decide (k = k0)) as [->|Hne]; set_solver.
Qed.

Lemma get_Some k v d :
  NoDup (PyDict.keys d) →
  PyDict.get k d = Some v ↔ (k, v) ∈ PyDict.items d.
Proof.
  unfold PyDict.keys, PyDict.items.
  induction d as [|[k0 v0] d IH]; simpl.
  - set_solver.
  - intros [Hk0 Hd]%NoDup_cons.
    destruct (decide (k = k0)) as [->|Hne].
    + split; [intros [= ->]; set_solver|].
      intros [[= ->]|Hin]%elem_of_cons; [done|].
      destruct Hk0. by apply (list_elem_of_fmap_2 fst) in Hin.
    + rewrite (IH Hd). set_solver.
Qed.
End facts.
End PyDictFacts.

(** ** The normalized table: one row per package, sorted, last item wins *)

Module TableFacts.
Import Str StrFacts MappingProcessor MappingFacts ComponentSyntax.

Lemma str_lt_asym a b : str_lt a b → ¬ str_lt b a.
Proof.
  unfold str_lt. intros H H'.
  rewrite String.compare_antisym, H' in H. done.
Qed.

Lemma str_lt_irrefl a : ¬ str_lt a a.
Proof. intros H. by apply (str_lt_asym a a). Qed.

Lemma str_lt_trichotomy a b : str_lt a b ∨ a = b ∨ str_lt b a.
Proof.
  unfold str_lt. destruct (String.compare a b) eqn:E; auto.
  - right; left. by apply String.compare_eq_iff.
  - right; right. rewrite String.compare_antisym, E. done.
Qed.

Lemma str_lt_le a b : str_lt a b ↔ String.le a b ∧ a ≠ b.
Proof.
  unfold str_lt, String.le, String.leb. split.
  - intros H. rewrite H. split; [done|]. intros ->.
    by apply (str_lt_irrefl b).
  - intros [Hle Hne]. destruct (String.compare a b) eqn:E; [|done..].
    destruct Hne. by apply String.compare_eq_iff.
Qed.

Global Instance str_lt_trans : Transitive str_lt.
Proof.
  intros a b c [Hab Hne]%str_lt_le [Hbc Hne']%str_lt_le.
  apply str_lt_le. split; [by etrans|].
  intros ->. destruct Hne. by apply (anti_symm String.le).
Qed.

Lemma pair_lt_asym x y : pair_lt x y → ¬ pair_lt y x.
Proof.
  unfold pair_lt. intros H H'.
  destruct (decide (x.1 = y.1)) as [E|E].
  - rewrite decide_True in H' by done. by apply (str_lt_asym x.2 y.2).
  - rewrite decide_False in H' by done. by apply (str_lt_asym x.1 y.1).
Qed.

Lemma entry_lt_asym x y : entry_lt x y → ¬ entry_lt y x.
Proof.
  unfold entry_lt. intros H H'.
  destruct (decide (x.1 = y.1)) as [E|E].
  - rewrite decide_True in H' by done. by apply (pair_lt_asym x.2 y.2).
  - rewrite decide_False in H' by done. by apply (str_lt_asym x.1 y.1).
Qed.

Global Instance entry_le_total : Total entry_le.
Proof.
  intros x y. unfold entry_le.
  destruct (decide (entry_lt y x)) as [H|H]; [right|by left].
  by apply entry_lt_asym.
Qed.

(** With distinct packages, rows in [sorted] order have their packages
    in strictly increasing order. *)
Lemma sorted_packages_increasing (l : list (string * (string * string))) :
  NoDup l.*1 → Sorted entry_le l → StronglySorted str_lt l.*1.
Proof.
  intros Hnd Hs. apply Sorted_StronglySorted; [apply _|].
  induction Hs as [|x l Hs IH Hhd]; simpl; [constructor|].
  apply NoDup_cons in Hnd as [Hx Hnd].
  constructor; [by apply IH|].
  destruct Hhd as [|y l Hxy]; simpl; constructor.
  unfold entry_le, entry_lt in Hxy.
  assert (y.1 ≠ x.1) as Hne by (intros E; apply Hx; rewrite <- E; set_solver).
  rewrite decide_False in Hxy by done.
  destruct (str_lt_trichotomy x.1 y.1) as [?|[?|?]]; done.
Qed.

Lemma unique_packages_fold_NoDup d items :
  NoDup (PyDict.keys d) → NoDup (PyDict.keys (foldl dedup_step d items)).
Proof.
  revert d; induction items as [|it items IH]; intros d Hd; simpl; [done|].
  apply IH. rewrite dedup_step_extracted.
  destruct (extracted it) as [[p v]|]; [|done].
  by apply PyDictFacts.keys_set_NoDup.
Qed.

Lemma unique_packages_fold_keys d items p :
  p ∈ PyDict.keys (foldl dedup_step d items) ↔
  p ∈ PyDict.keys d ∨ ∃ it v, it ∈ items ∧ extracted it = Some (p, v).
Proof.
  revert d; induction items as [|it items IH]; intros d; simpl.
  - set_solver.
  - rewrite IH, dedup_step_extracted.
    destruct (extracted it) as [[q v]|] eqn:E.
    + rewrite PyDictFacts.keys_set. split.
      * intros [[->|?]|(it' & v' & ? & ?)]; [right|by left|right].
        -- exists it, v. split; [set_solver|done].
        -- exists it', v'. split; [set_solver|done].
      * intros [?|(it' & v' & [->|?]%elem_of_cons & E')]; [by auto|..].
        -- left; left. congruence.
        -- right. eauto.
    + split.
      * intros [?|(it' & v' & ? & ?)]; [by left|right].
        exists it', v'. split; [set_solver|done].
      * intros [?|(it' & v' & [->|?]%elem_of_cons & E')]; [by auto|..].
        -- congruence.
        -- right. eauto.
Qed.

Lemma unique_packages_fold_untouched d items p :
  (∀ it v, it ∈ items → extracted it ≠ Some (p, v)) →
  PyDict.get p (foldl dedup_step d items) = PyDict.get p d.
Proof.
  revert d; induction items as [|it items IH]; intros d H; simpl; [done|].
  rewrite IH by (intros; apply H; set_solver).
  rewrite dedup_step_extracted.
  destruct (extracted it) as [[q v]|] eqn:E; [|done].
  apply PyDictFacts.get_set_ne. intros ->.
  apply (H it v); [set_solver|done].
Qed.


Lemma unique_packages_NoDup root : NoDup (PyDict.keys (unique_packages root)).
Proof. apply unique_packages_fold_NoDup. constructor. Qed.

Lemma sorted_perm l : sorted l ≡ₚ l.
Proof. apply merge_sort_Permutation. Qed.

End TableFacts.

(** ** Skipped items *)

Module FormatFacts.
Import Str StrFacts MappingProcessor MappingFacts ComponentSyntax
       MappingLayout SkipSpec TableFacts.

#[local] Arguments String.append : simpl nomatch.

(** The loop passes over an item exactly when it is skipped. *)
Lemma extracted_None item : extracted item = None ↔ skipped item.
Proof.
  rewrite extracted_spec. cbv zeta. unfold skipped.
  destruct (nonempty (ET.get_or_empty item "component")) eqn:Hc; simpl.
  - destruct (nonempty (ET.get_or_empty item "drawable")) eqn:Hd; simpl.
    + apply nonempty_true in Hc, Hd.
      rewrite fmap_None, package_of_None. naive_solver.
    + apply nonempty_false in Hd. naive_solver.
  - apply nonempty_false in Hc. naive_solver.
Qed.

(** Any other item assigns its name and drawable to the package its
    component reads. *)
Lemma extracted_Some item p v :
  extracted item = Some (p, v) ↔
  ¬ skipped item
  ∧ parses_as (ET.get_or_empty item "component") p
  ∧ v = (ET.get_or_empty item "name", ET.get_or_empty item "drawable").
Proof.
  split.
  - intros E. split; [rewrite <- extracted_None; congruence|].
    rewrite extracted_spec in E. cbv zeta in E.
    destruct (_ && _); [|done].
    destruct (package_of _) as [q|] eqn:Hq; [|done].
    simpl in E. injection E as <- <-.
    by apply package_of_Some in Hq.
  - intros (Hn & Hp%package_of_Some & ->).
    destruct (extracted item) as [[q u]|] eqn:E;
      [|by apply extracted_None in E].
    rewrite extracted_spec in E. cbv zeta in E.
    destruct (_ && _); [|done]. rewrite Hp in E. simpl in E.
    by injection E as <- <-.
Qed.

Lemma not_skipped_parses item :
  ¬ skipped item →
  ∃ p, parses_as (ET.get_or_empty item "component") p.
Proof.
  intros Hn. destruct (extracted item) as [[p v]|] eqn:E.
  - exists p. by apply extracted_Some in E as (_ & ? & _).
  - by apply extracted_None in E.
Qed.

Lemma findall_app t (l k : list ET.element) :
  ET.findall t (l ++ k) = ET.findall t l ++ ET.findall t k.
Proof. unfold ET.findall. apply filter_app. Qed.

(** A skipped item can be taken out of the table. *)
Lemma unique_packages_skip pre item post :
  skipped item →
  unique_packages (pre ++ item :: post) = unique_packages (pre ++ post).
Proof.
  intros Hs%extracted_None. unfold unique_packages.
  rewrite !findall_app, !foldl_app.
  unfold ET.findall at 2. rewrite filter_cons.
  destruct (decide _); [|done]. cbn [foldl].
  by rewrite dedup_step_extracted, Hs.
Qed.

(** C9. A source item produces no row in the normalized table exactly
    when its component is empty, its drawable is empty, or its component
    does not read [ComponentInfo{<package>/...}...]: alone, such an item
    and no other gives the empty table; within any table it can be taken
    out without changing the rows or the file written; every other item
    has a row, for the package standing between [ComponentInfo{] and the
    first [/]; and every row is that of such an item. *)
Theorem item_skipped_iff :
  (∀ item, ET.tag item = "item" →
     (normalized_rows [item] = [] ↔ skipped item))
  ∧ (∀ pre item post, skipped item →
       normalized_rows (pre ++ item :: post) = normalized_rows (pre ++ post)
       ∧ convert_icon_mapper (pre ++ item :: post)
         = convert_icon_mapper (pre ++ post))
  ∧ (∀ root item, item ∈ ET.findall "item" root → ¬ skipped item →
       ∃ package,
         parses_as (ET.get_or_empty item "component") package
         ∧ package ∈ (normalized_rows root).*1)
  ∧ (∀ root package, package ∈ (normalized_rows root).*1 →
       ∃ item, item ∈ ET.findall "item" root ∧ ¬ skipped item
         ∧ parses_as (ET.get_or_empty item "component") package).
Proof.
  assert (∀ root p, p ∈ (normalized_rows root).*1 ↔
            ∃ item v, item ∈ ET.findall "item" root
                      ∧ extracted item = Some (p, v)) as Hkeys.
  { intros root p. unfold normalized_rows. rewrite (sorted_perm _).
    pose proof (unique_packages_fold_keys PyDict.empty
                  (ET.findall "item" root) p) as Hk.
    unfold PyDict.keys, PyDict.empty in Hk.
    unfold PyDict.items, unique_packages, PyDict.empty.
    rewrite Hk. set_solver. }
  split; [|split; [|split]].
  - intros item Htag. rewrite <- extracted_None.
    unfold normalized_rows, unique_packages, ET.findall.
    rewrite filter_cons, decide_True by done. rewrite filter_nil.
    cbn [foldl]. rewrite dedup_step_extracted.
    split.
    + intros Hnil. destruct (extracted item) as [[p v]|]; [|done].
      pose proof (sorted_perm (PyDict.items (PyDict.set p v PyDict.empty)))
        as Hp.
      rewrite Hnil in Hp. by apply Permutation_nil_cons in Hp.
    + by intros ->.
  - intros pre item post Hs. unfold convert_icon_mapper, normalized_rows.
    by rewrite (unique_packages_skip _ _ _ Hs).
  - intros root item Hin Hn.
    destruct (not_skipped_parses item Hn) as [p Hp].
    exists p. split; [done|]. apply Hkeys.
    exists item, (ET.get_or_empty item "name",
                  ET.get_or_empty item "drawable").
    split; [done|]. by apply extracted_Some.
  - intros root p (item & v & Hin & E)%Hkeys.
    apply extracted_Some in E as (Hn & Hp & _). by exists item.
Qed.

End FormatFacts.

Module LayoutFacts.
Import Str StrFacts MappingProcessor MappingLayout.

#[local] Arguments String.append : simpl nomatch.

Lemma split_no_sep c u : mem c u = false → split c u = [u].
Proof.
  induction u as [|a u IH]; simpl; [done|].
  intros [Ha Hu]%orb_false_elim. rewrite eqb_ascii_sym, Ha.
  by rewrite (IH Hu).
Qed.

Lemma split_app_sep c u v :
  mem c u = false → split c (u +:+ String c v) = u :: split c v.
Proof.
  induction u as [|a u IH]; simpl.
  - by rewrite eqb_ascii_refl.
  - intros [Ha Hu]%orb_false_elim. rewrite eqb_ascii_sym, Ha.
    by rewrite (IH Hu).
Qed.

Lemma mem_rev_app c s t : mem c (String.rev_app s t) = mem c s || mem c t.
Proof.
  revert t; induction s as [|a s IH]; intros t; simpl; [done|].
  rewrite IH. simpl. by destruct (eqb_ascii c a), (mem c s), (mem c t).
Qed.

Lemma startswith_mem s p c : startswith s p = true → mem c p = true →
  mem c s = true.
Proof.
  unfold startswith. destruct (strip_prefix p s) as [r|] eqn:E; [|done].
  apply strip_prefix_Some in E as ->. intros _ H.
  by rewrite mem_app, H.
Qed.

Lemma endswith_mem s p c : mem c s = false → mem c p = true →
  endswith s p = false.
Proof.
  intros Hs Hp. destruct (endswith s p) eqn:E; [|done].
  unfold endswith in E.
  apply (startswith_mem _ _ c) in E.
  - unfold String.rev in E. rewrite mem_rev_app in E. simpl in E.
    rewrite orb_false_r in E. congruence.
  - unfold String.rev. rewrite mem_rev_app. simpl. by rewrite orb_false_r.
Qed.

Lemma escape_attrib_no_gt s : mem ">" (ET.escape_attrib s) = false.
Proof.
  induction s as [|a s IH]; simpl; [done|].
  rewrite mem_app, IH, orb_false_r. unfold ET.escape_char.
  repeat (match goal with
          | |- context [if eqb_ascii a ?c then _ else _] =>
              destruct (eqb_ascii a c) eqn:?; [done|]
          end).
  simpl. rewrite orb_false_r. by rewrite eqb_ascii_sym.
Qed.

Lemma serialize_item row :
  ET.serialize_leaf (new_item row) = item_body row +:+ ">".
Proof.
  destruct row as [p [n d]]. unfold ET.serialize_leaf, item_body. simpl.
  unfold ET.serialize_attrib. simpl.
  repeat (rewrite !app_assoc; simpl). done.
Qed.

Lemma item_body_no_gt row : mem ">" (item_body row) = false.
Proof.
  destruct row as [p [n d]]. unfold item_body. simpl.
  unfold ET.serialize_attrib. simpl.
  repeat (rewrite !mem_app; simpl).
  by rewrite !escape_attrib_no_gt.
Qed.

Lemma item_body_head row : ∃ t, item_body row = "<item" +:+ t.
Proof. by eexists. Qed.

(** How one round of the printer treats an item row. *)
Lemma format_step_item f indent row :
  format_step (f, indent) (item_body row) =
  (f +:+ item_line indent row, "    ").
Proof.
  unfold format_step, item_line.
  rewrite (endswith_mem _ "/>" ">" (item_body_no_gt row) eq_refl).
  rewrite serialize_item.
  destruct (item_body_head row) as [t ->]. simpl.
  by rewrite !app_assoc.
Qed.

Lemma foldl_cons {A B} (f : A → B → A) a x l :
  foldl f a (x :: l) = foldl f (f a x) l.
Proof. reflexivity. Qed.

Lemma format_items f rows :
  foldl format_step (f, "    ") (item_body <$> rows) =
  (f +:+ Str.concat (item_line "    " <$> rows), "    ").
Proof.
  revert f; induction rows as [|r rows IH]; intros f.
  - simpl. by rewrite app_empty_r.
  - rewrite !fmap_cons, foldl_cons, format_step_item, IH.
    simpl. by rewrite app_assoc.
Qed.

Lemma split_items rows tail :
  split ">" (Str.concat (ET.serialize_leaf <$> (new_item <$> rows)) +:+ tail)
  = (item_body <$> rows) ++ split ">" tail.
Proof.
  induction rows as [|r rows IH]; [done|].
  rewrite !fmap_cons. cbn [Str.concat].
  rewrite serialize_item, !app_assoc.
  change (">" +:+ ?x) with (String ">" x).
  rewrite split_app_sep by apply item_body_no_gt.
  by rewrite IH.
Qed.

(** C6 (as amended). The file begins with the XML declaration line and
    the opening [<resources>] line; every item row stands on a line of its
    own, the first one with no indentation and each later one behind
    exactly four spaces; the closing [</resources>] line ends the file.
    An empty table is written as the single line [<resources />]. *)
Theorem mapping_file_layout (root : list ET.element) :
  convert_icon_mapper root = layout (normalized_rows root).
Proof.
  unfold convert_icon_mapper.
  generalize (normalized_rows root). intros rows.
  unfold write_rows, layout, format.
  destruct rows as [|r rows]; [done|].
  unfold ET.tostring.
  change (new_item <$> r :: rows) with (new_item r :: (new_item <$> rows)).
  cbv iota beta.
  change ("<" +:+ "resources" +:+ ">" +:+ ?x)
    with ("<resources" +:+ String ">" x).
  rewrite split_app_sep by done.
  change (ET.serialize_leaf <$> new_item r :: (new_item <$> rows))
    with (ET.serialize_leaf <$> (new_item <$> (r :: rows))).
  rewrite split_items.
  change (split ">" ("</" +:+ "resources" +:+ ">"))
    with ["</resources"; EmptyString].
  rewrite fmap_cons, foldl_cons.
  change (format_step (EmptyString, EmptyString) "<resources")
    with ("<resources>" +:+ nl, EmptyString).
  rewrite <- app_comm_cons, foldl_cons, format_step_item.
  rewrite foldl_app, format_items.
  simpl. by rewrite !app_assoc.
Qed.

(** The printer's output for given rows. *)
Lemma write_rows_layout rows : write_rows rows = layout rows.
Proof.
  unfold write_rows, layout, format.
  destruct rows as [|r rows]; [done|].
  unfold ET.tostring.
  change (new_item <$> r :: rows) with (new_item r :: (new_item <$> rows)).
  cbv iota beta.
  change ("<" +:+ "resources" +:+ ">" +:+ ?x)
    with ("<resources" +:+ String ">" x).
  rewrite split_app_sep by done.
  change (ET.serialize_leaf <$> new_item r :: (new_item <$> rows))
    with (ET.serialize_leaf <$> (new_item <$> (r :: rows))).
  rewrite split_items.
  change (split ">" ("</" +:+ "resources" +:+ ">"))
    with ["</resources"; EmptyString].
  rewrite fmap_cons, foldl_cons.
  change (format_step (EmptyString, EmptyString) "<resources")
    with ("<resources>" +:+ nl, EmptyString).
  rewrite <- app_comm_cons, foldl_cons, format_step_item.
  rewrite foldl_app, format_items.
  simpl. by rewrite !app_assoc.
Qed.

End LayoutFacts.
(** ** The normalized mapping file: one row per package, sorted, last
    item wins *)

Module TableFileFacts.
Import Str StrFacts MappingProcessor MappingFacts ComponentSyntax
       MappingLayout TableFacts.


End TableFileFacts.

(** ** Images: canvas, paste and recolouring *)

Module ImgFacts.
Import Img.

Lemma new_Ok w h c im :
  new w h c = Ok im →
  0 ≤ w ∧ 0 ≤ h ∧ width im = w ∧ height im = h
  ∧ data im = replicate (Z.to_nat (w * h)) c.
Proof.
  unfold new, check_size, fill.
  destruct ((w <? 0) || (h <? 0)) eqn:H1; [done|]. cbn [result_bind].
  destruct ((c_int_max <? w) || (c_int_max <? h)); [done|].
  destruct (c_int_max `div` 4 - 1 <? w); [done|].
  intros [= <-]. cbn [width height data].
  apply orb_false_iff in H1 as [Hw Hh]. apply Z.ltb_ge in Hw, Hh. done.
Qed.

(** A canvas is made with an alpha channel, and its sides fit a C
    [int]. *)
Lemma new_Ok_bounds w h c im :
  new w h c = Ok im →
  mode im = RGBA ∧ w ≤ c_int_max `div` 4 - 1 ∧ h ≤ c_int_max.
Proof.
  unfold new, check_size, fill.
  destruct ((w <? 0) || (h <? 0)); [done|]. cbn [result_bind].
  destruct ((c_int_max <? w) || (c_int_max <? h)) eqn:H2; [done|].
  destruct (c_int_max `div` 4 - 1 <? w) eqn:H3; [done|].
  intros [= <-]. cbn [mode].
  apply orb_false_iff in H2 as [Hw Hh]. apply Z.ltb_ge in Hw, Hh, H3. done.
Qed.

Lemma in_range_index w h x y :
  0 ≤ x < w → 0 ≤ y < h →
  (Z.to_nat (y * w + x) < Z.to_nat (w * h))%nat
  ∧ Z.of_nat (Z.to_nat (y * w + x)) `mod` w = x
  ∧ Z.of_nat (Z.to_nat (y * w + x)) `div` w = y.
Proof.
  intros Hx Hy. rewrite Z2Nat.id by nia. split; [|split].
  - apply Z2Nat.inj_lt; nia.
  - rewrite Z.add_comm, Z.mod_add by lia. apply Z.mod_small; lia.
  - rewrite Z.add_comm, Z.div_add by lia. rewrite Z.div_small; lia.
Qed.

Lemma getpixel_Some_range im x y p :
  getpixel im x y = Some p → 0 ≤ x < width im ∧ 0 ≤ y < height im.
Proof.
  unfold getpixel.
  destruct (0 <=? x) eqn:H1; [|done].
  destruct (x <? width im) eqn:H2; [|done].
  destruct (0 <=? y) eqn:H3; [|done].
  destruct (y <? height im) eqn:H4; [|done]. intros _.
  apply Z.leb_le in H1, H3. apply Z.ltb_lt in H2, H4. lia.
Qed.

Lemma getpixel_in_range im x y :
  0 ≤ x < width im → 0 ≤ y < height im →
  getpixel im x y = data im !! Z.to_nat (y * width im + x).
Proof.
  intros Hx Hy. unfold getpixel.
  rewrite (proj2 (Z.leb_le 0 x)), (proj2 (Z.ltb_lt x _)) by lia.
  by rewrite (proj2 (Z.leb_le 0 y)), (proj2 (Z.ltb_lt y _)) by lia.
Qed.

Lemma getpixel_out_of_range im x y :
  ¬ (0 ≤ x < width im ∧ 0 ≤ y < height im) → getpixel im x y = None.
Proof.
  intros H. destruct (getpixel im x y) eqn:E; [|done].
  by apply getpixel_Some_range in E.
Qed.

(** Every pixel of a fresh canvas has the colour it was created with. *)
Lemma getpixel_new w h c im x y :
  new w h c = Ok im → 0 ≤ x < w → 0 ≤ y < h → getpixel im x y = Some c.
Proof.
  intros (Hw & Hh & Ew & Eh & Ed)%new_Ok Hx Hy.
  rewrite getpixel_in_range by lia. rewrite Ed, Ew.
  apply lookup_replicate_2. by apply in_range_index.
Qed.

(** [paste] keeps the mode and the size of the canvas. *)
Lemma paste_size blend dst src px py im :
  paste blend dst src px py = Ok im →
  mode im = mode dst ∧ width im = width dst ∧ height im = height dst
  ∧ length (data im) = length (data dst).
Proof.
  unfold paste. destruct (overlaps _ _ _ _).
  - destruct (mode src); [|done]. intros [= <-]. simpl.
    by rewrite length_imap.
  - by intros [= <-].
Qed.

(** A glyph with an alpha channel can be pasted. *)
Lemma paste_RGBA blend dst src px py :
  mode src = RGBA → ∃ im, paste blend dst src px py = Ok im.
Proof.
  intros Hm. unfold paste. rewrite Hm.
  destruct (overlaps _ _ _ _); by eexists.
Qed.

(** A glyph without alpha channel that meets the canvas is refused. *)
Lemma paste_RGB blend dst src px py :
  mode src = RGB → overlaps dst src px py = true →
  paste blend dst src px py = Raise ValueError.
Proof. intros Hm Ho. unfold paste. by rewrite Ho, Hm. Qed.

(** [paste] pixel by pixel. *)
Lemma getpixel_paste blend dst src px py im x y d :
  paste blend dst src px py = Ok im →
  0 ≤ x < width dst → 0 ≤ y < height dst →
  data dst !! Z.to_nat (y * width dst + x) = Some d →
  getpixel im x y =
  Some match getpixel src (x - px) (y - py) with
       | Some s => blend d s
       | None => d
       end.
Proof.
  intros Hp Hx Hy Hd. unfold paste in Hp.
  destruct (overlaps dst src px py) eqn:Ho.
  - destruct (mode src); [|done]. injection Hp as <-.
    rewrite getpixel_in_range by done. simpl.
    rewrite list_lookup_imap, Hd. simpl.
    destruct (in_range_index (width dst) (height dst) x y Hx Hy)
      as (_ & -> & ->). done.
  - injection Hp as <-. rewrite getpixel_in_range, Hd by done.
    rewrite getpixel_out_of_range; [done|]. intros [Hsx Hsy].
    unfold overlaps in Ho. apply andb_false_iff in Ho.
    destruct Ho as [Ho|Ho]; apply Z.ltb_ge in Ho; lia.
Qed.

End ImgFacts.

(** ** process_svg: geometry and recolouring *)

Module ProcessFacts.
Import Img ImgFacts Run IconProcessor Recolour.

Lemma tint_alpha r g b px : alpha (tint r g b px) = alpha px.
Proof. unfold tint. by destruct (alpha px =? 0). Qed.

Lemma inks_recolor r g b (l : list pixel) :
  inks (recolor_item [r; g; b] <$> l) = Ok (tint r g b <$> l).
Proof.
  induction l as [|px l IH]; [done|].
  rewrite !fmap_cons. cbn [inks]. rewrite IH.
  unfold recolor_item, tint.
  destruct px as [[[pr pg] pb] pa]. unfold alpha. simpl.
  by destruct (pa =? 0).
Qed.


Lemma inks_length (ts : list (list Z)) (ps : list pixel) :
  inks ts = Ok ps → length ps = length ts.
Proof.
  revert ps. induction ts as [|t ts IH]; intros ps.
  - by intros [= <-].
  - cbn [inks]. destruct (ink_of_tuple t) as [q|e]; [|done].
    cbn [result_bind]. destruct (inks ts) as [qs|e]; [|done].
    cbn [result_bind]. intros [= <-]. simpl. f_equal. by apply IH.
Qed.

(** When the recolouring loop goes through, for a colour of three or
    four components, every pixel keeps its alpha, and a fully transparent
    pixel is kept as it is. *)
Lemma inks_recolor_Ok rgb (l ps : list pixel) :
  length rgb = 3%nat ∨ length rgb = 4%nat →
  inks (recolor_item rgb <$> l) = Ok ps →
  Forall2 (λ px q, alpha q = alpha px ∧ (alpha px = 0 → q = px)) l ps.
Proof.
  intros Hlen. revert ps. induction l as [|px l IH]; intros ps.
  - intros [= <-]. constructor.
  - rewrite fmap_cons. cbn [inks].
    destruct (ink_of_tuple (recolor_item rgb px)) as [q|e] eqn:Hq; [|done].
    cbn [result_bind].
    destruct (inks (recolor_item rgb <$> l)) as [qs|e] eqn:Hqs; [|done].
    cbn [result_bind]. intros [= <-]. constructor; [|by apply IH].
    unfold recolor_item in Hq.
    destruct (Z.eqb_spec (alpha px) 0) as [Hz|Hz]; cbn [negb] in Hq.
    + destruct px as [[[pr pg] pb] pa]. injection Hq as <-. done.
    + destruct rgb as [|r [|g [|b [|a [|]]]]]; simpl in Hlen;
        try (exfalso; lia); [|done].
      injection Hq as <-. done.
Qed.

Section externals.
Variable svg2png : FS.bytes → Z → Z → option image.
Variable getrgb : string → result (list Z).
Variable blend : pixel → pixel → pixel.

Notation recolor := (recolor getrgb).
Notation process_svg := (process_svg svg2png getrgb blend).

Lemma recolor_black fg im :
  Str.upper fg = "#000000" → recolor fg im = Ok im.
Proof. intros H. unfold IconProcessor.recolor. by rewrite decide_False by naive_solver. Qed.

Lemma recolor_rgb fg im r g b :
  Str.upper fg ≠ "#000000" → getrgb fg = Ok [r; g; b] →
  recolor fg im =
  Ok (Image (mode im) (width im) (height im) (tint r g b <$> data im)).
Proof.
  intros H Hrgb. unfold IconProcessor.recolor.
  rewrite decide_True by done. rewrite Hrgb. simpl.
  unfold putdata, getdata. by rewrite inks_recolor.
Qed.


(** Whatever the foreground, recolouring keeps the size, every alpha
    and every fully transparent pixel. *)
Lemma recolor_keeps fg im r g b :
  getrgb fg = Ok [r; g; b] →
  ∃ im', recolor fg im = Ok im'
    ∧ width im' = width im ∧ height im' = height im
    ∧ ∀ x y, ∃ f : pixel → pixel,
        getpixel im' x y = f <$> getpixel im x y
        ∧ ∀ px, alpha (f px) = alpha px ∧ (alpha px = 0 → f px = px).
Proof.
  intros Hrgb.
  destruct (decide (Str.upper fg = "#000000")) as [Hb|Hb].
  - exists im. rewrite recolor_black by done.
    split; [done|]. split; [done|]. split; [done|].
    intros x y. exists id. split; [by rewrite option_fmap_id|done].
  - eexists. rewrite (recolor_rgb _ _ r g b) by done.
    split; [done|]. split; [done|]. split; [done|].
    intros x y. exists (tint r g b). split.
    + unfold getpixel. simpl.
      destruct (_ && _); [|done]. by rewrite list_lookup_fmap.
    + intros px. split; [apply tint_alpha|].
      unfold tint. intros ->. done.
Qed.

(** Recolouring keeps the size and the number of pixels, whatever the
    colour. *)
Lemma recolor_shape fg im im' :
  recolor fg im = Ok im' →
  width im' = width im ∧ height im' = height im
  ∧ length (data im') = length (data im).
Proof.
  unfold IconProcessor.recolor. destruct (decide _); [|by intros [= <-]].
  destruct (getrgb fg) as [rgb|e]; [|done]. cbn [result_bind].
  unfold putdata, getdata. destruct (inks _) as [ps|e] eqn:Hps; [|done].
  cbn [result_bind]. intros [= <-]. cbn [width height data].
  apply inks_length in Hps. by rewrite Hps, length_fmap.
Qed.

(** The same of any recolouring that goes through, for a colour that
    [getrgb] reads as three or four components. *)
Lemma recolor_Ok_keeps fg im im' :
  (∀ t, getrgb fg = Ok t → length t = 3%nat ∨ length t = 4%nat) →
  recolor fg im = Ok im' →
  width im' = width im ∧ height im' = height im
  ∧ ∀ x y px, getpixel im x y = Some px →
      ∃ q, getpixel im' x y = Some q
           ∧ alpha q = alpha px ∧ (alpha px = 0 → q = px).
Proof.
  intros Hlen. unfold IconProcessor.recolor.
  destruct (decide _) as [Hb|Hb].
  - destruct (getrgb fg) as [rgb|e] eqn:Hrgb; [|done]. cbn [result_bind].
    unfold putdata, getdata.
    destruct (inks _) as [ps|e] eqn:Hps; [|done]. cbn [result_bind].
    intros [= <-]. cbn [width height]. split; [done|]. split; [done|].
    intros x y px. unfold getpixel. cbn [width height data].
    destruct (_ && _); [|done]. intros Hpx.
    apply (inks_recolor_Ok rgb) in Hps; [|by apply Hlen].
    destruct (Forall2_lookup_l _ _ _ _ _ Hps Hpx) as (q & Hq & Hqa).
    exists q. by split.
  - intros [= <-]. split; [done|]. split; [done|].
    intros x y px Hpx. exists px. by split.
Qed.

(** [process_svg], once the glyph side is known: one rasterizer call,
    then either the error message or the canvas, the paste and the
    recolouring. *)
Lemma process_svg_run w svg_path fg icon_size icon_scale side :
  PyFloat.int_of_product icon_size icon_scale = Ok side →
  process_svg svg_path fg icon_size icon_scale w =
  let w1 := World (fs w) (log w ++ [DidRasterize svg_path]) in
  match match FS.read_file svg_path (fs w) with
        | Ok b => svg2png b side side
        | Raise _ => None
        end
  with
  | None => (Ok None, World (fs w) (log w1 ++ [MsgSvgError svg_path]))
  | Some glyph =>
      let p := (icon_size - side) `div` 2 in
      (try canvas := new icon_size icon_size (0, 0, 0, 0) in
       try pasted := paste blend canvas glyph p p in
       try im := recolor fg pasted in
       Ok (Some im), w1)
  end.
Proof.
  intros Hside. unfold IconProcessor.process_svg, bind, lift, rasterize.
  rewrite Hside. cbv zeta.
  destruct (match FS.read_file svg_path (fs w) with
            | Ok b => svg2png b side side | Raise _ => None end)
    as [glyph|]; [|done].
  destruct (new icon_size icon_size (0, 0, 0, 0)) as [canvas|e]; [|done].
  cbn [result_bind].
  destruct (paste _ _ _ _ _) as [pasted|e]; [|done].
  cbn [result_bind]. by destruct (IconProcessor.recolor _ _ _).
Qed.

(** What a returned image looks like, in terms of the glyph the
    rasterizer gave. *)
Lemma process_svg_image w svg_path fg icon_size icon_scale side img w' :
  PyFloat.int_of_product icon_size icon_scale = Ok side →
  (∀ t, getrgb fg = Ok t → length t = 3%nat ∨ length t = 4%nat) →
  process_svg svg_path fg icon_size icon_scale w = (Ok (Some img), w') →
  let p := (icon_size - side) `div` 2 in
  ∃ b glyph,
    FS.read_file svg_path (fs w) = Ok b
    ∧ svg2png b side side = Some glyph
    ∧ w' = World (fs w) (log w ++ [DidRasterize svg_path])
    ∧ width img = icon_size ∧ height img = icon_size
    ∧ ∀ x y, 0 ≤ x < icon_size → 0 ≤ y < icon_size →
        ∃ q, getpixel img x y = Some q
             ∧ alpha q = alpha match getpixel glyph (x - p) (y - p) with
                               | Some s => blend (0, 0, 0, 0) s
                               | None => (0, 0, 0, 0)
                               end
             ∧ (getpixel glyph (x - p) (y - p) = None → q = (0, 0, 0, 0)).
Proof.
  intros Hside Hlen Hrun p.
  rewrite (process_svg_run _ _ _ _ _ side Hside) in Hrun. cbv zeta in Hrun.
  fold p in Hrun.
  destruct (FS.read_file svg_path (fs w)) as [b|e] eqn:Hread; [|done].
  destruct (svg2png b side side) as [glyph|] eqn:Hsvg; [|done].
  destruct (new icon_size icon_size (0, 0, 0, 0)) as [canvas|e] eqn:Hnew;
    [|done].
  cbn [result_bind] in Hrun.
  destruct (paste blend canvas glyph p p) as [pasted|e] eqn:Hpaste; [|done].
  cbn [result_bind] in Hrun.
  destruct (recolor fg pasted) as [im|e] eqn:Hrec; [|done].
  cbn [result_bind] in Hrun. injection Hrun as <- <-.
  exists b, glyph. split; [done|]. split; [done|]. split; [done|].
  destruct (recolor_Ok_keeps _ _ _ Hlen Hrec) as (Hw & Hh & Hpx).
  destruct (paste_size _ _ _ _ _ _ Hpaste) as (_ & Hpw & Hph & _).
  pose proof Hnew as (_ & _ & Ew & Eh & Ed)%new_Ok.
  split; [congruence|]. split; [congruence|].
  intros x y Hx Hy.
  assert (getpixel pasted x y =
          Some match getpixel glyph (x - p) (y - p) with
               | Some s => blend (0, 0, 0, 0) s
               | None => (0, 0, 0, 0)
               end) as Hpasted.
  { apply (getpixel_paste _ _ _ _ _ _ _ _ _ Hpaste); [lia..|].
    rewrite Ed, Ew. apply lookup_replicate_2. by apply in_range_index. }
  destruct (Hpx _ _ _ Hpasted) as (q & Hq & Ha & Hz).
  exists q. split; [done|]. split; [done|].
  intros Hnone. rewrite Hnone in Hz. by apply Hz.
Qed.

(** A rendering without alpha channel that meets the canvas stops
    [process_svg] at the paste. *)
Lemma process_svg_opaque w svg_path fg icon_size icon_scale side b glyph
    canvas :
  PyFloat.int_of_product icon_size icon_scale = Ok side →
  FS.read_file svg_path (fs w) = Ok b →
  svg2png b side side = Some glyph →
  new icon_size icon_size (0, 0, 0, 0) = Ok canvas →
  mode glyph = RGB →
  let p := (icon_size - side) `div` 2 in
  overlaps canvas glyph p p = true →
  process_svg svg_path fg icon_size icon_scale w =
    (Raise ValueError, World (fs w) (log w ++ [DidRasterize svg_path])).
Proof.
  intros Hside Hread Hsvg Hnew Hmode p Ho.
  rewrite (process_svg_run _ _ _ _ _ side Hside), Hread, Hsvg.
  cbv zeta. fold p. rewrite Hnew. cbn [result_bind].
  by rewrite paste_RGB.
Qed.

(** C8. The rasterizer is asked for a square whose side is the integer
    truncation of [icon_size * icon_scale], and the glyph is pasted at
    offset [(icon_size - side) // 2] on both axes: whenever [process_svg]
    returns an image, that image has the canvas size, it is transparent
    outside the square at that offset, and inside it the pixel at
    [(p+i, p+j)] carries the alpha the paste gives glyph pixel [(i, j)].
    It does return an image when the rendering has an alpha channel, the
    canvas can be made and the foreground is an RGB colour.  For size 432
    and scale 0.4 the side is 172 and the margin 130 on each side. *)
Theorem glyph_side_and_offset :
  (∀ w svg_path fg icon_size (icon_scale : PyFloat.float) side img w',
     PyFloat.int_of_product icon_size icon_scale = Ok side →
     (∀ b gl, svg2png b side side = Some gl →
              width gl = side ∧ height gl = side) →
     (∀ t, getrgb fg = Ok t → length t = 3%nat ∨ length t = 4%nat) →
     process_svg svg_path fg icon_size icon_scale w = (Ok (Some img), w') →
     let p := (icon_size - side) `div` 2 in
     ∃ b glyph,
       FS.read_file svg_path (fs w) = Ok b
       ∧ svg2png b side side = Some glyph
       ∧ w' = World (fs w) (log w ++ [DidRasterize svg_path])
       ∧ width img = icon_size ∧ height img = icon_size
       ∧ (∀ x y, 0 ≤ x < icon_size → 0 ≤ y < icon_size →
            ¬ (p ≤ x < p + side ∧ p ≤ y < p + side) →
            getpixel img x y = Some (0, 0, 0, 0))
       ∧ (∀ i j s, 0 ≤ p + i < icon_size → 0 ≤ p + j < icon_size →
            getpixel glyph i j = Some s →
            ∃ q, getpixel img (p + i) (p + j) = Some q
                 ∧ alpha q = alpha (blend (0, 0, 0, 0) s)))
  ∧ (∀ w svg_path fg icon_size (icon_scale : PyFloat.float) side b glyph
       canvas r g bl,
     PyFloat.int_of_product icon_size icon_scale = Ok side →
     FS.read_file svg_path (fs w) = Ok b →
     svg2png b side side = Some glyph →
     mode glyph = RGBA →
     new icon_size icon_size (0, 0, 0, 0) = Ok canvas →
     getrgb fg = Ok [r; g; bl] →
     ∃ img,
       process_svg svg_path fg icon_size icon_scale w =
         (Ok (Some img), World (fs w) (log w ++ [DidRasterize svg_path])))
  ∧ PyFloat.int_of_product 432 PyFloat.lit_0_4 = Ok 172
  ∧ (432 - 172) `div` 2 = 130
  ∧ 432 - (130 + 172) = 130.
Proof.
  split; [|split; [|by vm_compute]].
  - intros w svg_path fg icon_size icon_scale side img w'
      Hside Hsquare Hlen Hrun p.
    destruct (process_svg_image _ _ _ _ _ _ _ _ Hside Hlen Hrun)
      as (b & glyph & Hread & Hsvg & Hw' & Hw & Hh & Hpx).
    fold p in Hpx. destruct (Hsquare _ _ Hsvg) as [Hgw Hgh].
    exists b, glyph. do 5 (split; [done|]). split.
    + intros x y Hx Hy Hout.
      destruct (Hpx x y Hx Hy) as (q & -> & _ & Hq). f_equal. apply Hq.
      apply getpixel_out_of_range. lia.
    + intros i j s Hi Hj Hs.
      destruct (Hpx (p + i) (p + j) Hi Hj) as (q & Hq & Ha & _).
      replace (p + i - p) with i in Ha by lia.
      replace (p + j - p) with j in Ha by lia.
      rewrite Hs in Ha. by exists q.
  - intros w svg_path fg icon_size icon_scale side b glyph canvas r g bl
      Hside Hread Hsvg Hmode Hnew Hrgb.
    rewrite (process_svg_run _ _ _ _ _ side Hside), Hread, Hsvg.
    cbv zeta. rewrite Hnew. cbn [result_bind].
    destruct (paste_RGBA blend canvas glyph
                ((icon_size - side) `div` 2) ((icon_size - side) `div` 2)
                Hmode) as [pasted ->].
    cbn [result_bind].
    destruct (recolor_keeps fg pasted r g bl Hrgb) as (img & -> & _).
    by exists img.
Qed.


End externals.

End ProcessFacts.

(** ** Facts about the file system *)

Module FSFacts.
Import FS.

Lemma find_put_eq c v es : find c (put c v es) = Some v.
Proof.
  induction es as [|[k w] es IH]; simpl.
  - by rewrite decide_True.
  - destruct (decide (c = k)) as [->|Hne]; simpl.
    + by rewrite decide_True.
    + by rewrite decide_False.
Qed.

Lemma find_put_ne c c' v es : c ≠ c' → find c' (put c v es) = find c' es.
Proof.
  intros Hne. induction es as [|[k w] es IH]; simpl.
  - by rewrite decide_False.
  - destruct (decide (c = k)) as [->|Hk]; simpl.
    + by rewrite !decide_False.
    + by rewrite IH.
Qed.

Lemma put_find_id c v es : find c es = Some v → put c v es = es.
Proof.
  induction es as [|[k w] es IH]; simpl; [done|].
  destruct (decide (c = k)) as [->|Hk]; [by intros [= ->]|].
  intros H. by rewrite IH.
Qed.

Lemma find_elem_of c v es : find c es = Some v → (c, v) ∈ es.
Proof.
  induction es as [|[k w] es IH]; simpl; [done|].
  destruct (decide (c = k)) as [->|Hk].
  - intros [= ->]. left.
  - intros H. right. by apply IH.
Qed.

Lemma split_last_snoc d c : split_last (d ++ [c]) = Some (d, c).
Proof. unfold split_last. by rewrite reverse_snoc, reverse_involutive. Qed.

Lemma lookup_app p q n :
  lookup (p ++ q) n =
  match lookup p n with Some m => lookup q m | None => None end.
Proof.
  revert n; induction p as [|c p IH]; intros n; simpl; [done|].
  destruct n as [b|es]; [done|]. destruct (find c es); [apply IH|done].
Qed.

Lemma lookup_nil_Dir q : q ≠ [] → lookup q (Dir []) = None.
Proof. by destruct q. Qed.

(** Rewriting the entries of the directory at [d] is seen at [d] ... *)
Lemma alter_dir_at d f n n' :
  alter_dir d f n = Ok n' →
  ∃ es, lookup d n = Some (Dir es) ∧ lookup d n' = Some (Dir (f es)).
Proof.
  revert n n'; induction d as [|c d IH]; intros [b|es] n'; simpl; try done.
  - intros [= <-]. eauto.
  - destruct (find c es) as [child|] eqn:Hc; [|done].
    destruct (alter_dir d f child) as [child'|e] eqn:Hd; [|done].
    simpl. intros [= <-]. simpl. rewrite find_put_eq. by apply IH.
Qed.

(** ... and, when it only sets the entry [c], nowhere but at the
    ancestors of [d] and at or below [d ++ [c]]. *)
Lemma alter_dir_put_frame d c v n n' q :
  alter_dir d (put c v) n = Ok n' →
  ¬ q `prefix_of` d → ¬ (d ++ [c]) `prefix_of` q →
  lookup q n' = lookup q n.
Proof.
  revert n n' q; induction d as [|c0 d IH]; intros [b|es] n' q; simpl;
    try done.
  - intros [= <-] Hq Hc. destruct q as [|c1 q]; [destruct Hq; apply prefix_nil|].
    simpl. rewrite find_put_ne; [done|].
    intros ->. apply Hc. by apply prefix_cons, prefix_nil.
  - destruct (find c0 es) as [child|] eqn:Hc0; [|done].
    destruct (alter_dir d _ child) as [child'|e] eqn:Hd; [|done].
    simpl. intros [= <-] Hq Hc.
    destruct q as [|c1 q]; [destruct Hq; apply prefix_nil|]. simpl.
    destruct (decide (c0 = c1)) as [->|Hne].
    + rewrite find_put_eq, Hc0. eapply IH; [done|..].
      * intros H. apply Hq. by apply prefix_cons.
      * intros H. apply Hc. by apply prefix_cons.
    + by rewrite find_put_ne.
Qed.

Lemma alter_dir_put_same d c v n n' :
  alter_dir d (put c v) n = Ok n' → lookup (d ++ [c]) n' = Some v.
Proof.
  intros (es & _ & H)%alter_dir_at. rewrite lookup_app, H. simpl.
  by rewrite find_put_eq.
Qed.

(** Siblings of the entry that is set keep what they had. *)
Lemma alter_dir_put_sibling d c c' v n n' q :
  alter_dir d (put c v) n = Ok n' → c ≠ c' →
  lookup (d ++ c' :: q) n' = lookup (d ++ c' :: q) n.
Proof.
  intros (es & H & H')%alter_dir_at Hne.
  rewrite !lookup_app, H, H'. simpl. by rewrite find_put_ne.
Qed.

(** [makedirs_in] leaves alone whatever is not on the way to [p]. *)
Lemma makedirs_in_frame p n n' q :
  makedirs_in p n = Ok n' → ¬ q `prefix_of` p → lookup q n' = lookup q n.
Proof.
  revert n n' q; induction p as [|c0 p IH]; intros [b|es] n' q; simpl;
    try done.
  - by intros [= <-].
  - destruct (makedirs_in p _) as [child'|e] eqn:Hd; [|done].
    simpl. intros [= <-] Hq.
    destruct q as [|c1 q]; [destruct Hq; apply prefix_nil|]. simpl.
    destruct (decide (c0 = c1)) as [->|Hne].
    + rewrite find_put_eq.
      assert (¬ q `prefix_of` p) as Hq' by (intros H; apply Hq; by apply prefix_cons).
      rewrite (IH _ _ _ Hd Hq').
      destruct (find c1 es); simpl; [done|].
      apply lookup_nil_Dir. intros ->. apply Hq', prefix_nil.
    + by rewrite find_put_ne.
Qed.

Lemma makedirs_in_is_dir p n n' :
  makedirs_in p n = Ok n' → ∃ es, lookup p n' = Some (Dir es).
Proof.
  revert n n'; induction p as [|c0 p IH]; intros [b|es] n'; simpl; try done.
  - intros [= <-]. eauto.
  - destruct (makedirs_in p _) as [child'|e] eqn:Hd; [|done].
    simpl. intros [= <-]. simpl. rewrite find_put_eq. by eapply IH.
Qed.

Lemma write_file_snoc d c b n :
  write_file (d ++ [c]) b n =
  match lookup (d ++ [c]) n with
  | Some (Dir _) => Raise IsADirectoryError
  | _ => alter_dir d (put c (File b)) n
  end.
Proof. unfold write_file. by rewrite split_last_snoc. Qed.

Lemma write_file_same d c b n n' :
  write_file (d ++ [c]) b n = Ok n' →
  lookup (d ++ [c]) n' = Some (File b).
Proof.
  rewrite write_file_snoc. intros H.
  apply (alter_dir_put_same d c (File b) n).
  by destruct (lookup (d ++ [c]) n) as [[]|].
Qed.

Lemma write_file_frame d c b n n' q :
  write_file (d ++ [c]) b n = Ok n' →
  ¬ q `prefix_of` d → ¬ (d ++ [c]) `prefix_of` q →
  lookup q n' = lookup q n.
Proof.
  rewrite write_file_snoc. intros H.
  apply (alter_dir_put_frame d c (File b)).
  by destruct (lookup (d ++ [c]) n) as [[]|].
Qed.

Lemma write_file_sibling d c c' b n n' q :
  write_file (d ++ [c]) b n = Ok n' → c ≠ c' →
  lookup (d ++ c' :: q) n' = lookup (d ++ c' :: q) n.
Proof.
  rewrite write_file_snoc. intros H.
  apply (alter_dir_put_sibling d c c' (File b)).
  by destruct (lookup (d ++ [c]) n) as [[]|].
Qed.

(** Writing into a directory adds or replaces one entry of it. *)
Lemma write_file_dir d c b n n' es :
  write_file (d ++ [c]) b n = Ok n' → lookup d n = Some (Dir es) →
  lookup d n' = Some (Dir (put c (File b) es)).
Proof.
  rewrite write_file_snoc. intros H Hd.
  assert (alter_dir d (put c (File b)) n = Ok n') as Ha
    by (by destruct (lookup (d ++ [c]) n) as [[]|]).
  apply alter_dir_at in Ha as (es' & H1 & H2). congruence.
Qed.

Lemma mkdir_exist_ok_snoc d c n n' :
  mkdir_exist_ok (d ++ [c]) n = Ok n' →
  (∃ es, lookup (d ++ [c]) n = Some (Dir es) ∧ n' = n)
  ∨ (lookup (d ++ [c]) n = None
     ∧ alter_dir d (put c (Dir [])) n = Ok n').
Proof.
  unfold mkdir_exist_ok. rewrite split_last_snoc.
  destruct (lookup (d ++ [c]) n) as [[b|es]|]; [done| |].
  - intros [= <-]. left. eauto.
  - intros H. by right.
Qed.

Lemma mkdir_exist_ok_frame d c n n' q :
  mkdir_exist_ok (d ++ [c]) n = Ok n' →
  ¬ q `prefix_of` d → ¬ (d ++ [c]) `prefix_of` q →
  lookup q n' = lookup q n.
Proof.
  intros [(es & _ & ->)|[_ H]]%mkdir_exist_ok_snoc; [done|].
  by apply (alter_dir_put_frame d c (Dir [])).
Qed.

End FSFacts.

(** ** generate_icons: what each package leaves in the output tree *)

Module GenerateFacts.
Import FS FSFacts Img ImgFacts Run RunSpec IconProcessor ProcessFacts.

Lemma frame_refl dir w : frame dir w w.
Proof.
  split; [done|]. exists []. by rewrite app_nil_r.
Qed.

Lemma frame_trans dir w1 w2 w3 :
  frame dir w1 w2 → frame dir w2 w3 → frame dir w1 w3.
Proof.
  intros [H1 (l1 & E1 & F1)] [H2 (l2 & E2 & F2)]. split.
  - intros q Hq Hq'. by rewrite H2, H1.
  - exists (l1 ++ l2). rewrite E2, E1, app_assoc.
    split; [done|]. by apply Forall_app.
Qed.

Lemma frames_ret {A} dir (a : A) : frames dir (ret a).
Proof. intros w r w' [= <- <-]. apply frame_refl. Qed.

Lemma frames_lift {A} dir (x : result A) : frames dir (lift x).
Proof. intros w r w' [= <- <-]. apply frame_refl. Qed.

Lemma frames_ask {A} dir (f : node → A) : frames dir (ask f).
Proof. intros w r w' [= <- <-]. apply frame_refl. Qed.

Lemma frames_bind {A B} dir (m : M A) (k : A → M B) :
  frames dir m → (∀ a, frames dir (k a)) → frames dir (bind m k).
Proof.
  intros Hm Hk w r w'. unfold bind.
  destruct (m w) as [[a|e] w1] eqn:E.
  - intros H. eapply frame_trans; [by eapply Hm|by eapply Hk].
  - intros [= <- <-]. by eapply Hm.
Qed.

Lemma frames_emit dir e : within dir e → frames dir (emit e).
Proof.
  intros He w r w' [= <- <-]. split; [done|]. simpl.
  exists [e]. split; [done|]. by constructor.
Qed.

Lemma frames_update dir (f : node → result node) :
  (∀ n n' q, f n = Ok n' → ¬ q `prefix_of` dir → ¬ dir `prefix_of` q →
             lookup q n' = lookup q n) →
  frames dir (update f).
Proof.
  intros Hf w r w'. unfold update.
  destruct (f (fs w)) as [n|e] eqn:E; intros [= <- <-].
  - split; [by intros q ??; eapply Hf|]. simpl.
    exists []. by rewrite app_nil_r.
  - apply frame_refl.
Qed.


Lemma prefix_snoc_inv {A} (l1 l2 : list A) x :
  l1 `prefix_of` l2 ++ [x] → l1 `prefix_of` l2 ∨ l1 = l2 ++ [x].
Proof.
  intros [k Hk]. destruct k as [|y k _] using rev_ind.
  - right. by rewrite app_nil_r in Hk.
  - left. rewrite app_assoc in Hk.
    apply app_inj_tail in Hk as [-> _]. by exists k.
Qed.

Lemma not_prefix_snoc_self {A} (l : list A) x : ¬ l ++ [x] `prefix_of` l.
Proof.
  intros [k Hk]. apply (f_equal length) in Hk.
  rewrite !length_app in Hk. simpl in Hk. lia.
Qed.

Lemma prefix_snoc_snoc {A} (l : list A) x y :
  l ++ [x] `prefix_of` l ++ [y] → x = y.
Proof.
  intros [k Hk]. rewrite <- app_assoc in Hk.
  apply app_inv_head in Hk. by injection Hk.
Qed.

Lemma unrelated_child_l p q x y :
  unrelated p q → ¬ p ++ [x] `prefix_of` q ++ [y].
Proof.
  intros [Hpq Hqp] [H|H]%prefix_snoc_inv.
  - apply Hpq. etrans; [|done]. by apply prefix_app_r.
  - apply Hqp. apply (f_equal length) in H as Hl.
    rewrite !length_app in Hl. simpl in Hl.
    apply app_inj_2 in H as [-> _]; [done|simpl; lia].
Qed.

Lemma keeps_refl dir svg_dir w : keeps dir svg_dir w w.
Proof.
  split; [done|]. split; [done|]. exists []. by rewrite app_nil_r.
Qed.

Lemma keeps_trans dir svg_dir w1 w2 w3 :
  keeps dir svg_dir w1 w2 → keeps dir svg_dir w2 w3 →
  keeps dir svg_dir w1 w3.
Proof.
  intros (H1 & S1 & l1 & E1 & F1) (H2 & S2 & l2 & E2 & F2).
  split; [congruence|]. split; [intros x; by rewrite S2|].
  exists (l1 ++ l2). rewrite E2, E1, app_assoc.
  split; [done|]. by apply Forall_app.
Qed.

(** A round for another package keeps this package's directory and the
    assets. *)
Lemma frame_keeps out svg_dir p p' w w' :
  frame (out ++ [p']) w w' → p' ≠ p → unrelated svg_dir out →
  keeps (out ++ [p]) svg_dir w w'.
Proof.
  intros [H (l & E & F)] Hne Hun. split; [|split].
  - apply H; intros Hx%prefix_snoc_snoc; congruence.
  - intros x. apply H.
    + by apply unrelated_child_l.
    + apply unrelated_child_l. by destruct Hun.
  - exists l. split; [done|]. eapply Forall_impl; [done|].
    intros e He q Hq Hp. apply He in Hq.
    destruct (prefix_weak_total _ _ _ Hp Hq) as [Hx|Hx];
      apply prefix_snoc_snoc in Hx; congruence.
Qed.

Lemma for_each_app {A S} (l1 l2 : list A) (body : S → A → M S) acc w :
  for_each (l1 ++ l2) body acc w =
  bind (for_each l1 body acc) (for_each l2 body) w.
Proof.
  revert acc w; induction l1 as [|x l1 IH]; intros acc w.
  - reflexivity.
  - simpl. unfold bind.
    destruct (body acc x w) as [[a|e] w1]; [|done].
    rewrite IH. reflexivity.
Qed.

Lemma for_each_Ok_split {A S} (l1 l2 : list A) x (body : S → A → M S)
    acc w a w' :
  for_each (l1 ++ x :: l2) body acc w = (Ok a, w') →
  ∃ a1 w1 a2 w2,
    for_each l1 body acc w = (Ok a1, w1)
    ∧ body a1 x w1 = (Ok a2, w2)
    ∧ for_each l2 body a2 w2 = (Ok a, w').
Proof.
  rewrite for_each_app. unfold bind at 1.
  destruct (for_each l1 body acc w) as [[a1|e] w1]; [|done].
  simpl. unfold bind at 1.
  destruct (body a1 x w1) as [[a2|e] w2] eqn:E; [|done].
  intros H. by exists a1, w1, a2, w2.
Qed.

Lemma for_each_preserves {A S} (R : world → world → Prop)
    (l : list A) (body : S → A → M S) acc w r w' :
  (∀ w, R w w) → (∀ w1 w2 w3, R w1 w2 → R w2 w3 → R w1 w3) →
  (∀ acc x w r w', x ∈ l → body acc x w = (r, w') → R w w') →
  for_each l body acc w = (r, w') → R w w'.
Proof.
  intros Hrefl Htrans. revert acc w.
  induction l as [|x l IH]; intros acc w Hbody; simpl.
  - by intros [= <- <-].
  - unfold bind. destruct (body acc x w) as [[a|e] w1] eqn:E.
    + intros H. eapply Htrans.
      * eapply Hbody; [left|done].
      * eapply IH; [|done]. intros. eapply Hbody; [by right|done].
    + intros [= <- <-]. eapply Hbody; [left|done].
Qed.

Lemma parse_icon_mapper_NoDup root :
  NoDup (PyDict.keys (parse_icon_mapper root)).
Proof.
  unfold parse_icon_mapper.
  assert (NoDup (PyDict.keys (PyDict.empty (V:=string)))) as H
    by constructor.
  revert H. generalize (PyDict.empty (V:=string)).
  induction (ET.findall "item" root) as [|it l IH]; intros d Hd; [done|].
  simpl. apply IH.
  destruct (ET.get it "package"), (ET.get it "drawable"); try done.
  destruct (_ && _); [|done]. by apply PyDictFacts.keys_set_NoDup.
Qed.

(** The entries of a dictionary around one of them: the key occurs
    nowhere else. *)
Lemma items_split {V} (d : PyDict.t V) k v :
  NoDup (PyDict.keys d) → (k, v) ∈ PyDict.items d →
  ∃ pre post, PyDict.items d = pre ++ (k, v) :: post
              ∧ k ∉ pre.*1 ∧ k ∉ post.*1.
Proof.
  unfold PyDict.keys, PyDict.items.
  intros Hnd (pre & post & ->)%list_elem_of_split.
  exists pre, post. split; [done|].
  rewrite fmap_app, fmap_cons in Hnd. simpl in Hnd.
  apply NoDup_app in Hnd as (_ & Hpre & Hpost).
  apply NoDup_cons in Hpost as [Hpost _].
  split; [|done]. intros Hin. apply (Hpre _ Hin). left.
Qed.

Section externals.
Variable svg2png : FS.bytes → Z → Z → option image.
Variable getrgb : string → result (list Z).
Variable blend : pixel → pixel → pixel.
Variable png_encode : image → FS.bytes.

Notation process_svg := (process_svg svg2png getrgb blend).
Notation process_entry := (process_entry svg2png getrgb blend png_encode).
Notation generate_icons := (generate_icons svg2png getrgb blend png_encode).
Notation save := (save png_encode).

Lemma frames_rasterize dir svg_path side :
  frames dir (rasterize svg2png svg_path side).
Proof.
  intros w r w' [= <- <-]. split; [done|]. simpl.
  exists [DidRasterize svg_path]. split; [done|].
  constructor; [|done]. by intros q.
Qed.

Lemma frames_process_svg dir svg_path fg icon_size icon_scale :
  frames dir (process_svg svg_path fg icon_size icon_scale).
Proof.
  unfold IconProcessor.process_svg.
  apply frames_bind; [apply frames_lift|]. intros side.
  apply frames_bind; [apply frames_rasterize|]. intros [glyph|].
  - apply frames_bind; [apply frames_lift|]. intros canvas.
    apply frames_bind; [apply frames_lift|]. intros pasted.
    apply frames_bind; [apply frames_lift|]. intros im. apply frames_ret.
  - apply frames_bind; [|intros; apply frames_ret].
    apply frames_emit. by intros q.
Qed.

Lemma frames_save d c im : frames d (save im (d ++ [c])).
Proof.
  unfold IconProcessor.save. apply frames_bind.
  - apply frames_update. intros n n' q H Hq Hq'.
    eapply write_file_frame; [done..|].
    intros Hx. apply Hq'. etrans; [|done]. by apply prefix_app_r.
  - intros _. apply frames_emit. intros q [= <-]. by apply prefix_app_r.
Qed.

Lemma frames_mkdir d c : frames (d ++ [c]) (mkdir_exist_ok (d ++ [c])).
Proof.
  unfold mkdir_exist_ok. apply frames_bind.
  - apply frames_update. intros n n' q H Hq Hq'.
    eapply mkdir_exist_ok_frame; [done| |done].
    intros Hx. apply Hq. etrans; [done|]. by apply prefix_app_r.
  - intros _. apply frames_emit. by intros q [= <-].
Qed.

(** One round of the loop touches the package's own directory only. *)
Lemma frames_process_entry svg_dir out fg icon_size icon_scale bg total
    count package drawable :
  frames (out ++ [package])
    (process_entry svg_dir out fg icon_size icon_scale bg total count
       (package, drawable)).
Proof.
  unfold IconProcessor.process_entry.
  apply frames_bind; [apply frames_ask|]. intros [|]; simpl.
  - apply frames_bind; [apply frames_mkdir|]. intros _.
    apply frames_bind; [apply frames_save|]. intros _.
    apply frames_bind; [apply frames_process_svg|]. intros [icon|].
    + apply frames_bind; [apply frames_save|]. intros _.
      apply frames_bind; [|intros; apply frames_ret].
      apply frames_emit. by intros q.
    + apply frames_bind; [|intros; apply frames_ret].
      apply frames_emit. by intros q.
  - apply frames_bind; [|intros; apply frames_ret].
    apply frames_emit. by intros q.
Qed.

Lemma recolor_size fg im im' :
  recolor getrgb fg im = Ok im' →
  width im' = width im ∧ height im' = height im.
Proof.
  unfold recolor. destruct (decide _); [|by intros [= <-]].
  destruct (getrgb fg) as [rgb|e]; [|done]. simpl.
  unfold putdata. destruct (inks _); [|done]. by intros [= <-].
Qed.

Lemma process_entry_missing svg_dir out fg icon_size icon_scale bg total
    count package drawable w :
  exists_ (svg_dir ++ [drawable +:+ ".svg"]) (fs w) = false →
  process_entry svg_dir out fg icon_size icon_scale bg total count
    (package, drawable) w =
  (Ok count, World (fs w) (log w ++ [MsgMissing drawable package])).
Proof.
  intros H. unfold IconProcessor.process_entry, bind, ask.
  by rewrite H.
Qed.

(** A round for a package whose asset exists and whose directory does
    not yet: the directory is made, the background written, the
    rasterizer called, and the foreground written if there is one. *)
Lemma process_entry_present svg_dir out fg icon_size icon_scale bg total
    count package drawable w count' w' :
  let svg := svg_dir ++ [drawable +:+ ".svg"] in
  let dir := out ++ [package] in
  exists_ svg (fs w) = true →
  lookup dir (fs w) = None →
  unrelated svg_dir out →
  process_entry svg_dir out fg icon_size icon_scale bg total count
    (package, drawable) w = (Ok count', w') →
  ∃ side,
    PyFloat.int_of_product icon_size icon_scale = Ok side
    ∧ match glyph_at svg2png (fs w) svg side with
      | None =>
          count' = count
          ∧ lookup dir (fs w')
            = Some (Dir [("0.png", File (png_encode bg))])
          ∧ log w' = log w ++
              [DidMkdir dir; DidWrite (dir ++ ["0.png"]);
               DidRasterize svg; MsgSvgError svg;
               MsgFailed drawable package]
      | Some _ =>
          ∃ img,
            width img = icon_size ∧ height img = icon_size
            ∧ count' = S count
            ∧ lookup dir (fs w')
              = Some (Dir [("0.png", File (png_encode bg));
                           ("1.png", File (png_encode img))])
            ∧ log w' = log w ++
                [DidMkdir dir; DidWrite (dir ++ ["0.png"]);
                 DidRasterize svg; DidWrite (dir ++ ["1.png"]);
                 MsgProgress (S count) total drawable package]
      end.
Proof.
  intros svg dir. subst svg dir. intros Hsvg Hdir [Hso Hos].
  unfold IconProcessor.process_entry.
  unfold bind at 1. unfold ask. rewrite Hsvg. cbn [negb].
  unfold bind at 1. unfold mkdir_exist_ok, bind at 1, update.
  destruct (FS.mkdir_exist_ok (out ++ [package]) (fs w)) as [n1|e] eqn:Hmk; [|done].
  unfold emit at 1. cbn [fs log].
  unfold bind at 1. unfold IconProcessor.save, bind at 1, update.
  cbn [fs log].
  destruct (write_file ((out ++ [package]) ++ ["0.png"]) (png_encode bg) n1)
    as [n2|e] eqn:Hw0; [|done].
  unfold emit at 1. cbn [fs log].
  (* the directory after the two steps *)
  apply mkdir_exist_ok_snoc in Hmk as Hmk'.
  destruct Hmk' as [(es & Hes & _)|[_ Hmk']]; [congruence|].
  pose proof (alter_dir_put_same _ _ _ _ _ Hmk') as Hd1.
  pose proof (write_file_dir _ _ _ _ _ _ Hw0 Hd1) as Hd2.
  (* the asset is where it was *)
  assert (lookup (svg_dir ++ [drawable +:+ ".svg"]) n2 = lookup (svg_dir ++ [drawable +:+ ".svg"]) (fs w)) as Hsame.
  { rewrite (write_file_frame _ _ _ _ _ (svg_dir ++ [drawable +:+ ".svg"]) Hw0).
    - apply (alter_dir_put_frame _ _ _ _ _ (svg_dir ++ [drawable +:+ ".svg"]) Hmk').
      + intros Hx. apply Hso. etrans; [|done]. by apply prefix_app_r.
      + by apply unrelated_child_l.
    - by apply unrelated_child_l.
    - intros Hx. apply (unrelated_child_l out svg_dir package
                          (drawable +:+ ".svg")); [done|].
      etrans; [|done]. by apply prefix_app_r. }
  unfold bind at 1.
  destruct (PyFloat.int_of_product icon_size icon_scale) as [side|e]
    eqn:Hside.
  2:{ unfold IconProcessor.process_svg, bind, lift. by rewrite Hside. }
  rewrite (process_svg_run _ _ _ _ _ _ _ _ side Hside). cbn [fs log].
  intros H. exists side. split; [done|].
  unfold glyph_at, read_file in *. rewrite Hsame in H.
  destruct (match lookup (svg_dir ++ [drawable +:+ ".svg"]) (fs w) with
            | Some (File b) => Ok b
            | Some (Dir _) => Raise IsADirectoryError
            | None => Raise FileNotFoundError
            end) as [b|e]; cbn zeta in H.
  - destruct (svg2png b side side) as [glyph|].
    + destruct (new icon_size icon_size (0, 0, 0, 0)) as [canvas|e]
        eqn:Hnew; [|done]. cbn [result_bind] in H.
      destruct (paste blend canvas glyph _ _) as [pasted|e] eqn:Hpaste;
        [|done].
      cbn [result_bind] in H.
      destruct (recolor getrgb fg _) as [img|e] eqn:Hrec; [|done].
      cbn [result_bind] in H.
      apply recolor_size in Hrec as [Hw Hh].
      apply ImgFacts.paste_size in Hpaste as (_ & Pw & Ph & _).
      apply new_Ok in Hnew as (_ & _ & Ew & Eh & _).
      unfold bind at 1 in H. unfold IconProcessor.save, bind at 1, update in H.
      cbn [fs log] in H.
      destruct (write_file ((out ++ [package]) ++ ["1.png"]) (png_encode img) n2)
        as [n3|e] eqn:Hw1; [|done].
      pose proof (write_file_dir _ _ _ _ _ _ Hw1 Hd2) as Hd3.
      unfold emit, bind, ret in H. cbn [fs log] in H.
      injection H as <- <-. exists img. cbn [fs log].
      split; [congruence|]. split; [congruence|]. split; [done|].
      split; [done|]. by rewrite <- !app_assoc.
    + unfold emit, bind, ret in H. cbn [fs log] in H.
      injection H as <- <-. cbn [fs log].
      split; [done|]. split; [done|]. by rewrite <- !app_assoc.
  - unfold emit, bind, ret in H. cbn [fs log] in H.
    injection H as <- <-. cbn [fs log].
    split; [done|]. split; [done|]. by rewrite <- !app_assoc.
Qed.

Lemma generate_icons_Ok root svg_dir out fg bg_color icon_size
    icon_scale w w' :
  generate_icons root svg_dir out fg bg_color icon_size icon_scale w
    = (Ok (), w') →
  ∃ n0 bg count w2,
    makedirs_in out (fs w) = Ok n0
    ∧ create_background getrgb icon_size bg_color = Ok bg
    ∧ for_each (PyDict.items (parse_icon_mapper root))
        (process_entry svg_dir out fg icon_size icon_scale bg
           (length (parse_icon_mapper root)))
        0%nat (World n0 (log w)) = (Ok count, w2)
    ∧ w' = World (fs w2)
             (log w2 ++ [MsgDone count (length (parse_icon_mapper root))]).
Proof.
  unfold IconProcessor.generate_icons, mkdir_parents_exist_ok.
  unfold bind at 1. unfold update.
  destruct (makedirs_in out (fs w)) as [n0|e]; [|done].
  unfold bind at 1. unfold lift.
  destruct (create_background getrgb icon_size bg_color) as [bg|e];
    [|done].
  unfold bind at 1.
  destruct (for_each _ _ _ _) as [[count|e] w2] eqn:E; [|done].
  unfold emit. intros [= <-]. by exists n0, bg, count, w2.
Qed.

Lemma create_background_size icon_size color bg :
  create_background getrgb icon_size color = Ok bg →
  width bg = icon_size ∧ height bg = icon_size.
Proof.
  unfold create_background.
  destruct (check_size icon_size icon_size) as [[]|e] eqn:Hc; [|done].
  cbn [result_bind].
  destruct (getrgb color) as [rgb|e]; [|done]. cbn [result_bind].
  destruct (ink_of_tuple rgb) as [ink|e]; [|done]. cbn [result_bind].
  intros Hfill.
  assert (new icon_size icon_size ink = Ok bg) as Hnew
    by (unfold new; by rewrite Hc).
  by apply new_Ok in Hnew as (_ & _ & ? & ? & _).
Qed.

(** Rounds for other packages keep this package's directory and the
    assets, however they end. *)
Lemma loop_keeps svg_dir out fg icon_size icon_scale bg total l acc w r w'
    package :
  unrelated svg_dir out → package ∉ l.*1 →
  for_each l (process_entry svg_dir out fg icon_size icon_scale bg total)
    acc w = (r, w') →
  keeps (out ++ [package]) svg_dir w w'.
Proof.
  intros Hun Hnot. apply for_each_preserves.
  - apply keeps_refl.
  - apply keeps_trans.
  - intros a [p' d'] w1 r1 w1' Hin Hrun.
    apply (frame_keeps out svg_dir package p'); [|..|done].
    + by eapply frames_process_entry.
    + intros ->. apply Hnot. by apply (list_elem_of_fmap_2 fst) in Hin.
Qed.

(** A completed run, seen from one entry of the mapping: nothing
    touches the package's directory or the assets before its round,
    its round returns, and nothing touches them afterwards. *)
Lemma generate_icons_round root svg_dir out fg bg_color icon_size
    icon_scale w w' package drawable :
  generate_icons root svg_dir out fg bg_color icon_size icon_scale w
    = (Ok (), w') →
  (package, drawable) ∈ PyDict.items (parse_icon_mapper root) →
  unrelated svg_dir out →
  ∃ bg w1 c1 w2 c2,
    create_background getrgb icon_size bg_color = Ok bg
    ∧ keeps (out ++ [package]) svg_dir w w1
    ∧ process_entry svg_dir out fg icon_size icon_scale bg
        (length (parse_icon_mapper root)) c1 (package, drawable) w1
      = (Ok c2, w2)
    ∧ keeps (out ++ [package]) svg_dir w2 w'.
Proof.
  intros (n0 & bg & count & w3 & Hmk & Hbg & Hloop & ->)%generate_icons_Ok
    Hin Hun.
  destruct (items_split _ _ _ (parse_icon_mapper_NoDup root) Hin)
    as (pre & post & Hitems & Hpre & Hpost).
  rewrite Hitems in Hloop.
  apply for_each_Ok_split in Hloop
    as (c1 & w1 & c2 & w2 & Hl1 & Hround & Hl2).
  exists bg, w1, c1, w2, c2. split; [done|]. split; [|split; [done|]].
  - apply (keeps_trans _ _ _ (World n0 (log w))).
    + split; [|split].
      * simpl. apply (makedirs_in_frame _ _ _ _ Hmk).
        apply not_prefix_snoc_self.
      * intros x. simpl. apply (makedirs_in_frame _ _ _ _ Hmk).
        intros Hx. destruct Hun as [Hun _]. apply Hun.
        etrans; [|done]. by apply prefix_app_r.
      * exists []. by rewrite app_nil_r.
    + eapply loop_keeps; [done|..|exact Hl1]; done.
  - apply (keeps_trans _ _ _ w3);
      [eapply loop_keeps; [done|..|exact Hl2]; done|].
    split; [done|]. split; [done|]. simpl.
    eexists. split; [done|]. constructor; [|done]. by intros q.
Qed.

Lemma keeps_exists dir svg_dir w w1 x :
  keeps dir svg_dir w w1 →
  exists_ (svg_dir ++ [x]) (fs w1) = exists_ (svg_dir ++ [x]) (fs w).
Proof. intros (_ & H & _). unfold exists_. by rewrite H. Qed.

Lemma keeps_glyph dir svg_dir w w1 x side :
  keeps dir svg_dir w w1 →
  glyph_at svg2png (fs w1) (svg_dir ++ [x]) side
  = glyph_at svg2png (fs w) (svg_dir ++ [x]) side.
Proof. intros (_ & H & _). unfold glyph_at, read_file. by rewrite H. Qed.

(** C4. In a completed run, a mapping entry whose asset file does not
    exist is reported as missing, and nothing is created or written at
    or below its directory in the output tree: the directory is after
    the run what it was before, absent if it was absent. *)
Theorem missing_asset_leaves_no_directory root svg_dir out fg bg_color
    icon_size icon_scale w w' package drawable :
  generate_icons root svg_dir out fg bg_color icon_size icon_scale w
    = (Ok (), w') →
  plain_mapper (parse_icon_mapper root) →
  unrelated svg_dir out →
  (package, drawable) ∈ PyDict.items (parse_icon_mapper root) →
  exists_ (svg_dir ++ [drawable +:+ ".svg"]) (fs w) = false →
  lookup (out ++ [package]) (fs w') = lookup (out ++ [package]) (fs w)
  ∧ ∃ l, log w' = log w ++ l
         ∧ MsgMissing drawable package ∈ l
         ∧ Forall (spares (out ++ [package])) l.
Proof.
  intros Hrun _ Hun Hin Hmiss.
  destruct (generate_icons_round _ _ _ _ _ _ _ _ _ _ _ Hrun Hin Hun)
    as (bg & w1 & c1 & w2 & c2 & _ & K1 & Hround & K2).
  rewrite process_entry_missing in Hround
    by (by rewrite (keeps_exists _ _ _ _ _ K1)).
  injection Hround as _ <-.
  destruct K1 as (L1 & _ & l1 & E1 & F1).
  destruct K2 as (L2 & _ & l2 & E2 & F2). simpl in *.
  split; [congruence|].
  exists (l1 ++ [MsgMissing drawable package] ++ l2).
  split; [by rewrite E2, E1, <- !app_assoc|]. split.
  - set_solver.
  - apply Forall_app. split; [done|]. apply Forall_app. split; [|done].
    constructor; [|done]. by intros q.
Qed.

(** C3 (as amended). In a completed run, the directory made for a
    package whose asset exists holds the background [0.png], an image of
    the canvas size; it holds the foreground [1.png], also of the canvas
    size, when the rasterizer produced a glyph, and the background alone
    when it did not. *)
Theorem package_directory_contents root svg_dir out fg bg_color
    icon_size icon_scale w w' package drawable :
  generate_icons root svg_dir out fg bg_color icon_size icon_scale w
    = (Ok (), w') →
  plain_mapper (parse_icon_mapper root) →
  unrelated svg_dir out →
  (package, drawable) ∈ PyDict.items (parse_icon_mapper root) →
  exists_ (svg_dir ++ [drawable +:+ ".svg"]) (fs w) = true →
  lookup (out ++ [package]) (fs w) = None →
  ∃ bg side,
    create_background getrgb icon_size bg_color = Ok bg
    ∧ width bg = icon_size ∧ height bg = icon_size
    ∧ PyFloat.int_of_product icon_size icon_scale = Ok side
    ∧ match glyph_at svg2png (fs w)
              (svg_dir ++ [drawable +:+ ".svg"]) side with
      | Some _ =>
          ∃ img, width img = icon_size ∧ height img = icon_size
            ∧ lookup (out ++ [package]) (fs w')
              = Some (Dir [("0.png", File (png_encode bg));
                           ("1.png", File (png_encode img))])
      | None =>
          lookup (out ++ [package]) (fs w')
          = Some (Dir [("0.png", File (png_encode bg))])
      end.
Proof.
  intros Hrun _ Hun Hin Hsvg Hfresh.
  destruct (generate_icons_round _ _ _ _ _ _ _ _ _ _ _ Hrun Hin Hun)
    as (bg & w1 & c1 & w2 & c2 & Hbg & K1 & Hround & K2).
  apply process_entry_present in Hround as (side & Hside & Hcase);
    [|by rewrite (keeps_exists _ _ _ _ _ K1)
     |by destruct K1 as [-> _]|done].
  rewrite (keeps_glyph _ _ _ _ _ _ K1) in Hcase.
  exists bg, side. split; [done|].
  destruct (create_background_size _ _ _ Hbg) as [? ?].
  split; [done|]. split; [done|]. split; [done|].
  destruct K2 as (L2 & _).
  destruct (glyph_at _ _ _ _).
  - destruct Hcase as (img & ? & ? & _ & Hd & _).
    exists img. split; [done|]. split; [done|]. congruence.
  - destruct Hcase as (_ & Hd & _). congruence.
Qed.

(** C10 (as amended). In a completed run, for a package whose asset
    exists and whose directory was absent before the run, the directory
    is made and [0.png] written before the rasterizer is called; when
    the rasterizer then produces nothing, the directory holds [0.png]
    and nothing else. *)
Theorem background_written_before_rasterizing root svg_dir out fg
    bg_color icon_size icon_scale w w' package drawable :
  generate_icons root svg_dir out fg bg_color icon_size icon_scale w
    = (Ok (), w') →
  plain_mapper (parse_icon_mapper root) →
  unrelated svg_dir out →
  (package, drawable) ∈ PyDict.items (parse_icon_mapper root) →
  exists_ (svg_dir ++ [drawable +:+ ".svg"]) (fs w) = true →
  lookup (out ++ [package]) (fs w) = None →
  let dir := out ++ [package] in
  let svg := svg_dir ++ [drawable +:+ ".svg"] in
  ∃ bg side,
    create_background getrgb icon_size bg_color = Ok bg
    ∧ PyFloat.int_of_product icon_size icon_scale = Ok side
    ∧ (∃ l1 l2, log w' = log w ++ l1 ++
                  [DidMkdir dir; DidWrite (dir ++ ["0.png"]);
                   DidRasterize svg] ++ l2)
    ∧ (∃ es, lookup dir (fs w') = Some (Dir es)
             ∧ find "0.png" es = Some (File (png_encode bg)))
    ∧ (glyph_at svg2png (fs w) svg side = None →
       lookup dir (fs w') = Some (Dir [("0.png", File (png_encode bg))])
       ∧ lookup (dir ++ ["1.png"]) (fs w') = None).
Proof.
  intros Hrun _ Hun Hin Hsvg Hfresh dir svg. subst dir svg.
  destruct (generate_icons_round _ _ _ _ _ _ _ _ _ _ _ Hrun Hin Hun)
    as (bg & w1 & c1 & w2 & c2 & Hbg & K1 & Hround & K2).
  apply process_entry_present in Hround as (side & Hside & Hcase);
    [|by rewrite (keeps_exists _ _ _ _ _ K1)
     |by destruct K1 as [-> _]|done].
  rewrite (keeps_glyph _ _ _ _ _ _ K1) in Hcase.
  exists bg, side. split; [done|]. split; [done|].
  destruct K1 as (_ & _ & l1 & E1 & _).
  destruct K2 as (L2 & _ & l2 & E2 & _).
  destruct (glyph_at _ _ _ _).
  - destruct Hcase as (img & _ & _ & _ & Hd & Hlog).
    split; [|split; [|done]].
    + exists l1, ([DidWrite ((out ++ [package]) ++ ["1.png"]);
                   MsgProgress (S c1) (length (parse_icon_mapper root))
                     drawable package] ++ l2).
      rewrite E2, Hlog, E1. by rewrite <- !app_assoc.
    + eexists. by rewrite L2, Hd.
  - destruct Hcase as (_ & Hd & Hlog).
    split; [|split].
    + exists l1, ([MsgSvgError (svg_dir ++ [drawable +:+ ".svg"]);
                   MsgFailed drawable package] ++ l2).
      rewrite E2, Hlog, E1. by rewrite <- !app_assoc.
    + eexists. by rewrite L2, Hd.
    + intros _. split; [by rewrite L2, Hd|].
      rewrite (lookup_app (out ++ [package])), L2, Hd. done.
Qed.

End externals.

End GenerateFacts.

(** ** ThemePacker: which files reach the final archive *)

Module PackerFacts.
Import Str StrFacts FS FSFacts Run RunSpec ThemePacker Tree PackerSpec.

#[local] Arguments String.append : simpl nomatch.

(** Induction on trees, with the hypothesis for every entry of a
    directory. *)
Lemma node_ind' (P : node → Prop) :
  (∀ b, P (File b)) →
  (∀ es, Forall (λ e, P e.2) es → P (Dir es)) →
  ∀ n, P n.
Proof.
  intros Hf Hd. fix IH 1. intros [b|es]; [apply Hf|].
  apply Hd. induction es as [|[k v] es IHes]; constructor.
  - apply IH.
  - apply IHes.
Qed.

Lemma elem_of_files file es :
  file ∈ files es ↔ ∃ b, (file, File b) ∈ es.
Proof.
  unfold files. rewrite list_elem_of_fmap. split.
  - intros ([k [b|es']] & -> & [H Hin]%list_elem_of_filter); [|done].
    by exists b.
  - intros [b Hin]. exists (file, File b). split; [done|].
    by apply list_elem_of_filter.
Qed.

(** The walk lists exactly the directories reachable from its top. *)
Lemma elem_of_walk_from n rel y :
  y ∈ walk_from rel n ↔
  ∃ r es, reaches n r (Dir es) ∧ y = (rel ++ r, subdirs es, FS.files es).
Proof.
  revert rel y. induction n as [b|es IH] using node_ind'; intros rel y.
  - simpl. split; [by intros ?%elem_of_nil|].
    intros (r & es & Hr & _). inversion Hr.
  - cbn [walk_from]. rewrite elem_of_cons.
    assert (∀ l, Forall (λ e, ∀ rel y, y ∈ walk_from rel e.2 ↔
                   ∃ r es0, reaches e.2 r (Dir es0)
                     ∧ y = (rel ++ r, subdirs es0, FS.files es0)) l →
            (y ∈ (fix below (l : list (string * node)) :=
                   match l with
                   | [] => []
                   | (name, child) :: l' =>
                       walk_from (rel ++ [name]) child ++ below l'
                   end) l
             ↔ ∃ name child r es0, (name, child) ∈ l
                 ∧ reaches child r (Dir es0)
                 ∧ y = (rel ++ name :: r, subdirs es0, FS.files es0)))
      as Hbelow.
    { induction l as [|[name child] l IHl]; intros Hl.
      - split; [by intros ?%elem_of_nil|].
        by intros (? & ? & ? & ? & ?%elem_of_nil & _).
      - apply Forall_cons in Hl as [Hc Hl]. simpl in Hc.
        rewrite elem_of_app, Hc, (IHl Hl). split.
        + intros [(r & es0 & Hr & ->)|(nm & ch & r & es0 & Hin & Hr & ->)].
          * exists name, child, r, es0. split; [left|].
            split; [done|]. by rewrite <- List.app_assoc.
          * exists nm, ch, r, es0. split; [by right|done].
        + intros (nm & ch & r & es0 & [[= -> ->]|Hin]%elem_of_cons & Hr & ->).
          * left. exists r, es0. split; [done|]. by rewrite <- List.app_assoc.
          * right. by exists nm, ch, r, es0. }
    rewrite (Hbelow es IH). split.
    + intros [->|(nm & ch & r & es0 & Hin & Hr & ->)].
      * exists [], es. split; [constructor|]. by rewrite app_nil_r.
      * exists (nm :: r), es0. split; [by econstructor|done].
    + intros (r & es0 & Hr & ->). inversion Hr; subst.
      * left. by rewrite app_nil_r.
      * right. eauto 10.
Qed.

(** A needle free of the separator is found in [u/v] exactly when it is
    found in [u] or in [v]. *)
Lemma startswith_sep sep n u v :
  mem sep n = false →
  startswith (u +:+ String sep v) n = startswith u n.
Proof.
  unfold startswith. revert u; induction n as [|b n IH]; intros u Hn.
  - done.
  - simpl in Hn. apply orb_false_elim in Hn as [Hb Hn].
    destruct u as [|a u]; simpl.
    + by rewrite eqb_ascii_sym, Hb.
    + destruct (eqb_ascii b a); [|done]. by apply IH.
Qed.

Lemma contains_sep sep b n u v :
  mem sep (String b n) = false →
  contains (String b n) (u +:+ String sep v) =
  contains (String b n) u || contains (String b n) v.
Proof.
  intros Hn. induction u as [|a u IH].
  - cbn [String.append contains]. unfold startswith at 1 2. simpl.
    simpl in Hn. apply orb_false_elim in Hn as [Hb _].
    by rewrite eqb_ascii_sym, Hb.
  - change (String a u +:+ String sep v)
      with (String a (u +:+ String sep v)).
    cbn [contains]. rewrite IH.
    change (String a (u +:+ String sep v))
      with (String a u +:+ String sep v).
    rewrite startswith_sep by done. by rewrite orb_assoc.
Qed.

Lemma contains_empty b n : contains (String b n) EmptyString = false.
Proof. done. Qed.

Lemma contains_path_text b n (p : path) :
  mem "/" (String b n) = false →
  contains (String b n) (concat ((λ c, "/" +:+ c) <$> p)) =
  existsb (contains (String b n)) p.
Proof.
  intros Hn. induction p as [|c p IH]; [done|].
  rewrite fmap_cons. cbn [concat existsb]. rewrite <- IH. clear IH.
  change (("/" +:+ c) +:+ ?t) with (EmptyString +:+ String "/" (c +:+ t)).
  rewrite contains_sep, contains_empty, orb_false_l by done.
  destruct p as [|c' p].
  - change (concat _) with EmptyString.
    by rewrite app_empty_r, contains_empty, orb_false_r.
  - rewrite fmap_cons. cbn [concat].
    change (("/" +:+ c') +:+ ?t) with (String "/" (c' +:+ t)).
    rewrite contains_sep by done.
    change (String "/" ?t) with (EmptyString +:+ String "/" t).
    by rewrite (contains_sep "/" b n EmptyString), contains_empty by done.
Qed.

(** The test [ "icons" in root ] looks at the directory names one by
    one. *)
Lemma contains_icons_path (p : path) :
  contains "icons" (path_str p) = existsb (contains "icons") p.
Proof.
  destruct p as [|c p]; [done|].
  unfold path_str. by apply contains_path_text.
Qed.

Lemma existsb_false {A} (f : A → bool) l :
  existsb f l = false ↔ ∀ x, x ∈ l → f x = false.
Proof.
  induction l as [|a l IH]; simpl.
  - split; [by intros _ x ?%elem_of_nil|done].
  - rewrite orb_false_iff, IH. split.
    + intros [Ha Hl] x [->|?]%elem_of_cons; auto.
    + intros H. split; [apply H; left|]. intros x ?. apply H. by right.
Qed.

Section externals.
Variable zip_partial : archive → bytes.

Notation zip_write := (zip_write zip_partial).
Notation zip_walk := (zip_walk zip_partial).

Lemma zip_write_files self top n rel zf fs :
  ¬ top `prefix_of` self →
  foldl (zip_write self top n rel) zf fs =
  zf ++ ((λ file, (relpath rel file, content_at n (top ++ rel ++ [file])))
           <$> fs).
Proof.
  intros Hself. revert zf; induction fs as [|f fs IH]; intros zf.
  - by rewrite app_nil_r.
  - cbn [foldl]. rewrite IH. unfold ThemePacker.zip_write.
    rewrite fmap_cons, decide_False.
    + by rewrite <- List.app_assoc.
    + intros <-. apply Hself. by apply prefix_app_r.
Qed.

(** When the archive does not lie inside the tree it packs, its members
    are the selected files, in walking order. *)
Lemma zip_walk_selected self top skip n :
  ¬ top `prefix_of` self →
  zip_walk self top skip n = selected top n skip.
Proof.
  intros Hself. unfold ThemePacker.zip_walk, selected.
  assert (∀ (ys : list (path * list string * list string))
            (zf : archive),
    foldl (λ zf '(rel, _, files),
             if skip (path_str (top ++ rel)) then zf
             else foldl (zip_write self top n rel) zf files) zf ys
    = zf ++ ('(rel, _, files) ← ys;
             if skip (path_str (top ++ rel)) then []
             else (λ file, (relpath rel file,
                            content_at n (top ++ rel ++ [file])))
                    <$> files)) as H.
  { induction ys as [|[[rel ds] fs] ys IH]; intros zf.
    - by rewrite app_nil_r.
    - simpl. rewrite IH. destruct (skip _).
      + done.
      + rewrite zip_write_files by done. by rewrite <- List.app_assoc. }
  apply H.
Qed.

Lemma elem_of_selected top n skip arc b :
  (arc, b) ∈ selected top n skip ↔
  ∃ d rel file,
    lookup top n = Some d ∧ has_file d rel file
    ∧ skip (path_str (top ++ rel)) = false
    ∧ arc = relpath rel file
    ∧ b = content_at n (top ++ rel ++ [file]).
Proof.
  unfold selected, walk. rewrite list_elem_of_bind. split.
  - intros ([[rel ds] fs] & Hin & Hy).
    destruct (lookup top n) as [d|]; [|by apply elem_of_nil in Hy].
    apply elem_of_walk_from in Hy as (r & es & Hr & [= -> -> ->]).
    destruct (skip _) eqn:Hs; [by apply elem_of_nil in Hin|].
    apply list_elem_of_fmap in Hin as (file & [= -> ->] & Hf).
    apply elem_of_files in Hf as [b Hf].
    exists d, r, file. split; [done|]. split; [by exists es, b|done].
  - intros (d & rel & file & Hd & (es & b' & Hr & Hf) & Hs & -> & ->).
    exists (rel, subdirs es, FS.files es). rewrite Hd, Hs. split.
    + apply list_elem_of_fmap. exists file. split; [done|].
      apply elem_of_files. eauto.
    + apply elem_of_walk_from. by exists rel, es.
Qed.

(** What the walk of [pack_magisk_module] collects from a tree, when the
    template's own path is free of [icons] and the archive does not lie
    inside the template: the files whose directory, relative to the
    template, has no name containing [icons]. *)
Lemma module_members_selected
    (magisk_template_dir target_magisk : path) (n d : node) :
  contains "icons" (path_str magisk_template_dir) = false →
  ¬ magisk_template_dir `prefix_of` target_magisk →
  lookup magisk_template_dir n = Some d →
  ∀ arc b,
    (arc, b) ∈ module_members zip_partial magisk_template_dir
                 target_magisk n
    ↔ ∃ rel file,
        has_file d rel file ∧ clear_of_icons rel
        ∧ arc = relpath rel file
        ∧ b = content_at n (magisk_template_dir ++ rel ++ [file]).
Proof.
  intros Htop Hself Hd arc b. unfold module_members.
  rewrite zip_walk_selected by done. rewrite elem_of_selected.
  rewrite contains_icons_path in Htop.
  split.
  - intros (d' & rel & file & Hd' & Hf & Hs & -> & ->).
    assert (d' = d) as -> by congruence.
    exists rel, file. split; [done|]. split; [|done].
    rewrite contains_icons_path, existsb_app, Htop in Hs. simpl in Hs.
    unfold clear_of_icons. by apply existsb_false.
  - intros (rel & file & Hf & Hc & -> & ->).
    exists d, rel, file. split; [done|]. split; [done|].
    split; [|done].
    rewrite contains_icons_path, existsb_app, Htop. simpl.
    by apply existsb_false.
Qed.

Lemma zip_walk_all_skipped self top skip n :
  (∀ rel, skip (path_str (top ++ rel)) = true) →
  zip_walk self top skip n = [].
Proof.
  intros Hs. unfold ThemePacker.zip_walk.
  induction (walk top n) as [|[[rel ds] fs] ys IH]; [done|].
  simpl. by rewrite Hs.
Qed.

Lemma module_members_none top target n :
  contains "icons" (path_str top) = true →
  module_members zip_partial top target n = [].
Proof.
  intros Htop. apply zip_walk_all_skipped. intros rel.
  rewrite contains_icons_path in *.
  by rewrite existsb_app, Htop.
Qed.

Variable zip_encode : archive → bytes.

Lemma split_last_Some (p d : path) c :
  split_last p = Some (d, c) → p = d ++ [c].
Proof.
  unfold split_last. destruct (reverse p) as [|x rp] eqn:E; [done|].
  intros [= <- <-]. apply (f_equal reverse) in E.
  rewrite reverse_involutive in E. by rewrite E, reverse_cons.
Qed.

Lemma write_file_read p b n n' :
  write_file p b n = Ok n' → read_file p n' = Ok b.
Proof.
  intros H. assert (∃ d c, p = d ++ [c]) as (d & c & ->).
  { unfold write_file in H.
    destruct (split_last p) as [[d c]|] eqn:E; [|done].
    apply split_last_Some in E. eauto. }
  unfold read_file. by rewrite (write_file_same _ _ _ _ _ H).
Qed.

(** C2, where the code departs from it.  When the path of template B
    contains [icons] (the working directory is enough), every directory
    of the walk is skipped: the final archive is written without any
    member, so without the [icons] entry, whatever [pack_icons_zip]
    put into template B before. *)
Theorem module_archive_empty_under_icons_path
    (magisk_template_dir target_magisk : path) (w w' : world) :
  contains "icons" (path_str magisk_template_dir) = true →
  pack_magisk_module zip_encode zip_partial
    magisk_template_dir target_magisk w = (Ok (), w') →
  (∀ n, module_members zip_partial magisk_template_dir target_magisk n
        = [])
  ∧ read_file target_magisk (fs w') = Ok (zip_encode []).
Proof.
  intros Htop Hrun. split; [intros n; by apply module_members_none|].
  unfold pack_magisk_module, zip_tree in Hrun.
  unfold bind at 1 in Hrun. unfold update at 1 in Hrun.
  destruct (write_file target_magisk [] (fs w)) as [n1|e]; [|done].
  unfold bind, ask in Hrun. cbn [fs log] in Hrun.
  change (ThemePacker.zip_walk zip_partial target_magisk
            magisk_template_dir (λ root, contains "icons" root) n1)
    with (module_members zip_partial magisk_template_dir
            target_magisk n1) in Hrun.
  rewrite module_members_none in Hrun by done.
  unfold update in Hrun. cbn [fs log] in Hrun.
  destruct (write_file target_magisk (zip_encode []) n1) as [n2|e] eqn:E;
    [|done].
  injection Hrun as <-. cbn [fs]. by eapply write_file_read.
Qed.

Lemma bind_Ok {A B} (m : M A) (k : A → M B) w b w' :
  bind m k w = (Ok b, w') →
  ∃ a w0, m w = (Ok a, w0) ∧ k a w0 = (Ok b, w').
Proof.
  unfold bind. destruct (m w) as [[a|e] w0]; [|done]. eauto.
Qed.

Lemma update_Ok f w u w' :
  update f w = (Ok u, w') → f (fs w) = Ok (fs w') ∧ log w' = log w.
Proof.
  unfold update. destruct (f (fs w)) as [n|e]; [|done].
  by intros [= _ <-].
Qed.

(** C7 (as amended). When template B's own path is free of [icons] and
    template B and the archive lie apart, a completed
    [pack_magisk_module] leaves at the target an archive that holds
    exactly the files of template B whose directory, relative to B's
    root, has no name containing [icons], each under its path relative
    to B's root and with the bytes it had; the file's own name is not
    looked at. *)
Theorem module_archive_holds_files_outside_icons_dirs
    (magisk_template_dir target_magisk : path) (w w' : world) (d : node) :
  pack_magisk_module zip_encode zip_partial
    magisk_template_dir target_magisk w = (Ok (), w') →
  contains "icons" (path_str magisk_template_dir) = false →
  unrelated magisk_template_dir target_magisk →
  lookup magisk_template_dir (fs w) = Some d →
  ∃ members,
    read_file target_magisk (fs w') = Ok (zip_encode members)
    ∧ ∀ arc b,
        (arc, b) ∈ members
        ↔ ∃ rel file,
            has_file d rel file ∧ clear_of_icons rel
            ∧ arc = relpath rel file
            ∧ b = content_at (fs w) (magisk_template_dir ++ rel ++ [file]).
Proof.
  intros Hmod Htop [Hbt Htb] Hd.
  unfold pack_magisk_module, zip_tree in Hmod.
  apply bind_Ok in Hmod as (? & w3 & Hcreate & Hmod).
  apply update_Ok in Hcreate as [Hcreate Hlog3].
  apply bind_Ok in Hmod as (members & w4 & Hask & Hmod).
  injection Hask as <- <-.
  apply update_Ok in Hmod as [Hfinal _].
  assert (∃ t c, target_magisk = t ++ [c]) as (t & c & ->).
  { unfold write_file in Hcreate.
    destruct (split_last target_magisk) as [[t c]|] eqn:E; [|done].
    apply split_last_Some in E. eauto. }
  assert (∀ q, magisk_template_dir `prefix_of` q →
               lookup q (fs w3) = lookup q (fs w)) as Hsame.
  { intros q Hq. apply (write_file_frame _ _ _ _ _ q Hcreate).
    - intros Hx. apply Hbt. etrans; [done|]. etrans; [done|].
      by apply prefix_app_r.
    - intros Hx. destruct (prefix_weak_total _ _ _ Hx Hq); done. }
  exists (module_members zip_partial magisk_template_dir (t ++ [c])
            (fs w3)).
  split; [by eapply write_file_read|].
  intros arc b.
  rewrite (module_members_selected _ _ _ d Htop Hbt)
    by (by rewrite Hsame).
  assert (∀ rel file,
    content_at (fs w3) (magisk_template_dir ++ rel ++ [file])
    = content_at (fs w) (magisk_template_dir ++ rel ++ [file])) as Hc.
  { intros rel file. unfold content_at.
    by rewrite Hsame by (by apply prefix_app_r). }
  split; intros (rel & file & Hf & Hclear & -> & ->);
    exists rel, file; by rewrite ?Hc in *.
Qed.

(** The last step of [pack_icons_zip] is the copy into template B. *)
Lemma pack_icons_zip_last out templ_a templ_b w w1 :
  pack_icons_zip zip_encode zip_partial out templ_a templ_b w = (Ok (), w1) →
  ∃ n, FS.copy (templ_a ++ ["icons"]) templ_b n = Ok (fs w1).
Proof.
  unfold pack_icons_zip. intros H.
  repeat (apply bind_Ok in H as (? & ? & _ & H)).
  apply update_Ok in H as [H _]. eauto.
Qed.

(** Copying a file into what is a directory afterwards puts it there
    under its own name. *)
Lemma copy_into_dir d name dst n n' :
  FS.copy (d ++ [name]) dst n = Ok n' → is_dir dst n' = true →
  ∃ z, read_file (d ++ [name]) n = Ok z
       ∧ write_file (dst ++ [name]) z n = Ok n'.
Proof.
  unfold FS.copy. destruct (read_file (d ++ [name]) n) as [z|e]; [|done].
  simpl. rewrite split_last_snoc. intros H Hdir. exists z. split; [done|].
  destruct (lookup dst n) as [[b|es]|]; [|done|].
  - apply write_file_read in H as Hr. unfold read_file, is_dir in *.
    by destruct (lookup dst n') as [[]|].
  - apply write_file_read in H as Hr. unfold read_file, is_dir in *.
    by destruct (lookup dst n') as [[]|].
Qed.

(** The other side of the same test.  When template B's path is free of
    [icons], the templates and the archive lie apart and template B is a
    directory, the final archive has a member [icons] holding the bytes of
    the intermediate icons archive, and every member is a file of
    template B. *)
Lemma icons_archive_in_module out templ_a templ_b target w w1 w2 :
  pack_icons_zip zip_encode zip_partial out templ_a templ_b w = (Ok (), w1) →
  pack_magisk_module zip_encode zip_partial templ_b target w1 = (Ok (), w2) →
  contains "icons" (path_str templ_b) = false →
  unrelated templ_a templ_b → unrelated templ_b target →
  is_dir templ_b (fs w1) = true →
  ∃ z members d,
    read_file (templ_a ++ ["icons"]) (fs w1) = Ok z
    ∧ read_file target (fs w2) = Ok (zip_encode members)
    ∧ ("icons", z) ∈ members
    ∧ lookup templ_b (fs w1) = Some d
    ∧ ∀ arc b, (arc, b) ∈ members →
        ∃ rel file, has_file d rel file ∧ arc = relpath rel file.
Proof.
  intros Hpack Hmod Htop [Hab Hba] [Hbt Htb] Hdir.
  apply pack_icons_zip_last in Hpack as [n Hcopy].
  apply copy_into_dir in Hcopy as (z & Hz & Hw); [|done].
  (* the icons archive after the copy, in both templates *)
  assert (lookup (templ_b ++ ["icons"]) (fs w1) = Some (File z)) as Hbz
    by (by eapply write_file_same).
  assert (read_file (templ_a ++ ["icons"]) (fs w1) = Ok z) as Haz.
  { unfold read_file in *.
    rewrite (write_file_frame _ _ _ _ _ (templ_a ++ ["icons"]) Hw); [done|..].
    - intros Hx. apply Hab. etrans; [|done]. by apply prefix_app_r.
    - by apply GenerateFacts.unrelated_child_l. }
  (* the final archive *)
  unfold pack_magisk_module, zip_tree in Hmod.
  apply bind_Ok in Hmod as (? & w3 & Hcreate & Hmod).
  apply update_Ok in Hcreate as [Hcreate Hlog3].
  apply bind_Ok in Hmod as (members & w4 & Hask & Hmod).
  injection Hask as <- <-.
  apply update_Ok in Hmod as [Hfinal _].
  assert (∃ t c, target = t ++ [c]) as (t & c & ->).
  { unfold write_file in Hcreate.
    destruct (split_last target) as [[t c]|] eqn:E; [|done].
    apply split_last_Some in E. eauto. }
  assert (∀ q, templ_b `prefix_of` q →
               lookup q (fs w3) = lookup q (fs w1)) as Hsame.
  { intros q Hq. apply (write_file_frame _ _ _ _ _ q Hcreate).
    - intros Hx. apply Hbt. etrans; [done|]. etrans; [done|].
      by apply prefix_app_r.
    - intros Hx. destruct (prefix_weak_total _ _ _ Hx Hq); done. }
  destruct (lookup templ_b (fs w1)) as [d|] eqn:Hd;
    [|by unfold is_dir in Hdir; rewrite Hd in Hdir].
  exists z, (ThemePacker.zip_walk zip_partial (t ++ [c]) templ_b
               (λ root, contains "icons" root) (fs w3)), d.
  split; [done|]. split; [by eapply write_file_read|].
  rewrite zip_walk_selected by done.
  assert (lookup templ_b (fs w3) = Some d) as Hd3
    by (by rewrite Hsame).
  split; [|split; [done|]].
  - apply elem_of_selected. exists d, [], "icons".
    split; [done|]. split.
    + rewrite lookup_app, Hd in Hbz. destruct d as [b|es]; [done|].
      simpl in Hbz. destruct (find "icons" es) as [m|] eqn:Hf; [|done].
      injection Hbz as ->. exists es, z. split; [constructor|].
      by apply find_elem_of.
    + rewrite app_nil_r. split; [done|]. split; [done|].
      unfold content_at. simpl.
      by rewrite Hsame, Hbz by (by apply prefix_app_r).
  - intros arc b (d' & rel & file & Hd' & Hf & _ & -> & _)%elem_of_selected.
    assert (d' = d) as -> by congruence. eauto.
Qed.

End externals.

End PackerFacts.

(** ** The script on the sample installation *)

Module SampleRuns.
Import Img FS Run RunSpec IconProcessor ThemePacker PackerSpec Tree Sample.
Import MappingProcessor MappingLayout ComponentSyntax SkipSpec MoreSamples.

Example sample_rows :
  normalized_rows appfilter =
  [("com.a", ("Maps", "maps")); ("com.b", ("Mail 2", "broken"));
   ("com.c", ("Clock", "clock"))].
Proof. by vm_compute. Qed.

Example sample_indents :
  item_row_indents (convert_icon_mapper appfilter) = [0; 4; 4]%nat.
Proof. by vm_compute. Qed.

(** C6, as stated, fails: the item rows of the sample table are not all
    behind two spaces (the first has none, the others four). *)
Lemma two_space_rows_counterexample :
  ¬ Forall (λ n, n = 2%nat)
      (item_row_indents (convert_icon_mapper appfilter)).
Proof.
  rewrite sample_indents. intros H. apply Forall_cons in H as [H _].
  discriminate H.
Qed.

Lemma item_skipped_iff_witness :
  let notes :=
    ET.Element "item" [("component", "ComponentInfo{com.d/com.d.Main}");
                       ("drawable", EmptyString); ("name", "Notes")] in
  (normalized_rows [notes] = [] ↔ skipped notes)
  ∧ normalized_rows [notes] = []
  ∧ ∃ package,
      parses_as (ET.get_or_empty maps_item "component") package
      ∧ package ∈ (normalized_rows appfilter).*1.
Proof.
  intros notes.
  pose proof FormatFacts.item_skipped_iff as (Halone & _ & Hrow & _).
  split; [|split].
  - apply (Halone notes). reflexivity.
  - apply (Halone notes); [reflexivity|]. right. left. reflexivity.
  - apply (Hrow appfilter maps_item).
    + vm_compute. right. right. left.
    + intros [H|[H|H]]; [discriminate H|discriminate H|].
      apply H. exists "com.a", "com.a.Main", EmptyString.
      split; [reflexivity|]. split; [discriminate|]. split; reflexivity.
Defined.

Lemma sample_unrelated home : unrelated (svg_dir home) (output_dir home).
Proof.
  split; intros [k Hk]; unfold svg_dir, output_dir, current_dir in Hk;
    simpl in Hk; discriminate Hk.
Qed.

Lemma sample_plain : plain_mapper (parse_icon_mapper icon_mapper).
Proof.
  unfold plain_mapper.
  change (PyDict.items (parse_icon_mapper icon_mapper))
    with [("com.a", "maps"); ("com.b", "broken"); ("com.c", "clock")].
  unfold plain_name.
  repeat (constructor; [repeat split; by vm_compute|]).
  constructor.
Qed.

Notation generate_icons :=
  (generate_icons svg2png getrgb blend png_encode).
Notation ran := (Sample.generate "theme").2.

Lemma sample_generate :
  generate_icons icon_mapper (svg_dir "theme") (output_dir "theme")
    "#d1e2fc" "#1c232b" 4 half (world0 "theme") = (Ok (), ran).
Proof. by vm_compute. Qed.

(** C3, as stated, fails: the run makes the directory of [com.b], whose
    asset exists but does not render, and leaves only the background in
    it. *)
Lemma both_layers_counterexample :
  (Sample.generate "theme").1 = Ok ()
  ∧ is_dir (output_dir "theme" ++ ["com.b"]) (fs ran) = true
  ∧ exists_ (output_dir "theme" ++ ["com.b"; "0.png"]) (fs ran) = true
  ∧ exists_ (output_dir "theme" ++ ["com.b"; "1.png"]) (fs ran) = false.
Proof. by vm_compute. Qed.

Lemma package_directory_contents_witness :
  (∃ bg side,
     create_background getrgb 4 "#1c232b" = Ok bg
     ∧ width bg = 4 ∧ height bg = 4
     ∧ PyFloat.int_of_product 4 half = Ok side
     ∧ ∃ img, width img = 4 ∧ height img = 4
         ∧ lookup (output_dir "theme" ++ ["com.a"]) (fs ran)
           = Some (Dir [("0.png", File (png_encode bg));
                        ("1.png", File (png_encode img))])).
Proof.
  destruct (GenerateFacts.package_directory_contents
              svg2png getrgb blend png_encode
              icon_mapper (svg_dir "theme") (output_dir "theme")
              "#d1e2fc" "#1c232b" 4 half (world0 "theme") ran
              "com.a" "maps")
    as (bg & side & Hbg & Hw & Hh & Hside & Hcase).
  - exact sample_generate.
  - exact sample_plain.
  - exact (sample_unrelated "theme").
  - vm_compute. left.
  - reflexivity.
  - reflexivity.
  - exists bg, side. split; [exact Hbg|]. split; [exact Hw|].
    split; [exact Hh|]. split; [exact Hside|].
    vm_compute in Hside. injection Hside as <-. exact Hcase.
Defined.

Lemma missing_asset_leaves_no_directory_witness :
  lookup (output_dir "theme" ++ ["com.c"]) (fs ran) = None
  ∧ ∃ l, log ran = [] ++ l
         ∧ MsgMissing "clock" "com.c" ∈ l
         ∧ Forall (spares (output_dir "theme" ++ ["com.c"])) l.
Proof.
  apply (GenerateFacts.missing_asset_leaves_no_directory
           svg2png getrgb blend png_encode
           icon_mapper (svg_dir "theme") (output_dir "theme")
           "#d1e2fc" "#1c232b" 4 half (world0 "theme") ran
           "com.c" "clock").
  - exact sample_generate.
  - exact sample_plain.
  - exact (sample_unrelated "theme").
  - vm_compute. right. right. left.
  - reflexivity.
Defined.

Lemma background_written_before_rasterizing_witness :
  ∃ bg side,
    create_background getrgb 4 "#1c232b" = Ok bg
    ∧ PyFloat.int_of_product 4 half = Ok side
    ∧ (∃ l1 l2, log ran = [] ++ l1 ++
         [DidMkdir (output_dir "theme" ++ ["com.b"]);
          DidWrite ((output_dir "theme" ++ ["com.b"]) ++ ["0.png"]);
          DidRasterize (svg_dir "theme" ++ ["broken.svg"])] ++ l2)
    ∧ (∃ es, lookup (output_dir "theme" ++ ["com.b"]) (fs ran)
               = Some (Dir es)
             ∧ find "0.png" es = Some (File (png_encode bg)))
    ∧ (glyph_at svg2png (tree "theme")
         (svg_dir "theme" ++ ["broken.svg"]) side = None →
       lookup (output_dir "theme" ++ ["com.b"]) (fs ran)
         = Some (Dir [("0.png", File (png_encode bg))])
       ∧ lookup ((output_dir "theme" ++ ["com.b"]) ++ ["1.png"]) (fs ran)
         = None).
Proof.
  apply (GenerateFacts.background_written_before_rasterizing
           svg2png getrgb blend png_encode
           icon_mapper (svg_dir "theme") (output_dir "theme")
           "#d1e2fc" "#1c232b" 4 half (world0 "theme") ran
           "com.b" "broken").
  - exact sample_generate.
  - exact sample_plain.
  - exact (sample_unrelated "theme").
  - vm_compute. right. left.
  - reflexivity.
  - reflexivity.
Defined.

Notation process_svg := (process_svg svg2png getrgb blend).



Lemma glyph_side_and_offset_witness :
  let w := world0 "theme" in
  let svg := svg_dir "theme" ++ ["maps.svg"] in
  ∃ img,
    process_svg svg "#d1e2fc" 4 half w
      = (Ok (Some img), World (fs w) (log w ++ [DidRasterize svg]))
    ∧ width img = 4 ∧ height img = 4
    ∧ getpixel img 0 3 = Some (0, 0, 0, 0)
    ∧ ∃ q, getpixel img 2 1 = Some q ∧ alpha q = 14.
Proof.
  intros w svg.
  pose proof (ProcessFacts.glyph_side_and_offset svg2png getrgb blend)
    as (Himage & Hreturns & _).
  destruct (Hreturns w svg "#d1e2fc" 4 half 2 some_bytes glyph canvas
              209 226 252) as (img & Hrun); [reflexivity..|].
  assert (∀ b gl, svg2png b 2 2 = Some gl → width gl = 2 ∧ height gl = 2)
    as Hsquare.
  { intros [|c b] gl H; [discriminate H|]. injection H as <-.
    split; reflexivity. }
  assert (∀ t, getrgb "#d1e2fc" = Ok t →
               length t = 3%nat ∨ length t = 4%nat) as Hlen.
  { intros t H. injection H as <-. left. reflexivity. }
  destruct (Himage w svg "#d1e2fc" 4 half 2 img
              (World (fs w) (log w ++ [DidRasterize svg]))
              eq_refl Hsquare Hlen Hrun)
    as (b & gl & Hread & Hgl & _ & Hw & Hh & Hout & Hin).
  exists img. split; [exact Hrun|]. split; [exact Hw|].
  split; [exact Hh|]. split.
  - apply Hout; [lia|lia|]. change ((4 - 2) `div` 2) with 1. lia.
  - assert (b = some_bytes) as -> by (injection Hread as <-; reflexivity).
    assert (gl = glyph) as -> by (injection Hgl as <-; reflexivity).
    change ((4 - 2) `div` 2) with 1 in Hin.
    destruct (Hin 1 0 (0, 0, 0, 60)) as (q & Hq & Ha);
      [lia|lia|reflexivity|].
    exists q. split; [exact Hq|exact Ha].
Defined.

(** C7, as stated, fails: the file [icons] at the root of template B has
    [icons] in its path and is a member of the final archive. *)
Lemma icons_file_counterexample :
  lookup (magisk_template_dir "theme") (tree "theme") = Some template_b
  ∧ has_file template_b [] "icons"
  ∧ Str.contains "icons" (relpath [] "icons") = true
  ∧ ("icons", [])
      ∈ module_members zip_partial (magisk_template_dir "theme")
          (target_magisk "theme") (tree "theme")
  ∧ (pack_template "theme").1 = Ok ()
  ∧ read_file (target_magisk "theme") (fs (pack_template "theme").2)
    = Ok (zip_encode
            (module_members zip_partial (magisk_template_dir "theme")
               (target_magisk "theme") (tree "theme"))).
Proof.
  split; [reflexivity|]. split; [|split; [reflexivity|split]].
  - eexists _, []. split; [constructor|]. right. left.
  - vm_compute. right. left.
  - split; reflexivity.
Qed.

Lemma module_archive_witness :
  pack_template "theme" = (Ok (), (pack_template "theme").2)
  ∧ Str.contains "icons" (path_str (magisk_template_dir "theme")) = false
  ∧ unrelated (magisk_template_dir "theme") (target_magisk "theme")
  ∧ lookup (magisk_template_dir "theme") (tree "theme") = Some template_b
  ∧ ∃ members,
      read_file (target_magisk "theme") (fs (pack_template "theme").2)
        = Ok (zip_encode members)
      ∧ ∀ arc b,
          (arc, b) ∈ members
          ↔ ∃ rel file,
              has_file template_b rel file ∧ clear_of_icons rel
              ∧ arc = relpath rel file
              ∧ b = content_at (tree "theme")
                      (magisk_template_dir "theme" ++ rel ++ [file]).
Proof.
  assert (unrelated (magisk_template_dir "theme") (target_magisk "theme"))
    as Hapart.
  { split; intros [k Hk]; vm_compute in Hk; discriminate Hk. }
  split; [reflexivity|]. split; [reflexivity|]. split; [exact Hapart|].
  split; [reflexivity|].
  apply (PackerFacts.module_archive_holds_files_outside_icons_dirs
           zip_partial zip_encode (magisk_template_dir "theme")
           (target_magisk "theme") (world0 "theme")
           (pack_template "theme").2 template_b);
    [reflexivity|reflexivity|exact Hapart|reflexivity].
Defined.

(** In a working directory called [icons] the sample run completes and
    the module archive is written without members. *)
Lemma module_archive_empty_under_icons_path_witness :
  (packed_icons "icons").1 = Ok ()
  ∧ is_plain_file
      (default (Dir []) (lookup (magisk_template_dir "icons" ++ ["icons"])
                           (fs (packed_icons "icons").2))) = true
  ∧ Str.contains "icons" (path_str (magisk_template_dir "icons")) = true
  ∧ (∀ n, module_members zip_partial (magisk_template_dir "icons")
            (target_magisk "icons") n = [])
  ∧ read_file (target_magisk "icons") (fs (pack "icons").2)
    = Ok (zip_encode []).
Proof.
  split; [by vm_compute|]. split; [by vm_compute|].
  split; [reflexivity|].
  apply (PackerFacts.module_archive_empty_under_icons_path
           zip_partial zip_encode (magisk_template_dir "icons")
           (target_magisk "icons") (packed_icons "icons").2
           (pack "icons").2).
  - reflexivity.
  - by vm_compute.
Defined.

(** In a working directory called [theme] the same run puts the icons
    archive, byte for byte, into the module archive. *)
Example module_archive_under_plain_path :
  ∃ z, read_file (icons_template_dir "theme" ++ ["icons"])
         (fs (packed_icons "theme").2) = Ok z
       ∧ ("icons", z)
           ∈ module_members zip_partial (magisk_template_dir "theme")
               (target_magisk "theme") (fs (packed_icons "theme").2).
Proof.
  eexists. split; [by vm_compute|]. vm_compute. right. left.
Qed.

(** C10, as stated, fails: the directory of [com.b] is there before the
    run with a foreground in it; the run completes, the asset of [com.b]
    exists and does not render, and the directory holds [1.png] next to
    [0.png] afterwards. *)
Lemma stale_foreground_counterexample :
  let dir := output_dir "theme" ++ ["com.b"] in
  let svg := svg_dir "theme" ++ ["broken.svg"] in
  generate_icons icon_mapper (svg_dir "theme") (output_dir "theme")
    "#d1e2fc" "#1c232b" 4 half (World stale_tree [])
    = (Ok (), rendered_over_stale)
  ∧ ("com.b", "broken") ∈ PyDict.items (parse_icon_mapper icon_mapper)
  ∧ exists_ svg stale_tree = true
  ∧ glyph_at svg2png stale_tree svg 2 = None
  ∧ MsgFailed "broken" "com.b" ∈ log rendered_over_stale
  ∧ exists_ (dir ++ ["0.png"]) (fs rendered_over_stale) = true
  ∧ lookup (dir ++ ["1.png"]) (fs rendered_over_stale)
    = Some (File some_bytes).
Proof.
  intros dir svg. split; [by vm_compute|]. split.
  { vm_compute. right. left. }
  split; [reflexivity|]. split; [reflexivity|]. split.
  { apply list_elem_of_In. vm_compute. tauto. }
  split; by vm_compute.
Qed.

End SampleRuns.
(** ** Removing entries *)

Module RemoveFacts.
Import FS FSFacts.

Lemma find_remove_eq c es : find c (remove c es) = None.
Proof.
  unfold remove. induction es as [|[k w] es IH]; [done|].
  rewrite filter_cons. simpl. destruct (decide (k ≠ c)) as [Hk|Hk].
  - simpl. by rewrite decide_False.
  - done.
Qed.

Lemma find_remove_ne c c' es : c ≠ c' → find c' (remove c es) = find c' es.
Proof.
  intros Hne. unfold remove. induction es as [|[k w] es IH]; [done|].
  rewrite filter_cons. simpl. destruct (decide (k ≠ c)) as [Hk|Hk].
  - simpl. by rewrite IH.
  - apply dec_stable in Hk as ->. by rewrite decide_False.
Qed.

(** The entries of a directory that is there can be rewritten. *)
Lemma alter_dir_Ok d f n es :
  lookup d n = Some (Dir es) → ∃ n', alter_dir d f n = Ok n'.
Proof.
  revert n; induction d as [|c d IH]; intros [b|es'] H; simpl in *;
    try done.
  - eauto.
  - destruct (find c es') as [child|]; [|done].
    destruct (IH _ H) as [child' ->]. simpl. eauto.
Qed.

(** What is at or below a removed entry is gone ... *)
Lemma alter_dir_remove_gone d c n n' q :
  alter_dir d (remove c) n = Ok n' → lookup (d ++ c :: q) n' = None.
Proof.
  intros (es & _ & H)%alter_dir_at. rewrite lookup_app, H. simpl.
  by rewrite find_remove_eq.
Qed.

(** ... what is elsewhere, the ancestors apart, is as it was ... *)
Lemma alter_dir_remove_frame d c n n' q :
  alter_dir d (remove c) n = Ok n' →
  ¬ q `prefix_of` d → ¬ (d ++ [c]) `prefix_of` q →
  lookup q n' = lookup q n.
Proof.
  revert n n' q; induction d as [|c0 d IH]; intros [b|es] n' q; simpl;
    try done.
  - intros [= <-] Hq Hc. destruct q as [|c1 q]; [destruct Hq; apply prefix_nil|].
    simpl. rewrite find_remove_ne; [done|].
    intros ->. apply Hc. by apply prefix_cons, prefix_nil.
  - destruct (find c0 es) as [child|] eqn:Hc0; [|done].
    destruct (alter_dir d _ child) as [child'|e] eqn:Hd; [|done].
    simpl. intros [= <-] Hq Hc.
    destruct q as [|c1 q]; [destruct Hq; apply prefix_nil|]. simpl.
    destruct (decide (c0 = c1)) as [->|Hne].
    + rewrite find_put_eq, Hc0. eapply IH; [done|..].
      * intros H. apply Hq. by apply prefix_cons.
      * intros H. apply Hc. by apply prefix_cons.
    + by rewrite find_put_ne.
Qed.

Lemma alter_dir_remove_sibling d c c' n n' q :
  alter_dir d (remove c) n = Ok n' → c ≠ c' →
  lookup (d ++ c' :: q) n' = lookup (d ++ c' :: q) n.
Proof.
  intros (es & H & H')%alter_dir_at Hne.
  rewrite !lookup_app, H, H'. simpl. by rewrite find_remove_ne.
Qed.

(** ... and nothing appears that was not there. *)
Lemma alter_dir_remove_absent d c n n' q :
  alter_dir d (remove c) n = Ok n' →
  lookup q n = None → lookup q n' = None.
Proof.
  revert n n' q; induction d as [|c0 d IH]; intros [b|es] n' q; simpl;
    try done.
  - intros [= <-]. destruct q as [|c1 q]; [done|]. simpl.
    destruct (decide (c = c1)) as [->|Hne].
    + by rewrite find_remove_eq.
    + by rewrite find_remove_ne.
  - destruct (find c0 es) as [child|] eqn:Hc0; [|done].
    destruct (alter_dir d _ child) as [child'|e] eqn:Hd; [|done].
    simpl. intros [= <-]. destruct q as [|c1 q]; [done|]. simpl.
    destruct (decide (c0 = c1)) as [->|Hne].
    + rewrite find_put_eq, Hc0. by eapply IH.
    + by rewrite find_put_ne.
Qed.

Lemma omap_ext_in {A B} (f g : A → option B) (l : list A) :
  (∀ x, x ∈ l → f x = g x) → omap f l = omap g l.
Proof.
  induction l as [|x l IH]; intros H; [done|].
  change (omap f (x :: l))
    with (match f x with Some y => y :: omap f l | None => omap f l end).
  change (omap g (x :: l))
    with (match g x with Some y => y :: omap g l | None => omap g l end).
  rewrite (H x (list_elem_of_here _ _)), IH; [done|].
  intros y Hy. apply H. by right.
Qed.

Lemma nonempty_snoc {A} (p : list A) : p ≠ [] → ∃ d c, p = d ++ [c].
Proof.
  destruct p as [|x p] using rev_ind; [done|]. intros _. eauto.
Qed.

End RemoveFacts.

(** ** Facts about [Cleaner.cleanup] *)

Module CleanerFacts.
Import FS FSFacts RemoveFacts RunSpec Cleaner.

(** One round of the loop never raises: the path is either absent and
    nothing happens, or it is unlinked from its parent directory and one
    line is printed, by what the path was. *)
Lemma remove_listed_snoc st d c :
  ∃ n', remove_listed st (d ++ [c])
          = Ok (State n'
                  (printed st ++
                   option_list (report (Cleaner.fs st) (d ++ [c]))))
        ∧ (lookup (d ++ [c]) (Cleaner.fs st) = None ∧ n' = Cleaner.fs st
           ∨ alter_dir d (remove c) (Cleaner.fs st) = Ok n').
Proof.
  unfold remove_listed, exists_, Os.isfile, Os.remove, rmtree, report.
  rewrite split_last_snoc.
  destruct (lookup (d ++ [c]) (Cleaner.fs st)) as [x|] eqn:Hx.
  - assert (∃ es, lookup d (Cleaner.fs st) = Some (Dir es)) as [es Hes].
    { rewrite lookup_app in Hx.
      destruct (lookup d (Cleaner.fs st)) as [[b|es]|]; try done. eauto. }
    destruct (alter_dir_Ok d (remove c) _ _ Hes) as [n' Hn'].
    exists n'. destruct x as [b|es']; rewrite Hn'; simpl; eauto.
  - exists (Cleaner.fs st). simpl. rewrite app_nil_r. destruct st; eauto.
Qed.

Lemma clean_up_nonempty current_dir :
  Forall (λ p, p ≠ []) (clean_up current_dir).
Proof.
  unfold clean_up. repeat constructor; by destruct current_dir.
Qed.

(** No listed path lies inside another. *)
Lemma clean_up_unrelated current_dir :
  ∀ i j p q, clean_up current_dir !! i = Some p →
             clean_up current_dir !! j = Some q → i ≠ j →
             ¬ p `prefix_of` q.
Proof.
  intros i j p q Hi Hj Hne Hpre. unfold clean_up in Hi, Hj.
  repeat (destruct i as [|i]; simpl in Hi; [injection Hi as <-|]);
    [..|done];
    (repeat (destruct j as [|j]; simpl in Hj; [injection Hj as <-|]);
     [..|done]); try done;
    apply prefix_app_inv in Hpre as [k Hk]; simplify_eq.
Qed.

(** The loop creates nothing. *)
Lemma remove_all_absent l st0 st q :
  Forall (λ p, p ≠ []) l → remove_all l st0 = Ok st →
  lookup q (Cleaner.fs st0) = None → lookup q (Cleaner.fs st) = None.
Proof.
  revert st0; induction l as [|file l IH]; intros st0 Hl.
  - by intros [= ->].
  - apply Forall_cons in Hl as [Hfile Hl].
    destruct (nonempty_snoc _ Hfile) as (d & c & ->).
    destruct (remove_listed_snoc st0 d c) as (n1 & Hstep & Hn1).
    simpl. rewrite Hstep. simpl. intros Hrest Hq.
    apply (IH _ Hl Hrest). simpl.
    destruct Hn1 as [[_ ->]|Hn1]; [done|].
    by eapply alter_dir_remove_absent.
Qed.

(** X1 When [Cleaner.cleanup] returns, none of the seven listed paths
    exists. *)
Theorem cleanup_removes_listed_paths (current_dir : path) (n : node)
    (cleaned : Cleaner.state) :
  cleanup current_dir n = Ok cleaned →
  ∀ p, p ∈ clean_up current_dir → lookup p (Cleaner.fs cleaned) = None.
Proof.
  unfold cleanup. intros Hdone.
  assert (∀ l st0, Forall (λ p, p ≠ []) l →
            ∃ st, remove_all l st0 = Ok st
                  ∧ ∀ p, p ∈ l → lookup p (Cleaner.fs st) = None) as Hloop.
  { induction l as [|file l IH]; intros st0 Hl.
    - exists st0. split; [done|]. by intros p ?%elem_of_nil.
    - apply Forall_cons in Hl as [Hfile Hl].
      destruct (nonempty_snoc _ Hfile) as (d & c & ->).
      destruct (remove_listed_snoc st0 d c) as (n1 & Hstep & Hn1).
      simpl. rewrite Hstep. simpl.
      match goal with
      | |- context [remove_all l ?s] =>
          destruct (IH s Hl) as (st & Hrun & Hgone)
      end.
      exists st. split; [exact Hrun|].
      intros p [->|Hp]%elem_of_cons; [|by auto].
      apply (remove_all_absent _ _ _ _ Hl Hrun). simpl.
      destruct Hn1 as [[H0 ->]|Hn1]; [done|].
      apply (alter_dir_remove_gone d c _ _ [] Hn1). }
  destruct (Hloop (clean_up current_dir) (State n [])
              (clean_up_nonempty current_dir)) as (st' & Hrun & Hgone).
  by assert (st' = cleaned) as -> by congruence.
Qed.

(** X2 [Cleaner.cleanup] touches nothing but the listed paths: whatever
    lies neither at or below a listed path nor above one is after the run
    what it was before. *)
Theorem cleanup_leaves_the_rest (current_dir : path) (n : node)
    (st : state) (q : path) :
  cleanup current_dir n = Ok st →
  (∀ p, p ∈ clean_up current_dir → unrelated p q) →
  lookup q (Cleaner.fs st) = lookup q n.
Proof.
  unfold cleanup. intros Hrun Hq.
  assert (∀ l st0, Forall (λ p, p ≠ []) l →
            (∀ p, p ∈ l → unrelated p q) →
            remove_all l st0 = Ok st →
            lookup q (Cleaner.fs st) = lookup q (Cleaner.fs st0)) as Hloop.
  { induction l as [|file l IH]; intros st0 Hl Hun.
    - by intros [= ->].
    - apply Forall_cons in Hl as [Hfile Hl].
      destruct (nonempty_snoc _ Hfile) as (d & c & ->).
      destruct (remove_listed_snoc st0 d c) as (n1 & Hstep & Hn1).
      simpl. rewrite Hstep. simpl. intros Hrest.
      rewrite (IH _ Hl (λ p Hp, Hun p (list_elem_of_further _ _ _ Hp))
                 Hrest). simpl.
      destruct Hn1 as [[_ ->]|Hn1]; [done|].
      destruct (Hun (d ++ [c]) (list_elem_of_here _ _)) as [H1 H2].
      eapply alter_dir_remove_frame; [exact Hn1| |exact H1].
      intros H. apply H2. by apply prefix_app_r. }
  exact (Hloop _ _ (clean_up_nonempty current_dir) Hq Hrun).
Qed.

(** X3 Running [Cleaner.cleanup] again right after a run changes
    nothing and prints no removal. *)
Theorem cleanup_twice (current_dir : path) (n : node) (st : state) :
  cleanup current_dir n = Ok st →
  cleanup current_dir (Cleaner.fs st) = Ok (State (Cleaner.fs st) []).
Proof.
  intros Hrun.
  assert (∀ p, p ∈ clean_up current_dir → lookup p (Cleaner.fs st) = None)
    as Hgone.
  { revert Hrun. unfold cleanup. generalize (State n []).
    generalize (clean_up_nonempty current_dir).
    induction (clean_up current_dir) as [|file l IH]; intros Hl st0.
    - by intros _ p ?%elem_of_nil.
    - apply Forall_cons in Hl as [Hfile Hl].
      destruct (nonempty_snoc _ Hfile) as (d & c & ->).
      destruct (remove_listed_snoc st0 d c) as (n1 & Hstep & Hn1).
      simpl. rewrite Hstep. simpl. intros Hrest p [->|Hp]%elem_of_cons;
        [|by eapply IH].
      apply (remove_all_absent _ _ _ _ Hl Hrest). simpl.
      destruct Hn1 as [[H0 ->]|Hn1]; [done|].
      apply (alter_dir_remove_gone d c _ _ [] Hn1). }
  assert (∀ l s, (∀ p, p ∈ l → lookup p (Cleaner.fs s) = None) →
            remove_all l s = Ok s) as Hidle.
  { induction l as [|file l IH]; intros s Hs; [done|].
    simpl. unfold remove_listed, exists_.
    rewrite (Hs file (list_elem_of_here _ _)). simpl.
    apply IH. intros p Hp. apply Hs. by right. }
  by apply Hidle.
Qed.

(** X4 When [Cleaner.cleanup] returns, it has printed one line for each
    listed path that existed before the run, in the order of the list,
    and the line says file or directory by what the path was. *)
Theorem cleanup_prints_what_it_removed (current_dir : path) (n : node)
    (cleaned : Cleaner.state) :
  cleanup current_dir n = Ok cleaned →
  printed cleaned = omap (report n) (clean_up current_dir).
Proof.
  unfold cleanup. intros Hdone.
  assert (∀ l st0,
            Forall (λ p, p ≠ []) l →
            (∀ i j p q, l !! i = Some p → l !! j = Some q → i ≠ j →
                        ¬ p `prefix_of` q) →
            ∃ n', remove_all l st0
                  = Ok (State n' (printed st0 ++
                                  omap (report (Cleaner.fs st0)) l)))
    as Hloop.
  { induction l as [|file l IH]; intros st0 Hl Hun.
    - exists (Cleaner.fs st0). simpl. rewrite app_nil_r. by destruct st0.
    - apply Forall_cons in Hl as [Hfile Hl].
      destruct (nonempty_snoc _ Hfile) as (d & c & ->).
      destruct (remove_listed_snoc st0 d c) as (n1 & Hstep & Hn1).
      simpl. rewrite Hstep. simpl.
      destruct (IH (State n1 (printed st0 ++
                       option_list (report (Cleaner.fs st0) (d ++ [c]))))
                  Hl) as (n' & Hrun).
      { intros i j p q Hi Hj Hne. apply (Hun (S i) (S j)); by auto. }
      exists n'. rewrite Hrun. simpl. f_equal. f_equal.
      rewrite <- List.app_assoc. f_equal.
      assert (omap (report n1) l = omap (report (Cleaner.fs st0)) l) as ->.
      { apply omap_ext_in. intros p [j Hj]%list_elem_of_lookup.
        unfold report.
        assert (lookup p n1 = lookup p (Cleaner.fs st0)) as ->; [|done].
        destruct Hn1 as [[_ ->]|Hn1]; [done|].
        eapply alter_dir_remove_frame; [exact Hn1|..].
        - intros H. apply (Hun (S j) 0%nat p (d ++ [c])); [done..|].
          by apply prefix_app_r.
        - by apply (Hun 0%nat (S j) (d ++ [c]) p). }
      by destruct (report (Cleaner.fs st0) (d ++ [c])). }
  destruct (Hloop (clean_up current_dir) (State n [])
              (clean_up_nonempty current_dir)
              (clean_up_unrelated current_dir)) as (n' & Hrun).
  rewrite Hrun in Hdone. by injection Hdone as <-.
Qed.

End CleanerFacts.
(** ** What the normalized table depends on *)

Module RowFacts.
Import Str StrFacts MappingProcessor MappingFacts ComponentSyntax TableFacts.

Lemma get_set {V} k k' (v : V) d :
  PyDict.get k' (PyDict.set k v d) =
  if decide (k = k') then Some v else PyDict.get k' d.
Proof.
  destruct (decide (k = k')) as [->|Hne].
  - apply PyDictFacts.get_set_eq.
  - by apply PyDictFacts.get_set_ne.
Qed.

(** Assigning to a key that is not there appends it. *)
Lemma set_fresh {V} k (v : V) d :
  k ∉ PyDict.keys d → PyDict.set k v d = d ++ [(k, v)].
Proof.
  unfold PyDict.keys. induction d as [|[k' v'] d IH]; simpl; [done|].
  intros [Hne Hk]%not_elem_of_cons. rewrite decide_False by done.
  by rewrite IH.
Qed.

(** What the loop leaves under a key depends on what was under that key
    before, and on nothing else of the dictionary. *)
Lemma fold_get_pointwise d d' items q :
  PyDict.get q d = PyDict.get q d' →
  PyDict.get q (foldl dedup_step d items)
  = PyDict.get q (foldl dedup_step d' items).
Proof.
  revert d d'; induction items as [|it items IH]; intros d d' H; [done|].
  simpl. apply IH. rewrite !dedup_step_extracted.
  destruct (extracted it) as [[p v]|]; [|done].
  rewrite !get_set. by destruct (decide (p = q)).
Qed.

(** A key that some item of the loop assigns does not depend on the
    dictionary the loop starts from. *)
Lemma fold_get_overwritten d d' items it p v :
  it ∈ items → extracted it = Some (p, v) →
  PyDict.get p (foldl dedup_step d items)
  = PyDict.get p (foldl dedup_step d' items).
Proof.
  intros (l1 & l2 & ->)%list_elem_of_split Hit.
  rewrite !foldl_app. simpl.
  apply fold_get_pointwise. rewrite !dedup_step_extracted, Hit.
  by rewrite !PyDictFacts.get_set_eq.
Qed.

(** A value found after the loop was there before or comes from an
    item. *)
Lemma fold_get_source d items p v :
  PyDict.get p (foldl dedup_step d items) = Some v →
  PyDict.get p d = Some v
  ∨ ∃ it, it ∈ items ∧ extracted it = Some (p, v).
Proof.
  revert d; induction items as [|x items IH]; intros d; [by left|].
  simpl. intros [H|(it & Hin & Hit)]%IH.
  - rewrite dedup_step_extracted in H.
    destruct (extracted x) as [[q u]|] eqn:Hx; [|by left].
    rewrite get_set in H. destruct (decide (q = p)) as [->|Hne];
      [|by left].
    injection H as ->. right. exists x. split; [left|done].
  - right. exists it. split; [by right|done].
Qed.

Lemma rows_extracted root p v :
  (p, v) ∈ normalized_rows root →
  ∃ it, it ∈ ET.findall "item" root ∧ extracted it = Some (p, v).
Proof.
  unfold normalized_rows. rewrite sorted_perm. intros Hin.
  apply PyDictFacts.get_Some in Hin; [|apply unique_packages_NoDup].
  apply fold_get_source in Hin as [Hin|Hin]; done.
Qed.

Lemma strongly_sorted_keys (l : list (string * (string * string))) :
  StronglySorted str_lt l.*1 →
  StronglySorted (λ x y, str_lt x.1 y.1) l.
Proof.
  induction l as [|x l IH]; [constructor|].
  rewrite fmap_cons. intros [Hall Hs]%StronglySorted_cons.
  constructor; [by apply IH|]. rewrite Forall_fmap in Hall. exact Hall.
Qed.

(** Two dictionaries that agree on every key are sorted into the same
    rows. *)
Lemma sorted_determined (d d' : PyDict.t (string * string)) :
  NoDup (PyDict.keys d) → NoDup (PyDict.keys d') →
  (∀ p, PyDict.get p d = PyDict.get p d') →
  sorted (PyDict.items d) = sorted (PyDict.items d').
Proof.
  intros Hd Hd' Hget.
  assert (PyDict.items d ≡ₚ PyDict.items d') as Hperm.
  { apply NoDup_Permutation.
    - by apply (NoDup_fmap_1 fst).
    - by apply (NoDup_fmap_1 fst).
    - intros [k v]. rewrite <- !PyDictFacts.get_Some by done.
      by rewrite Hget. }
  assert (∀ l, NoDup l.*1 →
            StronglySorted (λ x y, str_lt x.1 y.1) (sorted l)) as Hs.
  { intros l Hl. apply strongly_sorted_keys, sorted_packages_increasing.
    - by rewrite sorted_perm.
    - apply Sorted_merge_sort, _. }
  eapply (StronglySorted_unique_strong (λ x y, str_lt x.1 y.1)).
  - intros x y _ _ Hxy Hyx. by destruct (str_lt_asym _ _ Hxy).
  - by apply Hs.
  - by apply Hs.
  - by rewrite !sorted_perm.
Qed.

(** X5 Every row of the normalized table comes from a source item: the
    row's name and drawable are those of an item whose component reads
    [ComponentInfo{<package>/...}] for the row's package; the package is
    not empty and holds no [/], and the drawable is not empty. *)
Theorem row_comes_from_an_item (root : list ET.element)
    (package name drawable : string) :
  (package, (name, drawable)) ∈ normalized_rows root →
  package ≠ EmptyString ∧ mem "/" package = false
  ∧ drawable ≠ EmptyString
  ∧ ∃ item, item ∈ ET.findall "item" root
            ∧ ET.get_or_empty item "name" = name
            ∧ ET.get_or_empty item "drawable" = drawable
            ∧ parses_as (ET.get_or_empty item "component") package.
Proof.
  intros (item & Hin & Hit)%rows_extracted.
  rewrite extracted_spec in Hit. simpl in Hit.
  destruct (nonempty (ET.get_or_empty item "component")
            && nonempty (ET.get_or_empty item "drawable")) eqn:Hne;
    [|done].
  apply andb_true_iff in Hne as [_ Hd%nonempty_true].
  destruct (package_of (ET.get_or_empty item "component")) as [p|] eqn:Hp;
    [|done].
  injection Hit as -> <- <-.
  apply package_of_Some in Hp as Hparse.
  destruct Hparse as (mid & rest & Hc & Hne & Hslash & Hnl).
  repeat split; try done.
  exists item. repeat split; try done.
  by exists mid, rest.
Qed.

(** X6 When no two source items yield the same package, the order of
    the source items does not matter: a permuted source table gives the
    same normalized file, byte for byte. *)
Theorem source_order_does_not_matter (root root' : list ET.element) :
  ET.findall "item" root ≡ₚ ET.findall "item" root' →
  NoDup (omap extracted (ET.findall "item" root)).*1 →
  convert_icon_mapper root = convert_icon_mapper root'.
Proof.
  intros Hperm Hnd. unfold convert_icon_mapper, normalized_rows.
  f_equal. apply sorted_determined; try apply unique_packages_NoDup.
  assert (∀ items p v,
            NoDup (omap extracted items).*1 →
            PyDict.get p (foldl dedup_step PyDict.empty items) = Some v
            ↔ (p, v) ∈ omap extracted items) as Hchar.
  { intros items p v Hitems.
    assert (∀ u, (p, u) ∈ omap extracted items →
              PyDict.get p (foldl dedup_step PyDict.empty items) = Some u)
      as Hback.
    { intros u (it & Hin & Hit)%list_elem_of_omap.
      apply list_elem_of_split in Hin as (pre & post & ->).
      rewrite foldl_app. simpl.
      rewrite unique_packages_fold_untouched.
      - rewrite dedup_step_extracted, Hit. apply PyDictFacts.get_set_eq.
      - intros it' v' Hin' Hit'.
        rewrite omap_app in Hitems. simpl in Hitems. rewrite Hit in Hitems.
        rewrite fmap_app, fmap_cons in Hitems.
        apply NoDup_app in Hitems as (_ & _ & Hpost).
        apply NoDup_cons in Hpost as [Hpost _]. apply Hpost.
        apply (list_elem_of_fmap_2 fst _ (p, v')).
        apply list_elem_of_omap. eauto. }
    split; [|by apply Hback]. intros Hget.
    assert (p ∈ PyDict.keys (foldl dedup_step PyDict.empty items)) as Hk.
    { apply dec_stable. intros Hk%PyDictFacts.get_None. congruence. }
    apply unique_packages_fold_keys in Hk
      as [Hk|(it & v' & Hin & Hit)]; [by apply elem_of_nil in Hk|].
    assert ((p, v') ∈ omap extracted items) as Hv'
      by (apply list_elem_of_omap; eauto).
    rewrite (Hback _ Hv') in Hget. by injection Hget as <-. }
  intros p. unfold unique_packages. apply option_eq. intros v.
  rewrite !Hchar; [by rewrite Hperm|by rewrite <- Hperm|done].
Qed.

(** X7 An item that is skipped, or whose package is yielded again by
    a later item, can be taken out of the source table without changing
    the normalized file. *)
Theorem shadowed_item_does_not_matter (root root' : list ET.element)
    (pre post : list ET.element) (item : ET.element) :
  ET.findall "item" root = pre ++ item :: post →
  ET.findall "item" root' = pre ++ post →
  (∀ p v, extracted item = Some (p, v) →
          ∃ later v', later ∈ post ∧ extracted later = Some (p, v')) →
  convert_icon_mapper root = convert_icon_mapper root'.
Proof.
  intros Hroot Hroot' Hshadow. unfold convert_icon_mapper, normalized_rows.
  f_equal. apply sorted_determined; try apply unique_packages_NoDup.
  intros q. unfold unique_packages. rewrite Hroot, Hroot', !foldl_app.
  simpl. rewrite dedup_step_extracted.
  destruct (extracted item) as [[p v]|] eqn:Hit; [|done].
  destruct (Hshadow p v eq_refl) as (later & v' & Hin & Hlater).
  destruct (decide (p = q)) as [<-|Hne].
  - by eapply fold_get_overwritten.
  - apply fold_get_pointwise. by apply PyDictFacts.get_set_ne.
Qed.

End RowFacts.
(** ** Reading the mapping file back *)

Module MapperFacts.
Import Str StrFacts MappingProcessor MappingFacts TableFacts RowFacts.
Import IconProcessor MapperSpec.

Lemma parse_icon_mapper_fold root :
  parse_icon_mapper root =
  foldl (λ d item, match entry_of item with
                   | Some (package, drawable) =>
                       PyDict.set package drawable d
                   | None => d
                   end)
        PyDict.empty (ET.findall "item" root).
Proof.
  unfold parse_icon_mapper. generalize (PyDict.empty (V:=string)).
  induction (ET.findall "item" root) as [|it l IH]; intros d; [done|].
  simpl. rewrite IH. f_equal. unfold entry_of.
  destruct (ET.get it "package"), (ET.get it "drawable"); try done.
  by destruct (_ && _).
Qed.

Lemma entry_of_new_item package name drawable :
  entry_of (new_item (package, (name, drawable))) =
  if nonempty package && nonempty drawable then Some (package, drawable)
  else None.
Proof.
  unfold entry_of, new_item, ET.get. by simpl.
Qed.

Lemma findall_new_items rows :
  ET.findall "item" (new_item <$> rows) = new_item <$> rows.
Proof.
  unfold ET.findall. induction rows as [|[p [n d]] rows IH]; [done|].
  rewrite fmap_cons, filter_cons_True by done. by rewrite IH.
Qed.

(** X8 Reading the normalized table back gives one entry per row, in
    the order of the rows: [generate_icons] visits every package of the
    table once, in sorted order, with the drawable of its row. *)
Theorem mapper_of_normalized_table (root : list ET.element) :
  PyDict.items (parse_icon_mapper (new_root root))
  = entry_of_row <$> normalized_rows root.
Proof.
  rewrite parse_icon_mapper_fold. unfold new_root.
  rewrite findall_new_items.
  assert (NoDup (normalized_rows root).*1) as Hnd.
  { unfold normalized_rows. rewrite sorted_perm.
    apply unique_packages_NoDup. }
  assert (Forall (λ row, nonempty row.1 && nonempty row.2.2 = true)
            (normalized_rows root)) as Hne.
  { apply Forall_forall. intros [p [n d]] (it & _ & Hit)%rows_extracted.
    rewrite extracted_spec in Hit. simpl in Hit.
    destruct (nonempty (ET.get_or_empty it "component")
              && nonempty (ET.get_or_empty it "drawable")) eqn:Hcd;
      [|done].
    apply andb_true_iff in Hcd as [_ Hd].
    destruct (ComponentSyntax.package_of _) as [q|] eqn:Hq; [|done].
    injection Hit as -> <- <-. simpl. rewrite Hd, andb_true_r.
    apply nonempty_true. by eapply package_of_nonempty. }
  unfold PyDict.items.
  change (entry_of_row <$> normalized_rows root)
    with (PyDict.empty ++ (entry_of_row <$> normalized_rows root)).
  assert (∀ p, p ∈ (normalized_rows root).*1 →
               p ∉ PyDict.keys (PyDict.empty (V:=string))) as Hfresh
    by (intros p _ ?%elem_of_nil; done).
  revert Hnd Hne Hfresh. generalize (PyDict.empty (V:=string)).
  induction (normalized_rows root) as [|[p [n d]] rows IH];
    intros acc Hnd Hne Hfresh.
  - simpl. by rewrite app_nil_r.
  - apply NoDup_cons in Hnd as [Hp Hnd].
    apply Forall_cons in Hne as [Hpd Hne].
    rewrite !fmap_cons. cbn [foldl]. simpl in Hpd.
    rewrite entry_of_new_item, Hpd.
    rewrite set_fresh by (apply Hfresh; left).
    rewrite IH; [by rewrite <- List.app_assoc|done..|].
    intros q Hq. unfold PyDict.keys. rewrite fmap_app.
    intros [Hin| ->%list_elem_of_singleton]%elem_of_app; [|done].
    apply (Hfresh q); [by right|done].
Qed.

(** X9 The dictionary [parse_icon_mapper] builds: a package is a key
    exactly when some item carries it, not empty, with a drawable that is
    not empty; no key occurs twice; and the drawable kept is that of the
    last such item. *)
Theorem mapper_entries (root : list ET.element) :
  let mapper := parse_icon_mapper root in
  NoDup (PyDict.keys mapper)
  ∧ (∀ p, p ∈ PyDict.keys mapper ↔
          ∃ item d, item ∈ ET.findall "item" root
                    ∧ entry_of item = Some (p, d))
  ∧ (∀ pre item post p d,
       ET.findall "item" root = pre ++ item :: post →
       entry_of item = Some (p, d) →
       (∀ it d', it ∈ post → entry_of it ≠ Some (p, d')) →
       PyDict.get p mapper = Some d)
  ∧ (∀ item p d,
       entry_of item = Some (p, d) ↔
       ET.get item "package" = Some p ∧ ET.get item "drawable" = Some d
       ∧ p ≠ EmptyString ∧ d ≠ EmptyString).
Proof.
  intros mapper. unfold mapper. rewrite parse_icon_mapper_fold.
  set (step := λ (d : PyDict.t string) item,
         match entry_of item with
         | Some (package, drawable) => PyDict.set package drawable d
         | None => d
         end).
  split; [|split; [|split]].
  - assert (NoDup (PyDict.keys (PyDict.empty (V:=string)))) as H
      by constructor.
    revert H. generalize (PyDict.empty (V:=string)).
    induction (ET.findall "item" root) as [|it l IH]; intros acc Hacc;
      [done|].
    simpl. apply IH. unfold step.
    destruct (entry_of it) as [[p d]|]; [|done].
    by apply PyDictFacts.keys_set_NoDup.
  - intros p.
    assert (∀ acc l, p ∈ PyDict.keys (foldl step acc l) ↔
              p ∈ PyDict.keys acc
              ∨ ∃ item d, item ∈ l ∧ entry_of item = Some (p, d)) as Hk.
    { intros acc l. revert acc.
      induction l as [|it l IH]; intros acc; cbn [foldl].
      - split; [by left|]. intros [?|(? & ? & ?%elem_of_nil & _)]; done.
      - rewrite IH. unfold step.
        destruct (entry_of it) as [[q d]|] eqn:E.
        + rewrite PyDictFacts.keys_set. split.
          * intros [[->|?]|(it' & d' & ? & ?)]; [right|by left|right].
            -- exists it, d. split; [left|done].
            -- exists it', d'. split; [by right|done].
          * intros [?|(it' & d' & [->|?]%elem_of_cons & E')];
              [by auto|..].
            -- left; left. congruence.
            -- right. eauto.
        + split.
          * intros [?|(it' & d' & ? & ?)]; [by left|right].
            exists it', d'. split; [by right|done].
          * intros [?|(it' & d' & [->|?]%elem_of_cons & E')];
              [by auto|..].
            -- congruence.
            -- right. eauto. }
    rewrite Hk. split; [|by right].
    intros [?%elem_of_nil|?]; done.
  - intros pre item post p d -> Hit Hpost. rewrite foldl_app.
    cbn [foldl].
    assert (∀ acc, PyDict.get p (foldl step acc post) = PyDict.get p acc)
      as Hkeep.
    { induction post as [|it post IH]; intros acc; [done|].
      cbn [foldl]. rewrite IH by (intros it' d'' Hin'; apply Hpost; by right).
      unfold step. destruct (entry_of it) as [[q d']|] eqn:E; [|done].
      apply PyDictFacts.get_set_ne. intros ->.
      apply (Hpost it d'); [left|done]. }
    rewrite Hkeep. unfold step. rewrite Hit.
    apply PyDictFacts.get_set_eq.
  - intros item p d. unfold entry_of.
    destruct (ET.get item "package") as [p'|],
             (ET.get item "drawable") as [d'|];
      try (split; [done|by intros (? & ? & _)]).
    destruct (nonempty p') eqn:Hp, (nonempty d') eqn:Hd; simpl.
    + apply nonempty_true in Hp, Hd. split.
      * by intros [= -> ->].
      * by intros ([= ->] & [= ->] & _).
    + apply nonempty_false in Hd as ->. split; [done|].
      by intros (_ & [= <-] & _ & ?).
    + apply nonempty_false in Hp as ->. split; [done|].
      by intros ([= <-] & _ & ? & _).
    + apply nonempty_false in Hp as ->. split; [done|].
      by intros ([= <-] & _ & ? & _).
Qed.

End MapperFacts.
(** ** The layers and the output tree *)

Module RenderFacts.
Import FS FSFacts Img ImgFacts Run RunSpec IconProcessor ProcessFacts.
Import GenerateFacts Recolour.

Section externals.
Variable svg2png : FS.bytes → Z → Z → option image.
Variable getrgb : string → result (list Z).
Variable blend : pixel → pixel → pixel.
Variable png_encode : image → FS.bytes.

Notation process_svg := (process_svg svg2png getrgb blend).
Notation process_entry := (process_entry svg2png getrgb blend png_encode).
Notation generate_icons := (generate_icons svg2png getrgb blend png_encode).

(** X10 For a colour that [getrgb] reads as an RGB triple, the canvas
    that [create_background] returns is a square of the requested size
    whose every pixel is that colour, fully opaque. *)
Theorem background_is_uniform_and_opaque (icon_size : Z) (color : string)
    (r g b : Z) (bg : image) :
  getrgb color = Ok [r; g; b] →
  create_background getrgb icon_size color = Ok bg →
  0 ≤ icon_size
  ∧ width bg = icon_size ∧ height bg = icon_size
  ∧ length (data bg) = Z.to_nat (icon_size * icon_size)
  ∧ (∀ px, px ∈ data bg → px = (r, g, b, 255))
  ∧ ∀ x y, 0 ≤ x < icon_size → 0 ≤ y < icon_size →
           getpixel bg x y = Some (r, g, b, 255).
Proof.
  intros Hrgb Hbg. unfold create_background in Hbg.
  destruct (check_size icon_size icon_size) as [[]|e] eqn:Hc; [|done].
  rewrite Hrgb in Hbg. cbn [result_bind ink_of_tuple] in Hbg.
  assert (new icon_size icon_size (r, g, b, 255) = Ok bg) as Hnew
    by (unfold new; by rewrite Hc).
  pose proof Hnew as (Hsize & _ & Hw & Hh & Hd)%new_Ok.
  split; [done|]. split; [done|]. split; [done|].
  split; [by rewrite Hd, length_replicate|]. split.
  - rewrite Hd. by intros px [-> _]%elem_of_replicate.
  - intros x y Hx Hy. by apply (getpixel_new _ _ _ _ _ _ Hnew).
Qed.

(** X11 However it ends, [process_svg] leaves the file system as it
    is.  With a side that can be computed, it returns nothing exactly
    when the file cannot be read or the rasterizer refuses it, printing
    the error after the rasterizer call; and an image it returns has the
    canvas size, whatever the size of the glyph the rasterizer handed
    back. *)
Theorem process_svg_outcome (w w' : world) (svg_path : path) (fg : string)
    (icon_size : Z) (icon_scale : PyFloat.float)
    (r : result (option image)) :
  process_svg svg_path fg icon_size icon_scale w = (r, w') →
  fs w' = fs w
  ∧ ∀ side, PyFloat.int_of_product icon_size icon_scale = Ok side →
      (r = Ok None ↔ glyph_at svg2png (fs w) svg_path side = None)
      ∧ log w' = log w ++ DidRasterize svg_path ::
                   match r with
                   | Ok None => [MsgSvgError svg_path]
                   | _ => []
                   end
      ∧ ∀ img, r = Ok (Some img) →
          width img = icon_size ∧ height img = icon_size
          ∧ length (data img) = Z.to_nat (icon_size * icon_size).
Proof.
  intros Hrun.
  destruct (PyFloat.int_of_product icon_size icon_scale) as [side|e]
    eqn:Hside.
  2:{ unfold IconProcessor.process_svg, bind, lift in Hrun.
      rewrite Hside in Hrun. injection Hrun as <- <-.
      split; [done|]. by intros side. }
  rewrite (process_svg_run _ _ _ _ _ _ _ _ _ Hside) in Hrun.
  cbv zeta in Hrun.
  assert (∀ side', Ok side = Ok side' → side' = side) as Hsame
    by (by intros side' [= <-]).
  unfold glyph_at.
  destruct (match read_file svg_path (fs w) with
            | Ok b0 => svg2png b0 side side
            | Raise _ => None
            end) as [glyph|] eqn:Hglyph.
  - injection Hrun as <- <-. cbn [fs log]. split; [done|].
    intros side' ->%Hsame. rewrite Hglyph.
    destruct (new icon_size icon_size (0, 0, 0, 0)) as [canvas|e] eqn:Hnew;
      cbn [result_bind]; [|by split; [|split]].
    destruct (paste blend canvas glyph _ _) as [pasted|e] eqn:Hpaste;
      cbn [result_bind]; [|by split; [|split]].
    destruct (IconProcessor.recolor getrgb fg pasted) as [im|e] eqn:Hrec;
      cbn [result_bind]; [|by split; [|split]].
    split; [done|]. split; [done|]. intros img [= <-].
    apply recolor_shape in Hrec as (-> & -> & ->).
    apply paste_size in Hpaste as (_ & -> & -> & ->).
    apply new_Ok in Hnew as (_ & _ & -> & -> & ->).
    by rewrite length_replicate.
  - injection Hrun as <- <-. cbn [fs log]. split; [done|].
    intros side' ->%Hsame. rewrite Hglyph, <- List.app_assoc.
    by split; [|split].
Qed.


(** X13 After a completed run on an output directory that was absent
    or empty, the names found in the output directory are exactly the
    packages of the mapping whose asset exists: nothing else is there. *)
Theorem output_directory_listing (root : list ET.element)
    (svg_dir out : path) (fg bg_color : string) (icon_size : Z)
    (icon_scale : PyFloat.float) (w w' : world) :
  generate_icons root svg_dir out fg bg_color icon_size icon_scale w
    = (Ok (), w') →
  plain_mapper (parse_icon_mapper root) →
  unrelated svg_dir out →
  (∀ name, lookup (out ++ [name]) (fs w) = None) →
  ∀ name,
    exists_ (out ++ [name]) (fs w') = true ↔
    ∃ drawable,
      (name, drawable) ∈ PyDict.items (parse_icon_mapper root)
      ∧ exists_ (svg_dir ++ [drawable +:+ ".svg"]) (fs w) = true.
Proof.
  intros Hrun _ Hun Hempty name.
  pose proof (parse_icon_mapper_NoDup root) as Hnd.
  destruct (decide (name ∈ PyDict.keys (parse_icon_mapper root)))
    as [Hkey|Hkey].
  - apply list_elem_of_fmap in Hkey as ([name' drawable] & -> & Hin).
    simpl.
    destruct (generate_icons_round _ _ _ _ _ _ _ _ _ _ _ _ _ _ _
                Hrun Hin Hun)
      as (bg & w1 & c1 & w2 & c2 & _ & K1 & Hround & K2).
    assert (∀ d', (name', d') ∈ PyDict.items (parse_icon_mapper root) →
                  d' = drawable) as Huniq.
    { intros d' Hin'.
      apply PyDictFacts.get_Some in Hin, Hin'; [|done..]. congruence. }
    destruct (exists_ (svg_dir ++ [drawable +:+ ".svg"]) (fs w)) eqn:Hex.
    + pose proof Hex as Hex1.
      rewrite <- (keeps_exists _ _ _ _ _ K1) in Hex1.
      destruct K1 as (L1 & _). destruct K2 as (L2 & _).
      eapply process_entry_present in Hround as (side & _ & Hcase);
        [|done|by rewrite L1|done].
      split; [intros _; by exists drawable|].
      intros _. unfold exists_. rewrite L2.
      destruct (glyph_at _ _ _ _).
      * by destruct Hcase as (img & _ & _ & _ & -> & _).
      * by destruct Hcase as (_ & -> & _).
    + rewrite process_entry_missing in Hround
        by (by rewrite (keeps_exists _ _ _ _ _ K1)).
      injection Hround as _ <-.
      destruct K1 as (L1 & _). destruct K2 as (L2 & _). simpl in L2.
      unfold exists_ at 1. rewrite L2, L1, Hempty. split; [done|].
      intros (d' & Hin' & Hex'). rewrite (Huniq d' Hin') in Hex'.
      congruence.
  - apply generate_icons_Ok in Hrun
      as (n0 & bg & count & w2 & Hmk & _ & Hloop & ->).
    eapply loop_keeps in Hloop as (L & _); [|done..]. simpl in *.
    unfold exists_ at 1. rewrite L.
    rewrite (makedirs_in_frame _ _ _ _ Hmk) by apply not_prefix_snoc_self.
    rewrite Hempty. split; [done|]. intros (d & Hin & _).
    destruct Hkey. by apply (list_elem_of_fmap_2 fst) in Hin.
Qed.

End externals.

End RenderFacts.
(** ** ThemePacker: what the icons archive is made of *)

Module ArchiveFacts.
Import Str StrFacts FS FSFacts RemoveFacts Run RunSpec ThemePacker Tree.
Import PackerSpec GenerateFacts PackerFacts.

#[local] Arguments String.append : simpl nomatch.

(** Of two paths inside two directories that lie apart, neither lies
    inside the other. *)
Lemma apart p q s t :
  unrelated p q → p `prefix_of` s → q `prefix_of` t →
  ¬ s `prefix_of` t ∧ ¬ t `prefix_of` s.
Proof.
  intros [Hpq Hqp] Hs Ht. split; intros H.
  - destruct (prefix_weak_total p q t); [by etrans|done..].
  - destruct (prefix_weak_total p q s); [done|by etrans|done..].
Qed.

Lemma unrelated_sym p q : unrelated p q → unrelated q p.
Proof. by intros [??]. Qed.

(** A chain of directories made where nothing was ends in an empty
    directory. *)
Lemma makedirs_in_fresh p n n' :
  p ≠ [] → lookup p n = None → makedirs_in p n = Ok n' →
  lookup p n' = Some (Dir []).
Proof.
  revert n n'; induction p as [|c p IH]; intros [b|es] n' Hp Hnone;
    simpl in *; try done.
  destruct (makedirs_in p _) as [child'|e] eqn:Hd; [|done].
  simpl. intros [= <-]. simpl. rewrite find_put_eq.
  destruct p as [|c' p].
  - destruct (find c es) as [child|]; [done|]. simpl in Hd.
    by injection Hd as <-.
  - apply (IH _ _ ltac:(done)) in Hd; [done|].
    destruct (find c es) as [child|]; [done|]. by apply lookup_nil_Dir.
Qed.

Lemma rmtree_snoc d c n n' :
  rmtree (d ++ [c]) n = Ok n' → alter_dir d (remove c) n = Ok n'.
Proof.
  unfold rmtree. rewrite split_last_snoc.
  by destruct (lookup (d ++ [c]) n) as [[b|es]|].
Qed.

(** [copytree] puts a copy of the source tree at the destination, which
    was not there, and changes nothing else. *)
Lemma copytree_snoc src d c n n' :
  copytree src (d ++ [c]) n = Ok n' →
  ∃ es, lookup src n = Some (Dir es)
        ∧ lookup (d ++ [c]) n = None
        ∧ lookup (d ++ [c]) n' = Some (Dir es)
        ∧ ∀ q, ¬ q `prefix_of` d → ¬ (d ++ [c]) `prefix_of` q →
               lookup q n' = lookup q n.
Proof.
  unfold copytree. destruct (lookup src n) as [[b|es]|]; [done| |done].
  rewrite split_last_snoc.
  destruct (lookup (d ++ [c]) n) as [x|] eqn:Hdst; [done|].
  destruct (makedirs_in d n) as [n0|e] eqn:Hmk; [|done]. simpl.
  intros Hput. exists es. split; [done|]. split; [done|].
  split; [by eapply alter_dir_put_same|].
  intros q Hq Hq'. rewrite (alter_dir_put_frame _ _ _ _ _ _ Hput Hq Hq').
  by apply (makedirs_in_frame d).
Qed.

Lemma rename_file_snoc d c dst n n' :
  rename_file (d ++ [c]) dst n = Ok n' →
  ∃ b n0, lookup (d ++ [c]) n = Some (File b)
          ∧ write_file dst b n = Ok n0
          ∧ alter_dir d (remove c) n0 = Ok n'.
Proof.
  unfold rename_file. rewrite split_last_snoc.
  destruct (lookup (d ++ [c]) n) as [[b'|es]|]; [|done..].
  destruct (write_file dst b' n) as [n0|e] eqn:Hw; [|done]. simpl.
  intros H. by exists b', n0.
Qed.

Lemma lookup_reaches rel d m : lookup rel d = Some m → reaches d rel m.
Proof.
  revert d; induction rel as [|c rel IH]; intros d; simpl.
  - intros [= ->]. constructor.
  - destruct d as [b|es]; [done|].
    destruct (find c es) as [child|] eqn:Hc; [|done]. intros H.
    econstructor; [by apply find_elem_of|by apply IH].
Qed.

(** A file found by its path is a file of the tree, with the bytes read
    at that path. *)
Lemma lookup_has_file top rel file n d b :
  lookup top n = Some d →
  lookup (top ++ rel ++ [file]) n = Some (File b) →
  has_file d rel file ∧ content_at n (top ++ rel ++ [file]) = b.
Proof.
  intros Hd H. split; [|by unfold content_at; rewrite H].
  rewrite lookup_app, Hd, lookup_app in H.
  destruct (lookup rel d) as [m|] eqn:Hm; [|done].
  destruct m as [b'|es]; [done|]. simpl in H.
  destruct (find file es) as [x|] eqn:Hx; [|done]. injection H as ->.
  exists es, b. split; [by apply lookup_reaches|by apply find_elem_of].
Qed.

Section externals.
Variable zip_encode : archive → bytes.
Variable zip_partial : archive → bytes.

Notation zip_write := (zip_write zip_partial).
Notation zip_walk := (zip_walk zip_partial).
Notation zip_tree := (zip_tree zip_encode zip_partial).
Notation pack_icons_zip := (pack_icons_zip zip_encode zip_partial).
Notation pack_magisk_module := (pack_magisk_module zip_encode zip_partial).

(** Members are only ever added at the end. *)
Lemma zip_write_grows self top n rel zf fs :
  ∃ k, foldl (zip_write self top n rel) zf fs = zf ++ k.
Proof.
  revert zf; induction fs as [|f fs IH]; intros zf.
  - exists []. by rewrite app_nil_r.
  - cbn [foldl]. destruct (IH (zip_write self top n rel zf f)) as [k ->].
    unfold ThemePacker.zip_write. eexists. by rewrite <- List.app_assoc.
Qed.

Lemma zip_rounds_grow self top (skip : string → bool) n
    (ys : list (path * list string * list string)) (zf : archive) :
  ∃ k, foldl (λ zf '(rel, _, files),
                if skip (path_str (top ++ rel)) then zf
                else foldl (zip_write self top n rel) zf files) zf ys
       = zf ++ k.
Proof.
  revert zf; induction ys as [|[[rel ds] fs] ys IH]; intros zf.
  - exists []. by rewrite app_nil_r.
  - cbn [foldl]. destruct (skip _); [apply IH|].
    destruct (zip_write_grows self top n rel zf fs) as [k1 ->].
    destruct (IH (zf ++ k1)) as [k2 ->].
    eexists. by rewrite <- List.app_assoc.
Qed.

(** Every file of a directory that is not skipped becomes a member: with
    the bytes found at its path, or, for the archive itself, with what
    the archive holds at that moment. *)
Lemma zip_write_member self top n rel zf fs file :
  file ∈ fs →
  ∃ before,
    (relpath rel file,
     if decide (top ++ rel ++ [file] = self) then zip_partial before
     else content_at n (top ++ rel ++ [file]))
    ∈ foldl (zip_write self top n rel) zf fs.
Proof.
  intros (l1 & l2 & ->)%list_elem_of_split. rewrite foldl_app.
  cbn [foldl]. set (zf1 := foldl _ zf l1).
  destruct (zip_write_grows self top n rel
              (zip_write self top n rel zf1 file) l2) as [k ->].
  exists zf1. unfold ThemePacker.zip_write at 1, content_at.
  rewrite <- List.app_assoc. apply elem_of_app. right. left.
Qed.

Lemma zip_walk_member self top (skip : string → bool) n d rel file :
  lookup top n = Some d → has_file d rel file →
  skip (path_str (top ++ rel)) = false →
  ∃ before,
    (relpath rel file,
     if decide (top ++ rel ++ [file] = self) then zip_partial before
     else content_at n (top ++ rel ++ [file]))
    ∈ zip_walk self top skip n.
Proof.
  intros Hd (es & b & Hr & Hf) Hskip.
  unfold ThemePacker.zip_walk, walk. rewrite Hd.
  assert ((rel, subdirs es, FS.files es) ∈ walk_from [] d) as Hin
    by (apply elem_of_walk_from; by exists rel, es).
  apply list_elem_of_split in Hin as (l1 & l2 & ->).
  rewrite foldl_app. cbn [foldl]. rewrite Hskip.
  match goal with
  | |- context [foldl ?f [] l1] => set (zf1 := foldl f [] l1)
  end.
  destruct (zip_write_member self top n rel zf1 (FS.files es) file)
    as [before Hbefore]; [apply elem_of_files; eauto|].
  match goal with
  | |- context [foldl ?f ?a l2] =>
      destruct (zip_rounds_grow self top skip n l2 a) as [k Hk]
  end.
  exists before. rewrite Hk. apply elem_of_app. by left.
Qed.

Lemma zip_tree_Ok target top skip w w' :
  zip_tree target top skip w = (Ok (), w') →
  ∃ n3, write_file target [] (fs w) = Ok n3
        ∧ write_file target (zip_encode (zip_walk target top skip n3)) n3
          = Ok (fs w')
        ∧ log w' = log w.
Proof.
  unfold ThemePacker.zip_tree. intros H.
  apply bind_Ok in H as (? & w3 & Hcreate & H).
  apply update_Ok in Hcreate as [Hcreate Hlog3].
  apply bind_Ok in H as (members & w4 & Hask & H).
  injection Hask as <- <-.
  apply update_Ok in H as [Hfinal Hlog]. exists (fs w3).
  split; [done|]. split; [done|]. congruence.
Qed.

(** The steps of a completed [pack_icons_zip], one after the other. *)
Lemma pack_icons_zip_steps out templ_a templ_b w w1 :
  pack_icons_zip out templ_a templ_b w = (Ok (), w1) →
  let drawable := templ_a ++ ["res"; "drawable-xxhdpi"] in
  let temp := templ_a ++ ["icons.zip"] in
  ∃ na nb wc n3 n4 n5,
    (if exists_ drawable (fs w) then rmtree drawable (fs w) = Ok na
     else na = fs w)
    ∧ mkdir_parents drawable na = Ok nb
    ∧ copy_package_dirs out drawable (World nb (log w)) = (Ok (), wc)
    ∧ write_file temp [] (fs wc) = Ok n3
    ∧ write_file temp
        (zip_encode (zip_walk temp templ_a (λ _, false) n3)) n3 = Ok n4
    ∧ rename_file temp (templ_a ++ ["icons"]) n4 = Ok n5
    ∧ FS.copy (templ_a ++ ["icons"]) templ_b n5 = Ok (fs w1).
Proof.
  unfold ThemePacker.pack_icons_zip. intros H.
  apply bind_Ok in H as (present & w0 & Hask & H).
  injection Hask as <- <-.
  apply bind_Ok in H as ([] & wa & Hclear & H).
  apply bind_Ok in H as ([] & wb & Hmk & H).
  apply update_Ok in Hmk as [Hmk Hlogb].
  apply bind_Ok in H as ([] & wc & Hcopy & H).
  apply bind_Ok in H as ([] & we & Hzip & H).
  apply zip_tree_Ok in Hzip as (n3 & Hcreate & Hfill & Hloge).
  apply bind_Ok in H as ([] & wf & Hren & H).
  apply update_Ok in Hren as [Hren Hlogf].
  apply update_Ok in H as [H _].
  exists (fs wa), (fs wb), wc, n3, (fs we), (fs wf).
  assert (log wa = log w) as Hloga.
  { destruct (exists_ _ (fs w)).
    - by apply update_Ok in Hclear as [_ ?].
    - by injection Hclear as <-. }
  split.
  { destruct (exists_ _ (fs w)).
    - by apply update_Ok in Hclear as [? _].
    - by injection Hclear as <-. }
  split; [done|]. split.
  { rewrite <- Hloga, <- Hlogb. by destruct wb. }
  done.
Qed.

(** The resource directory after it has been cleared and made again:
    empty, and nothing else has changed. *)
Lemma drawable_cleared (drawable : path) n na nb :
  drawable ≠ [] →
  (if exists_ drawable n then rmtree drawable n = Ok na else na = n) →
  mkdir_parents drawable na = Ok nb →
  lookup drawable nb = Some (Dir [])
  ∧ ∀ q, ¬ q `prefix_of` drawable → ¬ drawable `prefix_of` q →
         lookup q nb = lookup q n.
Proof.
  intros Hne Hclear Hmk.
  destruct (nonempty_snoc _ Hne) as (d & c & ->).
  assert (lookup (d ++ [c]) na = None
          ∧ ∀ q, ¬ q `prefix_of` d ++ [c] → ¬ d ++ [c] `prefix_of` q →
                 lookup q na = lookup q n) as [Hgone Hframe].
  { unfold exists_ in Hclear.
    destruct (lookup (d ++ [c]) n) as [x|] eqn:Hx; [|by subst].
    apply rmtree_snoc in Hclear. split.
    - apply (alter_dir_remove_gone d c _ _ [] Hclear).
    - intros q Hq Hq'. eapply alter_dir_remove_frame; [done| |done].
      intros H. apply Hq. by apply prefix_app_r. }
  unfold mkdir_parents in Hmk. rewrite Hgone in Hmk. split.
  - by eapply makedirs_in_fresh.
  - intros q Hq Hq'. rewrite (makedirs_in_frame _ _ _ _ Hmk Hq).
    by apply Hframe.
Qed.

(** The copying loop: every name of the list that is a directory of the
    output directory gets a copy of its tree in the resource directory;
    nothing else changes. *)
Lemma copy_loop out drawable (l : list string) w wc :
  (∀ q s, out `prefix_of` q → drawable `prefix_of` s →
          ¬ q `prefix_of` s ∧ ¬ s `prefix_of` q) →
  for_each l
    (λ _ name,
       let item := out ++ [name] in
       let! d := ask (is_dir item) in
       if d then update (copytree item (drawable ++ [name]))
       else ret ())
    () w = (Ok (), wc) →
  (∀ q, ¬ q `prefix_of` drawable → ¬ drawable `prefix_of` q →
        lookup q (fs wc) = lookup q (fs w))
  ∧ (∀ name,
       lookup (drawable ++ [name]) (fs wc) =
       match lookup (out ++ [name]) (fs w) with
       | Some (Dir es) =>
           if decide (name ∈ l) then Some (Dir es)
           else lookup (drawable ++ [name]) (fs w)
       | _ => lookup (drawable ++ [name]) (fs w)
       end)
  ∧ log wc = log w.
Proof.
  intros Hapart. revert w; induction l as [|x l IH]; intros w.
  - intros [= <-]. split; [done|]. split; [|done]. intros name.
    by destruct (lookup (out ++ [name]) (fs w)) as [[]|].
  - cbn [for_each]. intros H.
    apply bind_Ok in H as ([] & wx & Hx & Hrest).
    apply IH in Hrest as (F2 & C2 & L2).
    apply bind_Ok in Hx as (isd & w0 & Hask & Hx).
    injection Hask as <- <-.
    destruct (is_dir (out ++ [x]) (fs w)) eqn:Hdir.
    + apply update_Ok in Hx as [Hcopy Hlog].
      apply copytree_snoc in Hcopy as (esx & Hsrc & Hfresh & Hdst & F1).
      assert (∀ q, ¬ q `prefix_of` drawable → ¬ drawable `prefix_of` q →
                   lookup q (fs wx) = lookup q (fs w)) as F1'.
      { intros q Hq Hq'. apply F1; [done|]. intros H. apply Hq'.
        etrans; [|done]. by apply prefix_app_r. }
      assert (∀ name, lookup (out ++ [name]) (fs wx)
                      = lookup (out ++ [name]) (fs w)) as Hout.
      { intros name.
        destruct (Hapart (out ++ [name]) drawable) as [H1 H2];
          [by apply prefix_app_r|done|]. by apply F1'. }
      split; [|split; [|congruence]].
      * intros q Hq Hq'. rewrite F2 by done. by apply F1'.
      * intros name. rewrite C2, Hout.
        destruct (decide (name = x)) as [->|Hne].
        -- rewrite Hsrc, Hdst. cbv beta iota.
           rewrite (decide_True (P := x ∈ x :: l)) by left.
           by destruct (decide (x ∈ l)).
        -- assert (lookup (drawable ++ [name]) (fs wx)
                   = lookup (drawable ++ [name]) (fs w)) as ->.
           { apply F1; [apply not_prefix_snoc_self|].
             by intros ->%prefix_snoc_snoc. }
           destruct (lookup (out ++ [name]) (fs w)) as [[b|es]|]; try done.
           destruct (decide (name ∈ l)) as [Hin|Hin].
           ++ by rewrite decide_True by (by right).
           ++ rewrite decide_False; [done|].
              by intros [?|?]%elem_of_cons.
    + injection Hx as <-. split; [done|]. split; [|done].
      intros name. rewrite C2.
      destruct (lookup (out ++ [name]) (fs w)) as [[b|es]|] eqn:Hn;
        try done.
      destruct (decide (name ∈ l)) as [Hin|Hin].
      * by rewrite decide_True by (by right).
      * rewrite decide_False; [done|].
        intros [->|?]%elem_of_cons; [|done].
        unfold is_dir in Hdir. by rewrite Hn in Hdir.
Qed.

(** Writing the archive, renaming it and copying it into template B. *)
Lemma archive_placed templ_a templ_b z nc n3 n4 n5 n6 :
  let temp := templ_a ++ ["icons.zip"] in
  let final := templ_a ++ ["icons"] in
  write_file temp [] nc = Ok n3 →
  write_file temp z n3 = Ok n4 →
  rename_file temp final n4 = Ok n5 →
  FS.copy final templ_b n5 = Ok n6 →
  unrelated templ_a templ_b →
  lookup final n6 = Some (File z)
  ∧ lookup temp n6 = None
  ∧ (∀ c q, c ≠ "icons" → c ≠ "icons.zip" →
            lookup (templ_a ++ c :: q) n6 = lookup (templ_a ++ c :: q) n3)
  ∧ (is_dir templ_b nc = true →
     lookup (templ_b ++ ["icons"]) n6 = Some (File z)).
Proof.
  intros temp final Hcreate Hfill Hren Hcopy Hab.
  apply rename_file_snoc in Hren as (z' & n0 & Hz' & Hw & Hrm).
  rewrite (write_file_same _ _ _ _ _ Hfill) in Hz'. injection Hz' as <-.
  (* template A after the renaming *)
  assert (lookup final n5 = Some (File z)) as Hfinal5.
  { unfold final.
    rewrite (alter_dir_remove_sibling _ _ _ _ _ [] Hrm) by done.
    by eapply write_file_same. }
  assert (lookup temp n5 = None) as Htemp5
    by apply (alter_dir_remove_gone _ _ _ _ [] Hrm).
  assert (∀ c q, c ≠ "icons" → c ≠ "icons.zip" →
            lookup (templ_a ++ c :: q) n5 = lookup (templ_a ++ c :: q) n3)
    as Hrest5.
  { intros c q H1 H2.
    rewrite (alter_dir_remove_sibling _ _ _ _ _ q Hrm) by done.
    rewrite (write_file_sibling _ _ _ _ _ _ q Hw) by done.
    by rewrite (write_file_sibling _ _ _ _ _ _ q Hfill). }
  (* template B until the copy *)
  assert (lookup templ_b n5 = lookup templ_b nc) as Hb5.
  { destruct Hab as [H1 H2].
    assert (∀ c, ¬ templ_a ++ [c] `prefix_of` templ_b) as Hq.
    { intros c H. apply H1. etrans; [|done]. by apply prefix_app_r. }
    rewrite (alter_dir_remove_frame _ _ _ _ _ Hrm) by done.
    rewrite (write_file_frame _ _ _ _ _ _ Hw) by done.
    rewrite (write_file_frame _ _ _ _ _ _ Hfill) by done.
    by rewrite (write_file_frame _ _ _ _ _ _ Hcreate). }
  (* the copy *)
  unfold FS.copy, read_file in Hcopy. rewrite Hfinal5 in Hcopy.
  simpl in Hcopy. unfold final in Hcopy. rewrite split_last_snoc in Hcopy.
  assert (∀ q, templ_a `prefix_of` q → lookup q n6 = lookup q n5) as Hkeep.
  { intros q Hq.
    destruct (apart _ _ q templ_b Hab Hq) as [H1 H2]; [done|].
    destruct (lookup templ_b n5) as [[b|es]|].
    - destruct (nonempty_snoc templ_b) as (d & c & E).
      { intros E. rewrite E in H2. apply H2, prefix_nil. }
      rewrite E in Hcopy, H1, H2.
      eapply write_file_frame; [done| |done].
      intros H. apply H1. by apply prefix_app_r.
    - eapply write_file_frame; [done..|].
      intros H. apply H2. etrans; [|done]. by apply prefix_app_r.
    - destruct (nonempty_snoc templ_b) as (d & c & E).
      { intros E. rewrite E in H2. apply H2, prefix_nil. }
      rewrite E in Hcopy, H1, H2.
      eapply write_file_frame; [done| |done].
      intros H. apply H1. by apply prefix_app_r. }
  split; [by rewrite Hkeep by (by apply prefix_app_r)|].
  split; [by rewrite Hkeep by (by apply prefix_app_r)|].
  split.
  - intros c q H1 H2. rewrite Hkeep by (by apply prefix_app_r).
    by apply Hrest5.
  - intros Hdir. unfold is_dir in Hdir. rewrite Hb5 in Hcopy.
    destruct (lookup templ_b nc) as [[b|es]|]; try done.
    by eapply write_file_same.
Qed.

(** A completed [pack_icons_zip], for an output directory and templates
    that lie apart: the tree the walk finds and the tree afterwards. *)
Lemma pack_icons_zip_result out templ_a templ_b w w1 :
  pack_icons_zip out templ_a templ_b w = (Ok (), w1) →
  unrelated out templ_a → unrelated templ_a templ_b →
  let drawable := templ_a ++ ["res"; "drawable-xxhdpi"] in
  let temp := templ_a ++ ["icons.zip"] in
  ∃ n3,
    let members := zip_walk temp templ_a (λ _, false) n3 in
    lookup temp n3 = Some (File [])
    ∧ (∀ name,
         lookup (drawable ++ [name]) n3 =
         match lookup (out ++ [name]) (fs w) with
         | Some (Dir es) => Some (Dir es)
         | _ => None
         end)
    ∧ lookup (templ_a ++ ["icons"]) (fs w1)
      = Some (File (zip_encode members))
    ∧ lookup temp (fs w1) = None
    ∧ (∀ c q, c ≠ "icons" → c ≠ "icons.zip" →
              lookup (templ_a ++ c :: q) (fs w1)
              = lookup (templ_a ++ c :: q) n3)
    ∧ (is_dir templ_b (fs w) = true →
       lookup (templ_b ++ ["icons"]) (fs w1)
       = Some (File (zip_encode members))).
Proof.
  intros Hrun Hoa Hab drawable temp.
  apply pack_icons_zip_steps in Hrun
    as (na & nb & wc & n3 & n4 & n5 & Hclear & Hmk & Hcopy & Hcreate
        & Hfill & Hren & Hlast).
  fold drawable temp in Hclear, Hmk, Hcopy, Hcreate, Hfill, Hren.
  assert (templ_a `prefix_of` drawable) as Had by (by apply prefix_app_r).
  destruct (drawable_cleared drawable (fs w) na nb) as [Hempty F1];
    [by destruct templ_a|done..|].
  (* the copying loop *)
  unfold copy_package_dirs in Hcopy.
  apply bind_Ok in Hcopy as (names & w0 & Hnames & Hcopy).
  assert (w0 = World nb (log w)) as -> by (by injection Hnames).
  assert (iterdir out nb = Ok names) as Hiter by (by injection Hnames).
  apply copy_loop in Hcopy as (F2 & C2 & _).
  2:{ intros q s Hq Hs. apply (apart out templ_a); [done..|].
      by etrans. }
  simpl in F2, C2.
  assert (∀ q, out `prefix_of` q → lookup q nb = lookup q (fs w)) as Hout.
  { intros q Hq.
    destruct (apart out templ_a q drawable Hoa Hq Had) as [H1 H2].
    by apply F1. }
  assert (∀ name,
            lookup (drawable ++ [name]) (fs wc) =
            match lookup (out ++ [name]) (fs w) with
            | Some (Dir es) => Some (Dir es)
            | _ => None
            end) as Hdrawable.
  { intros name. rewrite C2, Hout by (by apply prefix_app_r).
    assert (lookup (drawable ++ [name]) nb = None) as ->.
    { by rewrite lookup_app, Hempty. }
    destruct (lookup (out ++ [name]) (fs w)) as [[b|es]|] eqn:Hn;
      try done.
    rewrite decide_True; [done|].
    unfold iterdir in Hiter.
    rewrite <- Hout, lookup_app in Hn by (by apply prefix_app_r).
    destruct (lookup out nb) as [[b|eso]|]; try done.
    injection Hiter as <-. simpl in Hn.
    destruct (find name eso) as [x|] eqn:Hx; [|done].
    apply find_elem_of in Hx. by apply (list_elem_of_fmap_2 fst) in Hx. }
  (* the archive *)
  exists n3. simpl.
  destruct (archive_placed _ _ _ _ _ _ _ _ Hcreate Hfill Hren Hlast Hab)
    as (Hfinal & Htemp & Hrest & Hb).
  split; [by eapply write_file_same|]. split.
  { intros name. rewrite <- Hdrawable. unfold drawable.
    rewrite <- !List.app_assoc. simpl.
    by apply (write_file_sibling _ _ _ _ _ _ _ Hcreate). }
  split; [done|]. split; [done|]. split; [done|].
  intros Hdir. apply Hb. unfold is_dir in *.
  assert (lookup templ_b (fs wc) = lookup templ_b (fs w)) as ->; [|done].
  destruct Hab as [H1 H2].
  assert (¬ templ_b `prefix_of` drawable ∧ ¬ drawable `prefix_of` templ_b)
    as [H3 H4].
  { split; intros H.
    - destruct (prefix_weak_total _ _ _ Had H); done.
    - apply H1. by etrans. }
  rewrite F2 by done. by apply F1.
Qed.

(** A file of a package directory of the output directory is met by the
    walk under the resource directory, with its bytes. *)
Lemma walk_finds_copied_file out templ_a n n3 package file b :
  let drawable := templ_a ++ ["res"; "drawable-xxhdpi"] in
  (∀ name,
     lookup (drawable ++ [name]) n3 =
     match lookup (out ++ [name]) n with
     | Some (Dir es) => Some (Dir es)
     | _ => None
     end) →
  lookup (out ++ [package; file]) n = Some (File b) →
  ("res/drawable-xxhdpi/" +:+ package +:+ "/" +:+ file, b)
  ∈ zip_walk (templ_a ++ ["icons.zip"]) templ_a (λ _, false) n3.
Proof.
  intros drawable Hcopied Hfile. subst drawable.
  change (out ++ [package; file]) with (out ++ [package] ++ [file])
    in Hfile.
  rewrite List.app_assoc, lookup_app in Hfile.
  pose proof (Hcopied package) as Hdir.
  destruct (lookup (out ++ [package]) n) as [[b'|es]|]; try done.
  assert (lookup (templ_a ++ ["res"; "drawable-xxhdpi"; package] ++ [file])
            n3 = Some (File b)) as Hin.
  { change (["res"; "drawable-xxhdpi"; package] ++ [file])
      with (["res"; "drawable-xxhdpi"] ++ [package] ++ [file]).
    by rewrite !List.app_assoc, lookup_app, Hdir. }
  destruct (lookup templ_a n3) as [d|] eqn:Hd;
    [|by rewrite lookup_app, Hd in Hin].
  destruct (lookup_has_file _ _ _ _ _ _ Hd Hin) as [Hhas Hbytes].
  destruct (zip_walk_member (templ_a ++ ["icons.zip"]) templ_a
              (λ _, false) n3 d _ _ Hd Hhas eq_refl) as [before Hmem].
  rewrite decide_False, Hbytes in Hmem; [exact Hmem|].
  by intros [=]%app_inv_head.
Qed.

(** X14 After a completed [pack_icons_zip], the resource directory of
    template A holds a copy of every directory found in the output
    directory, under the same name, and nothing else: what was there
    before is gone, and a plain file of the output directory is not
    copied. *)
Theorem resource_directory_mirrors_output
    (out templ_a templ_b : path) (w w1 : world) :
  pack_icons_zip out templ_a templ_b w = (Ok (), w1) →
  unrelated out templ_a → unrelated templ_a templ_b →
  ∀ name,
    lookup (templ_a ++ ["res"; "drawable-xxhdpi"; name]) (fs w1) =
    match lookup (out ++ [name]) (fs w) with
    | Some (Dir es) => Some (Dir es)
    | _ => None
    end.
Proof.
  intros Hrun Hoa Hab name.
  destruct (pack_icons_zip_result _ _ _ _ _ Hrun Hoa Hab)
    as (n3 & _ & Hcopied & _ & _ & Hrest & _).
  rewrite <- Hcopied, <- List.app_assoc. by apply Hrest.
Qed.

(** X15 Every file of every package directory of the output directory
    is a member of the icons archive, under
    [res/drawable-xxhdpi/<package>/<file>] and with the bytes it has in
    the output directory. *)
Theorem rendered_files_are_archived
    (out templ_a templ_b : path) (w w1 : world)
    (package file : string) (b : bytes) :
  pack_icons_zip out templ_a templ_b w = (Ok (), w1) →
  unrelated out templ_a → unrelated templ_a templ_b →
  lookup (out ++ [package; file]) (fs w) = Some (File b) →
  ∃ members,
    lookup (templ_a ++ ["icons"]) (fs w1) = Some (File (zip_encode members))
    ∧ ("res/drawable-xxhdpi/" +:+ package +:+ "/" +:+ file, b) ∈ members.
Proof.
  intros Hrun Hoa Hab Hfile.
  destruct (pack_icons_zip_result _ _ _ _ _ Hrun Hoa Hab)
    as (n3 & _ & Hcopied & Hfinal & _).
  eexists. split; [exact Hfinal|].
  by eapply walk_finds_copied_file.
Qed.

(** X16 The icons archive lists itself: it is created inside the tree
    it packs, so the walk meets [icons.zip] among the files of template
    A and stores what the unfinished archive holds at that moment. *)
Theorem icons_archive_lists_itself
    (out templ_a templ_b : path) (w w1 : world) :
  pack_icons_zip out templ_a templ_b w = (Ok (), w1) →
  unrelated out templ_a → unrelated templ_a templ_b →
  ∃ members before,
    lookup (templ_a ++ ["icons"]) (fs w1) = Some (File (zip_encode members))
    ∧ ("icons.zip", zip_partial before) ∈ members.
Proof.
  intros Hrun Hoa Hab.
  destruct (pack_icons_zip_result _ _ _ _ _ Hrun Hoa Hab)
    as (n3 & Htemp & _ & Hfinal & _).
  destruct (lookup templ_a n3) as [d|] eqn:Hd;
    [|by rewrite lookup_app, Hd in Htemp].
  destruct (lookup_has_file templ_a [] "icons.zip" n3 d [] Hd Htemp)
    as [Hhas _].
  destruct (zip_walk_member (templ_a ++ ["icons.zip"]) templ_a
              (λ _, false) n3 d _ _ Hd Hhas eq_refl) as [before Hmem].
  rewrite decide_True in Hmem by done.
  eexists _, before. split; [exact Hfinal|exact Hmem].
Qed.

(** X17 After a completed [pack_icons_zip] the temporary [icons.zip]
    is gone, and template A and template B both hold a file [icons] with
    the same bytes. *)
Theorem icons_archive_in_both_templates
    (out templ_a templ_b : path) (w w1 : world) :
  pack_icons_zip out templ_a templ_b w = (Ok (), w1) →
  unrelated out templ_a → unrelated templ_a templ_b →
  is_dir templ_b (fs w) = true →
  lookup (templ_a ++ ["icons.zip"]) (fs w1) = None
  ∧ ∃ z, read_file (templ_a ++ ["icons"]) (fs w1) = Ok z
         ∧ read_file (templ_b ++ ["icons"]) (fs w1) = Ok z.
Proof.
  intros Hrun Hoa Hab Hdir.
  destruct (pack_icons_zip_result _ _ _ _ _ Hrun Hoa Hab)
    as (n3 & _ & _ & Hfinal & Htemp & _ & Hb).
  split; [exact Htemp|]. eexists. unfold read_file.
  by rewrite Hfinal, (Hb Hdir).
Qed.

(** X18 The two packing steps together: a file rendered into a package
    directory of the output directory is found, with its bytes, inside
    the [icons] member of the final module archive. *)
Theorem rendered_file_reaches_module
    (out templ_a templ_b target : path) (w w1 w2 : world)
    (package file : string) (b : bytes) :
  pack_icons_zip out templ_a templ_b w = (Ok (), w1) →
  pack_magisk_module templ_b target w1 = (Ok (), w2) →
  contains "icons" (path_str templ_b) = false →
  unrelated out templ_a → unrelated templ_a templ_b →
  unrelated templ_b target →
  is_dir templ_b (fs w) = true →
  lookup (out ++ [package; file]) (fs w) = Some (File b) →
  ∃ inner outer,
    read_file target (fs w2) = Ok (zip_encode outer)
    ∧ ("icons", zip_encode inner) ∈ outer
    ∧ ("res/drawable-xxhdpi/" +:+ package +:+ "/" +:+ file, b) ∈ inner.
Proof.
  intros Hpack Hmod Hclear Hoa Hab Hbt Hdir Hfile.
  destruct (pack_icons_zip_result _ _ _ _ _ Hpack Hoa Hab)
    as (n3 & _ & Hcopied & Hfinal & _ & _ & Hb).
  assert (is_dir templ_b (fs w1) = true) as Hdir1.
  { specialize (Hb Hdir). rewrite lookup_app in Hb. unfold is_dir.
    by destruct (lookup templ_b (fs w1)) as [[]|]. }
  destruct (icons_archive_in_module _ _ _ _ _ _ _ _ _ Hpack Hmod Hclear
              Hab Hbt Hdir1)
    as (z & outer & d & Hz & Htarget & Hicons & _).
  unfold read_file in Hz. rewrite Hfinal in Hz. injection Hz as <-.
  eexists _, outer. split; [exact Htarget|]. split; [exact Hicons|].
  by eapply walk_finds_copied_file.
Qed.

End externals.

End ArchiveFacts.
(** ** From the rendered layers to the module archive *)

Module PipelineFacts.
Import Str StrFacts FS FSFacts Img Run RunSpec IconProcessor ThemePacker.
Import Tree PackerSpec GenerateFacts PackerFacts ArchiveFacts.

#[local] Arguments String.append : simpl nomatch.

Section externals.
Variable svg2png : FS.bytes → Z → Z → option image.
Variable getrgb : string → result (list Z).
Variable blend : pixel → pixel → pixel.
Variable png_encode : image → FS.bytes.
Variable zip_encode : archive → bytes.
Variable zip_partial : archive → bytes.

Notation generate_icons := (generate_icons svg2png getrgb blend png_encode).
Notation process_entry := (process_entry svg2png getrgb blend png_encode).
Notation pack_icons_zip := (pack_icons_zip zip_encode zip_partial).
Notation pack_magisk_module := (pack_magisk_module zip_encode zip_partial).
Notation zip_tree := (zip_tree zip_encode zip_partial).


(** X20 [pack_magisk_module] writes the target archive and nothing
    else, whether it completes or raises: the template it packs, and
    whatever else lies neither at the target nor above it, is after the
    run what it was before, and nothing is printed per item. *)
Theorem pack_magisk_module_writes_target_only
    (templ_b target : path) (w w' : world) (r : result ()) :
  pack_magisk_module templ_b target w = (r, w') →
  (∀ q, ¬ q `prefix_of` target → ¬ target `prefix_of` q →
        lookup q (fs w') = lookup q (fs w))
  ∧ log w' = log w.
Proof.
  unfold ThemePacker.pack_magisk_module, ThemePacker.zip_tree.
  assert (∀ b n n' q, write_file target b n = Ok n' →
            ¬ q `prefix_of` target → ¬ target `prefix_of` q →
            lookup q n' = lookup q n) as Hwrite.
  { intros b n n' q Hw Hq Hq'. unfold write_file in Hw.
    destruct (split_last target) as [[d c]|] eqn:E; [|done].
    apply split_last_Some in E as ->.
    eapply (write_file_frame d c b); [|by intros H; apply Hq, prefix_app_r|done].
    by rewrite write_file_snoc. }
  unfold bind, update, ask.
  destruct (write_file target [] (fs w)) as [n1|e] eqn:H1;
    [|by intros [= <- <-]].
  simpl.
  destruct (write_file target _ n1) as [n2|e] eqn:H2; intros [= <- <-];
    simpl; (split; [|done]); intros q Hq Hq'.
  - rewrite (Hwrite _ _ _ _ H2 Hq Hq'). by eapply Hwrite.
  - by eapply Hwrite.
Qed.

End externals.

End PipelineFacts.
(** ** The normalized mapping file, line by line *)

Module LineFacts.
Import Str StrFacts MappingProcessor MappingLayout LayoutFacts MappingLines.

#[local] Arguments String.append : simpl nomatch.

(** A newline in an attribute value is written as a character
    reference. *)
Lemma escape_attrib_no_nl s : mem "010" (ET.escape_attrib s) = false.
Proof.
  induction s as [|a s IH]; simpl; [done|].
  rewrite mem_app, IH, orb_false_r. unfold ET.escape_char.
  repeat (match goal with
          | |- context [if eqb_ascii a ?c then _ else _] =>
              destruct (eqb_ascii a c) eqn:?; [done|]
          end).
  simpl. rewrite orb_false_r. by rewrite eqb_ascii_sym.
Qed.

Lemma row_text_no_nl row : mem "010" (row_text row) = false.
Proof.
  destruct row as [p [n d]]. unfold row_text, ET.serialize_leaf. simpl.
  unfold ET.serialize_attrib. simpl.
  repeat (rewrite !mem_app; simpl).
  by rewrite !escape_attrib_no_nl.
Qed.

Lemma split_line u v :
  mem "010" u = false → split "010" (u +:+ nl +:+ v) = u :: split "010" v.
Proof. intros H. by apply (split_app_sep "010"). Qed.

Lemma split_rows rest tail :
  split "010" (Str.concat (item_line "    " <$> rest) +:+ tail)
  = ((λ r, "    " +:+ row_text r) <$> rest) ++ split "010" tail.
Proof.
  induction rest as [|r rest IH]; [done|].
  rewrite !fmap_cons. cbn [Str.concat]. unfold item_line at 1.
  fold (row_text r). rewrite !app_assoc.
  rewrite <- (app_assoc "    " (row_text r)).
  rewrite split_line, IH; [done|].
  rewrite mem_app. by rewrite row_text_no_nl.
Qed.

(** X21 Whatever characters the names, packages and drawables hold,
    every row of the normalized mapping file takes exactly one line: the
    lines of the file are the declaration, [<resources>], one line per
    row and [</resources>]. *)
Theorem mapping_file_lines (root : list ET.element) :
  split "010" (convert_icon_mapper root) = lines (normalized_rows root).
Proof.
  unfold convert_icon_mapper. rewrite write_rows_layout.
  generalize (normalized_rows root). intros rows.
  unfold layout, lines.
  change xml_declaration with (declaration_line +:+ nl).
  destruct rows as [|r rest].
  - rewrite !app_assoc. by rewrite split_line by done.
  - rewrite !app_assoc. rewrite split_line by done.
    rewrite (split_line "<resources>") by done.
    unfold item_line at 1. fold (row_text r).
    rewrite app_empty_l, !app_assoc.
    rewrite split_line by apply row_text_no_nl.
    by rewrite split_rows.
Qed.

End LineFacts.
(** ** The progress report of [generate_icons] *)

Module ProgressFacts.
Import FS FSFacts Img Run RunSpec IconProcessor GenerateFacts PackerFacts.
Import ProgressSpec.

Lemma progress_lines_app l1 l2 :
  progress_lines (l1 ++ l2) = progress_lines l1 ++ progress_lines l2.
Proof. apply omap_app. Qed.

Lemma emit_Ok e w u w' :
  emit e w = (Ok u, w') → fs w' = fs w ∧ log w' = log w ++ [e].
Proof. by intros [= _ <-]. Qed.

Section externals.
Variable svg2png : FS.bytes → Z → Z → option image.
Variable getrgb : string → result (list Z).
Variable blend : pixel → pixel → pixel.
Variable png_encode : image → FS.bytes.

Notation process_svg := (process_svg svg2png getrgb blend).
Notation process_entry := (process_entry svg2png getrgb blend png_encode).
Notation generate_icons := (generate_icons svg2png getrgb blend png_encode).

(** [process_svg] prints no progress line. *)
Lemma process_svg_log svg_path fg icon_size icon_scale w r w' :
  process_svg svg_path fg icon_size icon_scale w = (Ok r, w') →
  ∃ ev, log w' = log w ++ ev ∧ progress_lines ev = [].
Proof.
  unfold IconProcessor.process_svg. intros H.
  apply bind_Ok in H as (side & w0 & Hside & H).
  assert (w0 = w) as -> by (unfold lift in Hside; congruence).
  apply bind_Ok in H as (png & w1 & Hpng & H).
  injection Hpng as _ <-. destruct png as [icon|].
  - apply bind_Ok in H as (canvas & w2 & Hc & H).
    assert (log w2 = log w ++ [DidRasterize svg_path]) as Hl2
      by (unfold lift in Hc; by injection Hc as _ <-).
    apply bind_Ok in H as (pasted & w3 & Hp & H).
    assert (log w3 = log w2) as Hl3
      by (unfold lift in Hp; by injection Hp as _ <-).
    apply bind_Ok in H as (im & w4 & Him & H).
    assert (log w4 = log w3) as Hl4
      by (unfold lift in Him; by injection Him as _ <-).
    injection H as _ <-. exists [DidRasterize svg_path].
    split; [congruence|done].
  - apply bind_Ok in H as ([] & w2 & He & H).
    apply emit_Ok in He as [_ He]. injection H as _ <-.
    exists [DidRasterize svg_path; MsgSvgError svg_path].
    split; [|done]. rewrite He. simpl. by rewrite <- List.app_assoc.
Qed.

(** One round of the loop either leaves the count as it is and prints
    no progress line, or raises it by one and prints one line showing
    the new count. *)
Lemma process_entry_progress svg_dir out fg icon_size icon_scale bg total
    acc entry w c w' :
  process_entry svg_dir out fg icon_size icon_scale bg total acc entry w
    = (Ok c, w') →
  ∃ ev, log w' = log w ++ ev
        ∧ (c = acc ∧ progress_lines ev = []
           ∨ c = S acc ∧ progress_lines ev = [(S acc, total)]).
Proof.
  destruct entry as [package drawable].
  unfold IconProcessor.process_entry. intros H.
  apply bind_Ok in H as (found & w0 & Hask & H).
  injection Hask as <- <-.
  destruct (exists_ _ (fs w)); simpl in H.
  - apply bind_Ok in H as ([] & w1 & Hmk & H).
    unfold mkdir_exist_ok in Hmk.
    apply bind_Ok in Hmk as ([] & w1' & Hmk & Hmk').
    apply update_Ok in Hmk as [_ Hl1'].
    apply emit_Ok in Hmk' as [_ Hl1].
    apply bind_Ok in H as ([] & w2 & Hsave & H).
    unfold save in Hsave.
    apply bind_Ok in Hsave as ([] & w2' & Hsave & Hsave').
    apply update_Ok in Hsave as [_ Hl2'].
    apply emit_Ok in Hsave' as [_ Hl2].
    apply bind_Ok in H as (icon & w3 & Hsvg & H).
    apply process_svg_log in Hsvg as (ev3 & Hl3 & Hp3).
    destruct icon as [icon|].
    + apply bind_Ok in H as ([] & w4 & Hsave1 & H).
      unfold save in Hsave1.
      apply bind_Ok in Hsave1 as ([] & w4' & Hsave1 & Hsave1').
      apply update_Ok in Hsave1 as [_ Hl4'].
      apply emit_Ok in Hsave1' as [_ Hl4].
      apply bind_Ok in H as ([] & w5 & Hmsg & H).
      apply emit_Ok in Hmsg as [_ Hl5]. injection H as <- <-.
      eexists ([_; _] ++ ev3 ++ [_; _]). split.
      * rewrite Hl5, Hl4, Hl4', Hl3, Hl2, Hl2', Hl1, Hl1'.
        by rewrite <- !List.app_assoc.
      * right. split; [done|].
        rewrite !progress_lines_app, Hp3. done.
    + apply bind_Ok in H as ([] & w4 & Hmsg & H).
      apply emit_Ok in Hmsg as [_ Hl4]. injection H as <- <-.
      eexists ([_; _] ++ ev3 ++ [_]). split.
      * rewrite Hl4, Hl3, Hl2, Hl2', Hl1, Hl1'.
        by rewrite <- !List.app_assoc.
      * left. split; [done|].
        rewrite !progress_lines_app, Hp3. done.
  - apply bind_Ok in H as ([] & w1 & Hmsg & H).
    apply emit_Ok in Hmsg as [_ Hl1]. injection H as <- <-.
    eexists. split; [exact Hl1|]. by left.
Qed.

(** X22 The progress report of a completed run: the progress lines
    count 1, 2, 3, ... up to the number the final line reports, each
    shows the number of entries of the mapping as the total, and the
    final count is at most that total. *)
Theorem progress_report_counts (root : list ET.element)
    (svg_dir out : path) (fg bg_color : string) (icon_size : Z)
    (icon_scale : PyFloat.float) (w w' : world) :
  generate_icons root svg_dir out fg bg_color icon_size icon_scale w
    = (Ok (), w') →
  let total := length (parse_icon_mapper root) in
  ∃ ev count,
    log w' = log w ++ ev ++ [MsgDone count total]
    ∧ progress_lines ev = (λ k, (k, total)) <$> seq 1 count
    ∧ (count ≤ total)%nat.
Proof.
  intros Hrun total.
  apply generate_icons_Ok in Hrun
    as (n0 & bg & count & w2 & _ & _ & Hloop & ->).
  fold total in Hloop.
  assert (∀ l acc w1 c wz,
            for_each l
              (process_entry svg_dir out fg icon_size icon_scale bg total)
              acc w1 = (Ok c, wz) →
            ∃ ev, log wz = log w1 ++ ev
                  ∧ progress_lines ev
                    = (λ k, (k, total)) <$> seq (S acc) (c - acc)
                  ∧ (acc ≤ c ≤ acc + length l)%nat) as Hcount.
  { induction l as [|entry l IH]; intros acc w1 c wz.
    - intros [= <- <-]. exists []. rewrite app_nil_r, Nat.sub_diag.
      split; [done|]. split; [done|lia].
    - cbn [for_each]. intros H.
      apply bind_Ok in H as (c1 & wx & Hround & Hrest).
      apply process_entry_progress in Hround as (ev1 & Hl1 & Hcase).
      apply IH in Hrest as (ev2 & Hl2 & Hp2 & Hle).
      exists (ev1 ++ ev2). split; [by rewrite Hl2, Hl1, List.app_assoc|].
      rewrite progress_lines_app, Hp2. simpl length.
      destruct Hcase as [[-> ->]|[-> ->]].
      + split; [done|lia].
      + split; [|lia].
        replace (c - acc)%nat with (S (c - S acc)) by lia. done. }
  apply Hcount in Hloop as (ev & Hl & Hp & Hle). simpl in Hl.
  exists ev, count. rewrite Nat.sub_0_r in Hp. simpl.
  split; [by rewrite Hl, List.app_assoc|]. split; [done|].
  unfold total, PyDict.items in *. lia.
Qed.

End externals.

End ProgressFacts.
(** ** What [generate_icons] leaves in place *)

Module SurvivalFacts.
Import FS FSFacts Img Run RunSpec IconProcessor GenerateFacts Survival.

Lemma exists_prefix p r n :
  exists_ (p ++ r) n = true → exists_ p n = true.
Proof.
  unfold exists_. rewrite lookup_app. by destruct (lookup p n).
Qed.

(** Setting an entry below which nothing exists removes no path. *)
Lemma alter_dir_put_survives d c v n n' q :
  alter_dir d (put c v) n = Ok n' →
  (∀ r, r ≠ [] → lookup ((d ++ [c]) ++ r) n = None) →
  exists_ q n = true → exists_ q n' = true.
Proof.
  intros Hput Hbelow Hq.
  destruct (decide ((d ++ [c]) `prefix_of` q)) as [[r ->]|Hc].
  - destruct r as [|x r].
    + rewrite app_nil_r. unfold exists_.
      by rewrite (alter_dir_put_same _ _ _ _ _ Hput).
    + unfold exists_ in Hq. by rewrite Hbelow in Hq.
  - destruct (decide (q `prefix_of` d)) as [[r ->]|Hd].
    + apply (exists_prefix q r). unfold exists_.
      by destruct (alter_dir_at _ _ _ _ Hput) as (es & _ & ->).
    + unfold exists_ in *.
      by rewrite (alter_dir_put_frame _ _ _ _ _ _ Hput Hd Hc).
Qed.

Lemma write_file_survives p b n n' q :
  write_file p b n = Ok n' → exists_ q n = true → exists_ q n' = true.
Proof.
  unfold write_file. destruct (split_last p) as [[d c]|] eqn:E; [|done].
  apply PackerFacts.split_last_Some in E as ->. intros Hw.
  assert (alter_dir d (put c (File b)) n = Ok n') as Hput
    by (by destruct (lookup (d ++ [c]) n) as [[]|]).
  apply (alter_dir_put_survives _ _ _ _ _ _ Hput).
  intros r Hr. rewrite lookup_app.
  destruct (lookup (d ++ [c]) n) as [[b'|es]|]; [|done..].
  by destruct r.
Qed.

Lemma mkdir_exist_ok_survives p n n' q :
  FS.mkdir_exist_ok p n = Ok n' → exists_ q n = true → exists_ q n' = true.
Proof.
  unfold FS.mkdir_exist_ok.
  destruct (lookup p n) as [[b|es]|] eqn:Hp; [done|by intros [= <-]|].
  destruct (split_last p) as [[d c]|] eqn:E; [|by intros [= <-]].
  apply PackerFacts.split_last_Some in E as ->. intros Hput.
  apply (alter_dir_put_survives _ _ _ _ _ _ Hput).
  intros r _. by rewrite lookup_app, Hp.
Qed.

Lemma makedirs_in_survives p n n' q :
  makedirs_in p n = Ok n' → exists_ q n = true → exists_ q n' = true.
Proof.
  intros Hmk Hq. destruct (decide (q `prefix_of` p)) as [[r ->]|Hp].
  - apply (exists_prefix q r). unfold exists_.
    by destruct (makedirs_in_is_dir _ _ _ Hmk) as [es ->].
  - unfold exists_ in *. by rewrite (makedirs_in_frame _ _ _ _ Hmk Hp).
Qed.

Lemma survives_refl w : survives w w.
Proof. by intros q. Qed.

Lemma survives_trans w1 w2 w3 :
  survives w1 w2 → survives w2 w3 → survives w1 w3.
Proof. intros H1 H2 q Hq. by apply H2, H1. Qed.

Lemma never_deletes_ret {A} (a : A) : never_deletes (ret a).
Proof. intros w r w' [= _ <-]. apply survives_refl. Qed.

Lemma never_deletes_lift {A} (x : result A) : never_deletes (lift x).
Proof. intros w r w' [= _ <-]. apply survives_refl. Qed.

Lemma never_deletes_ask {A} (f : node → A) : never_deletes (ask f).
Proof. intros w r w' [= _ <-]. apply survives_refl. Qed.

Lemma never_deletes_emit e : never_deletes (emit e).
Proof. intros w r w' [= _ <-]. by intros q. Qed.

Lemma never_deletes_bind {A B} (m : M A) (k : A → M B) :
  never_deletes m → (∀ a, never_deletes (k a)) → never_deletes (bind m k).
Proof.
  intros Hm Hk w r w'. unfold bind.
  destruct (m w) as [[a|e] w1] eqn:E.
  - intros H. eapply survives_trans; [by eapply Hm|by eapply Hk].
  - intros [= _ <-]. by eapply Hm.
Qed.

Lemma never_deletes_update (f : node → result node) :
  (∀ n n' q, f n = Ok n' → exists_ q n = true → exists_ q n' = true) →
  never_deletes (update f).
Proof.
  intros Hf w r w'. unfold update.
  destruct (f (fs w)) as [n|e] eqn:E; intros [= _ <-].
  - intros q. by apply Hf.
  - apply survives_refl.
Qed.

Section externals.
Variable svg2png : FS.bytes → Z → Z → option image.
Variable getrgb : string → result (list Z).
Variable blend : pixel → pixel → pixel.
Variable png_encode : image → FS.bytes.

Notation process_svg := (process_svg svg2png getrgb blend).
Notation process_entry := (process_entry svg2png getrgb blend png_encode).
Notation generate_icons := (generate_icons svg2png getrgb blend png_encode).

Lemma never_deletes_save im p : never_deletes (save png_encode im p).
Proof.
  unfold save. apply never_deletes_bind.
  - apply never_deletes_update. intros n n' q. apply write_file_survives.
  - intros _. apply never_deletes_emit.
Qed.

Lemma never_deletes_process_svg svg_path fg icon_size icon_scale :
  never_deletes (process_svg svg_path fg icon_size icon_scale).
Proof.
  unfold IconProcessor.process_svg.
  apply never_deletes_bind; [apply never_deletes_lift|]. intros side.
  apply never_deletes_bind.
  { intros w r w' [= _ <-]. by intros q. }
  intros [glyph|].
  - apply never_deletes_bind; [apply never_deletes_lift|]. intros canvas.
    apply never_deletes_bind; [apply never_deletes_lift|]. intros pasted.
    apply never_deletes_bind; [apply never_deletes_lift|]. intros im.
    apply never_deletes_ret.
  - apply never_deletes_bind; [apply never_deletes_emit|].
    intros _. apply never_deletes_ret.
Qed.

Lemma never_deletes_process_entry svg_dir out fg icon_size icon_scale bg
    total count entry :
  never_deletes
    (process_entry svg_dir out fg icon_size icon_scale bg total count entry).
Proof.
  destruct entry as [package drawable].
  unfold IconProcessor.process_entry.
  apply never_deletes_bind; [apply never_deletes_ask|]. intros [|]; simpl.
  - apply never_deletes_bind.
    { unfold mkdir_exist_ok. apply never_deletes_bind.
      - apply never_deletes_update. intros n n' q.
        apply mkdir_exist_ok_survives.
      - intros _. apply never_deletes_emit. }
    intros _. apply never_deletes_bind; [apply never_deletes_save|].
    intros _.
    apply never_deletes_bind; [apply never_deletes_process_svg|].
    intros [icon|].
    + apply never_deletes_bind; [apply never_deletes_save|]. intros _.
      apply never_deletes_bind; [apply never_deletes_emit|].
      intros _. apply never_deletes_ret.
    + apply never_deletes_bind; [apply never_deletes_emit|].
      intros _. apply never_deletes_ret.
  - apply never_deletes_bind; [apply never_deletes_emit|].
    intros _. apply never_deletes_ret.
Qed.

(** X23 [generate_icons] removes nothing, whether it completes or
    raises: every path that exists before the run exists after it.  What
    an earlier run left in the output directory stays there unless it is
    written again. *)
Theorem generate_icons_never_deletes (root : list ET.element)
    (svg_dir out : path) (fg bg_color : string) (icon_size : Z)
    (icon_scale : PyFloat.float) (w w' : world) (r : result ())
    (q : path) :
  generate_icons root svg_dir out fg bg_color icon_size icon_scale w
    = (r, w') →
  exists_ q (fs w) = true → exists_ q (fs w') = true.
Proof.
  intros Hrun. revert q.
  change (survives w w'). revert w r w' Hrun.
  change (never_deletes
            (generate_icons root svg_dir out fg bg_color icon_size
               icon_scale)).
  unfold IconProcessor.generate_icons.
  apply never_deletes_bind.
  { apply never_deletes_update. intros n n' q.
    apply makedirs_in_survives. }
  intros _. apply never_deletes_bind; [apply never_deletes_lift|].
  intros bg. apply never_deletes_bind.
  - generalize 0%nat.
    induction (PyDict.items (parse_icon_mapper root)) as [|entry l IH];
      intros acc; [apply never_deletes_ret|].
    simpl. apply never_deletes_bind; [|intros acc'; apply IH].
    apply never_deletes_process_entry.
  - intros count. apply never_deletes_emit.
Qed.

End externals.

End SurvivalFacts.
(** ** More runs on the sample installation *)

Module MoreRuns.
Import Img FS Run RunSpec IconProcessor ThemePacker PackerSpec Tree Sample.
Import MappingProcessor MappingLayout MoreSamples.

Lemma sample_out_a :
  unrelated (output_dir "theme") (icons_template_dir "theme").
Proof. split; intros [k Hk]; vm_compute in Hk; discriminate Hk. Qed.

Lemma sample_a_b :
  unrelated (icons_template_dir "theme") (magisk_template_dir "theme").
Proof. split; intros [k Hk]; vm_compute in Hk; discriminate Hk. Qed.

Lemma sample_b_target :
  unrelated (magisk_template_dir "theme") (target_magisk "theme").
Proof. split; intros [k Hk]; vm_compute in Hk; discriminate Hk. Qed.

Lemma sample_asset_apart p :
  p ∈ Cleaner.clean_up (current_dir "theme") →
  unrelated p (svg_dir "theme" ++ ["maps.svg"]).
Proof.
  unfold Cleaner.clean_up. intros Hp.
  repeat (apply elem_of_cons in Hp as [->|Hp];
          [split; intros [k Hk]; vm_compute in Hk; discriminate Hk|]).
  by apply elem_of_nil in Hp.
Qed.

Lemma sample_cleanup :
  Cleaner.cleanup (current_dir "theme") (tree "theme")
  = Ok (cleaned "theme").
Proof. by vm_compute. Qed.

Lemma cleanup_removes_listed_paths_witness :
  lookup (icons_template_dir "theme" ++ ["res"; "drawable-xxhdpi"])
    (Cleaner.fs (cleaned "theme")) = None.
Proof.
  apply (CleanerFacts.cleanup_removes_listed_paths (current_dir "theme")
           (tree "theme") (cleaned "theme")).
  - by vm_compute.
  - vm_compute. right. left.
Defined.

Lemma cleanup_prints_what_it_removed_witness :
  Cleaner.printed (cleaned "theme")
  = omap (Cleaner.report (tree "theme"))
      (Cleaner.clean_up (current_dir "theme")).
Proof.
  apply (CleanerFacts.cleanup_prints_what_it_removed (current_dir "theme")
           (tree "theme") (cleaned "theme")).
  by vm_compute.
Defined.

Lemma cleanup_leaves_the_rest_witness :
  lookup (svg_dir "theme" ++ ["maps.svg"]) (Cleaner.fs (cleaned "theme"))
  = lookup (svg_dir "theme" ++ ["maps.svg"]) (tree "theme").
Proof.
  apply (CleanerFacts.cleanup_leaves_the_rest (current_dir "theme")
           (tree "theme") (cleaned "theme")).
  - by vm_compute.
  - exact sample_asset_apart.
Defined.

Lemma cleanup_twice_witness :
  Cleaner.cleanup (current_dir "theme") (Cleaner.fs (cleaned "theme"))
  = Ok (Cleaner.State (Cleaner.fs (cleaned "theme")) []).
Proof.
  apply (CleanerFacts.cleanup_twice (current_dir "theme") (tree "theme")
           (cleaned "theme")).
  by vm_compute.
Defined.

Lemma row_comes_from_an_item_witness :
  "com.b" ≠ EmptyString ∧ Str.mem "/" "com.b" = false
  ∧ "broken" ≠ EmptyString
  ∧ ∃ item, item ∈ ET.findall "item" appfilter
            ∧ ET.get_or_empty item "name" = "Mail 2"
            ∧ ET.get_or_empty item "drawable" = "broken"
            ∧ ComponentSyntax.parses_as
                (ET.get_or_empty item "component") "com.b".
Proof.
  apply (RowFacts.row_comes_from_an_item appfilter "com.b" "Mail 2"
           "broken").
  vm_compute. right. left.
Defined.

Lemma source_order_does_not_matter_witness :
  convert_icon_mapper two_apps = convert_icon_mapper two_apps_swapped.
Proof.
  apply (RowFacts.source_order_does_not_matter two_apps two_apps_swapped).
  - vm_compute. apply perm_swap.
  - vm_compute. repeat constructor; set_solver.
Defined.

Lemma shadowed_item_does_not_matter_witness :
  convert_icon_mapper appfilter
  = convert_icon_mapper appfilter_without_old_mail.
Proof.
  apply (RowFacts.shadowed_item_does_not_matter appfilter
           appfilter_without_old_mail
           (take 1 appfilter) (drop 2 appfilter)
           (ET.Element "item"
              [("component", "ComponentInfo{com.b/com.b.Old}");
               ("drawable", "mail"); ("name", "Mail")])).
  - reflexivity.
  - reflexivity.
  - intros p v Hit. vm_compute in Hit. injection Hit as <- <-.
    exists (ET.Element "item"
              [("component", "ComponentInfo{com.b/com.b.Main}");
               ("drawable", "broken"); ("name", "Mail 2")]),
           ("Mail 2", "broken").
    split; [vm_compute; do 3 right; left|reflexivity].
Defined.

Lemma background_is_uniform_and_opaque_witness :
  ∃ bg, create_background getrgb 4 "#1c232b" = Ok bg
        ∧ 0 ≤ 4
        ∧ width bg = 4 ∧ height bg = 4
        ∧ length (data bg) = Z.to_nat (4 * 4)
        ∧ (∀ px, px ∈ data bg → px = (28, 35, 43, 255))
        ∧ ∀ x y, 0 ≤ x < 4 → 0 ≤ y < 4 →
                 getpixel bg x y = Some (28, 35, 43, 255).
Proof.
  eexists. split; [reflexivity|].
  apply (RenderFacts.background_is_uniform_and_opaque getrgb 4 "#1c232b"
           28 35 43); reflexivity.
Defined.

Lemma process_svg_outcome_witness :
  let w := world0 "theme" in
  let svg := svg_dir "theme" ++ ["broken.svg"] in
  let ran := process_svg svg2png getrgb blend svg "#d1e2fc" 4 half w in
  fs ran.2 = fs w
  ∧ (ran.1 = Ok None ↔ glyph_at svg2png (fs w) svg 2 = None)
  ∧ log ran.2 = log w ++ [DidRasterize svg; MsgSvgError svg].
Proof.
  intros w svg ran.
  destruct (RenderFacts.process_svg_outcome svg2png getrgb blend w ran.2
              svg "#d1e2fc" 4 half ran.1) as (Hfs & Hside).
  - reflexivity.
  - split; [exact Hfs|].
    destruct (Hside 2) as (Hnone & Hlog & _); [reflexivity|].
    split; [exact Hnone|exact Hlog].
Defined.


Lemma output_directory_listing_witness :
  exists_ (output_dir "theme" ++ ["com.c"]) (fs rendered) = true ↔
  ∃ drawable,
    (("com.c" : string), drawable)
      ∈ PyDict.items (parse_icon_mapper icon_mapper)
    ∧ exists_ (svg_dir "theme" ++ [drawable +:+ ".svg"]) (tree "theme")
      = true.
Proof.
  apply (RenderFacts.output_directory_listing svg2png getrgb blend
           png_encode icon_mapper (svg_dir "theme") (output_dir "theme")
           "#d1e2fc" "#1c232b" 4 half (world0 "theme") rendered).
  - by vm_compute.
  - exact SampleRuns.sample_plain.
  - exact (SampleRuns.sample_unrelated "theme").
  - intros name. reflexivity.
Defined.

Lemma resource_directory_mirrors_output_witness :
  lookup (icons_template_dir "theme" ++ ["res"; "drawable-xxhdpi"; "stale"])
    (fs packed) = None
  ∧ lookup (icons_template_dir "theme" ++ ["res"; "drawable-xxhdpi"; "com.b"])
      (fs packed)
    = lookup (output_dir "theme" ++ ["com.b"]) (fs rendered).
Proof.
  pose proof (ArchiveFacts.resource_directory_mirrors_output zip_encode
                zip_partial (output_dir "theme")
                (icons_template_dir "theme") (magisk_template_dir "theme")
                rendered packed) as H.
  split.
  - apply (H ltac:(by vm_compute) sample_out_a sample_a_b "stale").
  - apply (H ltac:(by vm_compute) sample_out_a sample_a_b "com.b").
Defined.

Lemma rendered_files_are_archived_witness :
  ∃ members,
    lookup (icons_template_dir "theme" ++ ["icons"]) (fs packed)
    = Some (File (zip_encode members))
    ∧ ("res/drawable-xxhdpi/com.a/0.png", background_bytes) ∈ members.
Proof.
  apply (ArchiveFacts.rendered_files_are_archived zip_encode zip_partial
           (output_dir "theme") (icons_template_dir "theme")
           (magisk_template_dir "theme") rendered packed "com.a" "0.png"
           background_bytes).
  - by vm_compute.
  - exact sample_out_a.
  - exact sample_a_b.
  - by vm_compute.
Defined.

Lemma icons_archive_lists_itself_witness :
  ∃ members before,
    lookup (icons_template_dir "theme" ++ ["icons"]) (fs packed)
    = Some (File (zip_encode members))
    ∧ ("icons.zip", zip_partial before) ∈ members.
Proof.
  apply (ArchiveFacts.icons_archive_lists_itself zip_encode zip_partial
           (output_dir "theme") (icons_template_dir "theme")
           (magisk_template_dir "theme") rendered packed).
  - by vm_compute.
  - exact sample_out_a.
  - exact sample_a_b.
Defined.

Lemma icons_archive_in_both_templates_witness :
  lookup (icons_template_dir "theme" ++ ["icons.zip"]) (fs packed) = None
  ∧ ∃ z, read_file (icons_template_dir "theme" ++ ["icons"]) (fs packed)
           = Ok z
         ∧ read_file (magisk_template_dir "theme" ++ ["icons"]) (fs packed)
           = Ok z.
Proof.
  apply (ArchiveFacts.icons_archive_in_both_templates zip_encode
           zip_partial (output_dir "theme") (icons_template_dir "theme")
           (magisk_template_dir "theme") rendered packed).
  - by vm_compute.
  - exact sample_out_a.
  - exact sample_a_b.
  - reflexivity.
Defined.

Lemma rendered_file_reaches_module_witness :
  ∃ inner outer,
    read_file (target_magisk "theme") (fs finished) = Ok (zip_encode outer)
    ∧ ("icons", zip_encode inner) ∈ outer
    ∧ ("res/drawable-xxhdpi/com.a/0.png", background_bytes) ∈ inner.
Proof.
  apply (ArchiveFacts.rendered_file_reaches_module zip_encode zip_partial
           (output_dir "theme") (icons_template_dir "theme")
           (magisk_template_dir "theme") (target_magisk "theme")
           rendered packed finished "com.a" "0.png" background_bytes).
  - by vm_compute.
  - by vm_compute.
  - reflexivity.
  - exact sample_out_a.
  - exact sample_a_b.
  - exact sample_b_target.
  - reflexivity.
  - by vm_compute.
Defined.


Lemma pack_magisk_module_writes_target_only_witness :
  (∀ q, ¬ q `prefix_of` target_magisk "theme" →
        ¬ target_magisk "theme" `prefix_of` q →
        lookup q (fs finished) = lookup q (fs packed))
  ∧ log finished = log packed.
Proof.
  apply (PipelineFacts.pack_magisk_module_writes_target_only zip_encode
           zip_partial (magisk_template_dir "theme")
           (target_magisk "theme") packed finished (Ok ())).
  by vm_compute.
Defined.

Lemma progress_report_counts_witness :
  ∃ ev count,
    log rendered
    = [] ++ ev ++ [MsgDone count (length (parse_icon_mapper icon_mapper))]
    ∧ ProgressSpec.progress_lines ev
      = (λ k, (k, length (parse_icon_mapper icon_mapper))) <$> seq 1 count
    ∧ (count ≤ length (parse_icon_mapper icon_mapper))%nat.
Proof.
  apply (ProgressFacts.progress_report_counts svg2png getrgb blend
           png_encode icon_mapper (svg_dir "theme") (output_dir "theme")
           "#d1e2fc" "#1c232b" 4 half (world0 "theme") rendered).
  by vm_compute.
Defined.

(** A foreground left over from an earlier run survives a run in which
    the asset of its package does not render. *)
Lemma generate_icons_never_deletes_witness :
  exists_ (output_dir "theme" ++ ["com.b"; "1.png"]) stale_tree = true
  ∧ exists_ (output_dir "theme" ++ ["com.b"; "1.png"])
      (fs rendered_over_stale) = true.
Proof.
  split; [reflexivity|].
  apply (SurvivalFacts.generate_icons_never_deletes svg2png getrgb blend
           png_encode icon_mapper (svg_dir "theme") (output_dir "theme")
           "#d1e2fc" "#1c232b" 4 half (World stale_tree [])
           rendered_over_stale (Ok ())
           (output_dir "theme" ++ ["com.b"; "1.png"])).
  - by vm_compute.
  - reflexivity.
Defined.

End MoreRuns.
